(** * DUML protocol engine of dji-osmo-ble-protocol

    A shallow embedding of [src/protocol/duml.mjs] (message builder, parser,
    stream framer, sequence counter) and of the pairing flow of
    [src/connection.mjs], with the properties of the protocol
    specification stated and proved over it.

    Conventions.
    - A Node [Buffer] is a [list Z] whose elements are bytes; indices,
      lengths and offsets are JS numbers, here [Z].
    - The module-level [msgSeq] counter is threaded explicitly; a function
      that may raise returns an [outcome].
    - The loops of the source are a body function plus a fuelled driver, and
      it is proved that the fuel never runs out. *)

From Stdlib Require Import ZArith Lia Bool String.
From stdpp Require Import base numbers list option.

Local Open Scope Z_scope.

(** ** Node's Buffer, as far as the protocol engine uses it *)

Abbreviation Buffer := (list Z).

Definition is_byte (b : Z) : Prop := 0 <= b < 256.
Definition is_bytes (buf : Buffer) : Prop := Forall is_byte buf.

(** [buf.length] *)
Definition blen (buf : Buffer) : Z := Z.of_nat (length buf).

(** [Buffer.alloc(n)]: [n] zero bytes. *)
Definition alloc (n : Z) : Buffer := replicate (Z.to_nat n) 0.

(** [buf[i]] read.  Out of range JS gives [undefined], which the bit
    operators turn into 0; every read below is guarded by a length test. *)
Definition load8 (buf : Buffer) (i : Z) : Z :=
  if i <? 0 then 0 else default 0 (buf !! Z.to_nat i).

(** [buf[i] = v]: the value is stored modulo 256 (ToUint8); an index out
    of range leaves the bytes unchanged. *)
Definition store8 (buf : Buffer) (i : Z) (v : Z) : Buffer :=
  if i <? 0 then buf else <[Z.to_nat i := v mod 256]> buf.

(** Index normalisation of [slice]: a negative index counts from the end,
    and the result is clamped to [0, len]. *)
Definition clampIndex (len i : Z) : Z :=
  if i <? 0 then Z.max (len + i) 0 else Z.min i len.

(** [buf.slice(s, e)] *)
Definition slice (buf : Buffer) (s e : Z) : Buffer :=
  let s' := clampIndex (blen buf) s in
  let e' := clampIndex (blen buf) e in
  take (Z.to_nat (e' - s')) (drop (Z.to_nat s') buf).

(** [buf.slice(s)] *)
Definition sliceFrom (buf : Buffer) (s : Z) : Buffer := slice buf s (blen buf).

(** [buf.indexOf(v)]: index of the first occurrence, or -1. *)
Fixpoint indexOf (buf : Buffer) (v : Z) : Z :=
  match buf with
  | [] => -1
  | x :: rest =>
      if x =? v then 0
      else let i := indexOf rest v in if i <? 0 then -1 else i + 1
  end.

(** [src.copy(dst, off)]: copies as many bytes of [src] as fit in [dst]
    from offset [off] on. *)
Definition copy (src dst : Buffer) (off : Z) : Buffer :=
  let o := Z.to_nat off in
  take o dst ++ take (length dst - o)%nat src ++ drop (o + length src)%nat dst.

(** Exceptions raised by the code that is modelled. *)
Inductive exn : Type :=
| RangeError          (* ERR_OUT_OF_RANGE of the Buffer writers *)
| NotConnected.       (* Error('Not connected') of the transport *)

Inductive outcome (A : Type) : Type :=
| Ok (a : A)
| Throw (e : exn).
Arguments Ok {A} a.
Arguments Throw {A} e.

(** [buf.writeUInt16LE(v, off)] and [buf.writeUInt16BE(v, off)]: Node
    checks [0 <= v <= 0xFFFF] and that both bytes lie inside the buffer,
    and raises a RangeError otherwise. *)
Definition uint16_ok (buf : Buffer) (v off : Z) : bool :=
  (0 <=? v) && (v <=? 0xFFFF) && (0 <=? off) && (off + 2 <=? blen buf).

Definition writeUInt16LE (buf : Buffer) (v off : Z) : outcome Buffer :=
  if uint16_ok buf v off
  then Ok (store8 (store8 buf off v) (off + 1) (Z.shiftr v 8))
  else Throw RangeError.

Definition writeUInt16BE (buf : Buffer) (v off : Z) : outcome Buffer :=
  if uint16_ok buf v off
  then Ok (store8 (store8 buf off (Z.shiftr v 8)) (off + 1) v)
  else Throw RangeError.

(** [buf.readUInt16BE(off)]; the only call site reads offset 6 of a buffer
    of at least 13 bytes. *)
Definition readUInt16BE (buf : Buffer) (off : Z) : Z :=
  load8 buf off * 256 + load8 buf (off + 1).

(** ** Computations over the sequence counter

    [M A] is a computation that reads and updates [msgSeq] and either
    returns or raises; the counter is kept in both cases. *)

Definition M (A : Type) : Type := Z -> outcome A * Z.

Definition ret {A} (a : A) : M A := fun s => (Ok a, s).
Definition bind {A B} (m : M A) (k : A -> M B) : M B :=
  fun s => match m s with
           | (Ok a, s') => k a s'
           | (Throw e, s') => (Throw e, s')
           end.
Definition lift {A} (o : outcome A) : M A := fun s => (o, s).

(** [msgSeq++]: yields the old value, stores the old value plus one. *)
Definition postIncrSeq : M Z := fun s => (Ok s, s + 1).

Notation "x <- m ;; k" := (bind m (fun x => k))
  (at level 200, m at level 99, right associativity, only parsing).

(** [let msgSeq = 0x0100] and [resetSequence(val = 0x0100)] *)
Definition initialSeq : Z := 0x0100.
Definition resetSequence (val : option Z) : M unit :=
  fun _ => (Ok tt, default 0x0100 val).

(** ** Decoded frames *)

Module Frame.
Record t : Type := mk {
  length : Z;
  sender : Z;
  receiver : Z;
  msgId : Z;
  flags : Z;
  cmdSet : Z;
  cmdId : Z;
  payload : list Z;
  raw : list Z
}.
End Frame.

(** ** The codec, over an arbitrary pair of checksum functions *)

Section Codec.

(** The [compute] methods of the two crc-full calculators, which
    [computeCrc8] and [computeCrc16] pass their argument to. *)
Variable crc8Calc : Buffer -> Z.
Variable crc16Calc : Buffer -> Z.

Definition buildMessage (target flags cmdSet cmdId : Z)
    (payload : option Buffer) : M Buffer :=
  let payloadLen := match payload with Some p => blen p | None => 0 end in
  let totalLen := 13 + payloadLen in
  let buf := alloc totalLen in
  let off := 0 in
  (* Magic *)
  let buf := store8 buf off 0x55 in
  let off := off + 1 in
  (* Length (10-bit LE) + Version (6-bit) *)
  let version := 1 in
  let buf := store8 buf off (Z.land totalLen 0xFF) in
  let off := off + 1 in
  let buf := store8 buf off
    (Z.lor (Z.land (Z.shiftr totalLen 8) 0x03) (Z.shiftl version 2)) in
  let off := off + 1 in
  (* CRC8 of first 3 bytes *)
  let buf := store8 buf off (crc8Calc (slice buf 0 3)) in
  let off := off + 1 in
  (* Target (2 bytes LE) *)
  buf <- lift (writeUInt16LE buf target off) ;;
  let off := off + 2 in
  (* Message ID (2 bytes BE) *)
  seq <- postIncrSeq ;;
  buf <- lift (writeUInt16BE buf seq off) ;;
  let off := off + 2 in
  (* Type: [flags, cmdSet, cmdId] *)
  let buf := store8 buf off flags in
  let off := off + 1 in
  let buf := store8 buf off cmdSet in
  let off := off + 1 in
  let buf := store8 buf off cmdId in
  let off := off + 1 in
  (* Payload *)
  let '(buf, off) :=
    match payload with
    | Some p => if 0 <? payloadLen then (copy p buf off, off + payloadLen)
                else (buf, off)
    | None => (buf, off)
    end in
  (* CRC16 of everything before crc16Calc *)
  let crc16 := crc16Calc (slice buf 0 off) in
  buf <- lift (writeUInt16LE buf crc16 off) ;;
  ret buf.

End Codec.

(** The 10-bit length field of a header: [b[1] | ((b[2] & 0x03) << 8)]. *)
Definition lengthField (b : Buffer) : Z :=
  Z.lor (load8 b 1) (Z.shiftl (Z.land (load8 b 2) 0x03) 8).

Definition parseMessage (data : Buffer) : option Frame.t :=
  if (blen data <? 13) || negb (load8 data 0 =? 0x55) then None
  else
    let len := lengthField data in
    if blen data <? len then None
    else Some {|
      Frame.length := len;
      Frame.sender := load8 data 4;
      Frame.receiver := load8 data 5;
      Frame.msgId := readUInt16BE data 6;
      Frame.flags := load8 data 8;
      Frame.cmdSet := load8 data 9;
      Frame.cmdId := load8 data 10;
      Frame.payload := slice data 11 (len - 2);
      Frame.raw := slice data 0 len
    |}.

(** ** Valid frames

    The invariants of a frame: the magic byte, a length field equal to the
    byte count, the length bounds, and the two checksums. *)

Definition wellFramed (d : Buffer) : Prop :=
  load8 d 0 = 0x55 /\ lengthField d = blen d /\ 13 <= blen d <= 1024.

Section FrameValidity.

Variable crc8Calc : Buffer -> Z.
Variable crc16Calc : Buffer -> Z.

Definition checksumsOk (d : Buffer) : Prop :=
  load8 d 3 = crc8Calc (slice d 0 3) mod 256 /\
  load8 d (blen d - 2) + 256 * load8 d (blen d - 1)
    = crc16Calc (slice d 0 (blen d - 2)).

Definition valid_frame (d : Buffer) : Prop :=
  wellFramed d /\ checksumsOk d.

(** The bytes [buildMessage] lays out before the payload. *)
Definition frameHeader (target flags cmdSet cmdId seq totalLen : Z)
    : Buffer :=
  let b1 := Z.land totalLen 0xFF mod 256 in
  let b2 := Z.lor (Z.land (Z.shiftr totalLen 8) 0x03) (Z.shiftl 1 2) mod 256 in
  [0x55; b1; b2; crc8Calc [0x55; b1; b2] mod 256;
   target mod 256; Z.shiftr target 8 mod 256;
   Z.shiftr seq 8 mod 256; seq mod 256;
   flags mod 256; cmdSet mod 256; cmdId mod 256].

(** The two bytes [writeUInt16LE] stores for the trailing checksum. *)
Definition frameTrailer (body : Buffer) : Buffer :=
  let crc16 := crc16Calc body in
  [crc16 mod 256; Z.shiftr crc16 8 mod 256].

End FrameValidity.

(** ** The stream framer *)

(** State at the end of one pass through the body of the [while] loop of
    [parseStream]: [Continue] goes back to the loop test ([continue], or
    the end of the body), [Break] leaves the loop. *)
Inductive loop_ctl : Type :=
| Continue (buffer : Buffer) (messages : list Frame.t)
| Break (buffer : Buffer) (messages : list Frame.t).

Definition parseStream_body (buffer : Buffer) (messages : list Frame.t)
    : loop_ctl :=
  let magicIdx := indexOf buffer 0x55 in
  if magicIdx =? -1 then Break (alloc 0) messages
  else
    let buffer := if 0 <? magicIdx then sliceFrom buffer magicIdx else buffer in
    if blen buffer <? 4 then Break buffer messages
    else
      let msgLen := lengthField buffer in
      if (msgLen <? 13) || (1024 <? msgLen)
      then Continue (sliceFrom buffer 1) messages
      else if blen buffer <? msgLen then Break buffer messages
      else
        let msgData := slice buffer 0 msgLen in
        let buffer := sliceFrom buffer msgLen in
        match parseMessage msgData with
        | Some msg => Continue buffer (messages ++ [msg])
        | None => Continue buffer messages
        end.

(** The [while (buffer.length >= 13)] loop; [None] only when the fuel is
    used up before the loop is left. *)
Fixpoint parseStream_loop (fuel : nat) (buffer : Buffer)
    (messages : list Frame.t) : option (list Frame.t * Buffer) :=
  if 13 <=? blen buffer then
    match fuel with
    | O => None
    | S fuel' =>
        match parseStream_body buffer messages with
        | Continue buffer' messages' => parseStream_loop fuel' buffer' messages'
        | Break buffer' messages' => Some (messages', buffer')
        end
    end
  else Some (messages, buffer).

(** [parseStream(buffer)], returning [(messages, remaining)].  One unit of
    fuel per byte is enough ([parseStream_loop_fuel] below), so the last
    branch is never taken. *)
Definition parseStream (buffer : Buffer) : list Frame.t * Buffer :=
  match parseStream_loop (length buffer) buffer [] with
  | Some r => r
  | None => ([], buffer)
  end.

(** [BleTransport._processIncoming(data)]: the receive buffer after the
    call, and the messages emitted in order. *)
Definition processIncoming (receiveBuffer data : Buffer)
    : Buffer * list Frame.t :=
  let receiveBuffer := receiveBuffer ++ data in
  let '(messages, remaining) := parseStream receiveBuffer in
  (remaining, messages).

(** ** The checksum engine *)

Module Crc.

(** The parameters of a checksum: bit width, generator polynomial, initial
    register value, output XOR mask, input and output reflection flags. *)
Record params : Type := mkParams {
  width : Z;
  poly : Z;
  init : Z;
  xorOut : Z;
  refIn : bool;
  refOut : bool
}.

Definition mask (w : Z) : Z := Z.ones w.

(** Bit reversal of the low [w] bits of [v]. *)
Fixpoint reflectBits (w : nat) (v : Z) : Z :=
  match w with
  | O => 0
  | S w' => Z.lor (Z.shiftl (Z.land v 1) (Z.of_nat w'))
                  (reflectBits w' (Z.shiftr v 1))
  end.

Definition shiftBit (p : params) (reg : Z) : Z :=
  let shifted := Z.land (Z.shiftl reg 1) (mask (width p)) in
  if Z.testbit reg (width p - 1) then Z.lxor shifted (poly p) else shifted.

Definition feedByte (p : params) (reg byte : Z) : Z :=
  let b := Z.land byte 0xFF in
  let b := if refIn p then reflectBits 8 b else b in
  let reg := Z.land (Z.lxor reg (Z.shiftl b (width p - 8))) (mask (width p)) in
  Nat.iter 8 (shiftBit p) reg.

(** Modelled from the spec: the CRC class of the crc-full package, which
    [computeCrc8] and [computeCrc16] call, is not part of the sources.
    Its contract (section 4.1 of the specification) is a pure function of
    the parameters and the bytes; the empty input yields the initial
    register transformed by the output stage. *)
Definition compute (p : params) (bytes : list Z) : Z :=
  let reg := fold_left (feedByte p) bytes (init p) in
  let reg := if refOut p then reflectBits (Z.to_nat (width p)) reg else reg in
  Z.land (Z.lxor reg (xorOut p)) (mask (width p)).

End Crc.

(** [CRC_PARAMS] of [src/protocol/constants.mjs] *)
Definition CRC_PARAMS_CRC8 : Crc.params :=
  Crc.mkParams 8 0x31 0xEE 0x00 true true.
Definition CRC_PARAMS_CRC16 : Crc.params :=
  Crc.mkParams 16 0x1021 0x496C 0x0000 true true.

Definition computeCrc8 (data : Buffer) : Z := Crc.compute CRC_PARAMS_CRC8 data.
Definition computeCrc16 (data : Buffer) : Z := Crc.compute CRC_PARAMS_CRC16 data.

(** [buildMessage] of the repository: the codec at its two checksums. *)
Definition buildMessageDuml := buildMessage computeCrc8 computeCrc16.

(** ** Protocol constants ([src/protocol/constants.mjs]) *)

Module ADDR.
Definition APP : Z := 0x02.
Definition GIMBAL : Z := 0x04.
Definition WIFI : Z := 0x07.
End ADDR.

Module TARGET.
Definition APP_TO_GIMBAL : Z := Z.lor ADDR.APP (Z.shiftl ADDR.GIMBAL 8).
Definition APP_TO_WIFI : Z := Z.lor ADDR.APP (Z.shiftl ADDR.WIFI 8).
End TARGET.

Module FLAG.
Definition REQUEST : Z := 0x40.
Definition RESPONSE : Z := 0xC0.
Definition NOTIFY : Z := 0x00.
End FLAG.

Module CMD_SET.
Definition GIMBAL : Z := 0x04.
Definition BATTERY : Z := 0x06.
Definition WIFI : Z := 0x07.
End CMD_SET.

Module GIMBAL_CMD.
Definition CONTROL_PWM : Z := 0x01.
Definition PARAMS_GET : Z := 0x05.
Definition ANGLE_SET : Z := 0x0A.
Definition SPEED_CTRL : Z := 0x0C.
Definition ABS_ANGLE : Z := 0x14.
Definition MOVEMENT : Z := 0x15.
Definition SET_MODE : Z := 0x4C.
End GIMBAL_CMD.

Module WIFI_CMD.
Definition SET_PAIRING_PIN : Z := 0x45.
Definition PAIRING_APPROVED : Z := 0x46.
End WIFI_CMD.

Module DEFAULTS.
Definition PIN : string := "love".
Definition IDENTIFIER : string := "001749319286102".
End DEFAULTS.

(** [Buffer.from(str, 'utf8')]: a [string] is taken as its UTF-8 bytes. *)
Definition bufferFromString (str : string) : Buffer :=
  map (fun c => Z.of_N (Ascii.N_of_ascii c)) (list_ascii_of_string str).

Definition packString (str : string) : Buffer :=
  let strBuf := bufferFromString str in
  let out := alloc (1 + blen strBuf) in
  let out := store8 out 0 (blen strBuf) in
  copy strBuf out 1.

(** ** The gimbal controller's telemetry handler
    ([src/controllers/gimbal.mjs]) *)

(** Angles are kept in tenths of a degree, the unit of the wire; the source
    divides them by 10.0 on the way in. *)
Record gimbal_state : Type := mkGimbal {
  pitch : Z;
  roll : Z;
  yaw : Z;
  mode : option Z
}.

(** [buf.readInt16LE(off)] *)
Definition readInt16LE (buf : Buffer) (off : Z) : Z :=
  let u := load8 buf off + 256 * load8 buf (off + 1) in
  if u <? 0x8000 then u else u - 0x10000.

(** [GimbalController.handleMessage]: the new state, and whether a ['state']
    event is emitted. *)
Definition gimbal_handleMessage (g : gimbal_state) (msg : Frame.t)
    : gimbal_state * bool :=
  if negb (Frame.cmdSet msg =? CMD_SET.GIMBAL) then (g, false)
  else if (Frame.cmdId msg =? GIMBAL_CMD.PARAMS_GET)
          && (6 <=? blen (Frame.payload msg))
  then
    let p := Frame.payload msg in
    let g := mkGimbal (readInt16LE p 0) (readInt16LE p 2) (readInt16LE p 4)
                      (if 7 <=? blen p then Some (load8 p 6) else mode g) in
    (g, true)
  else (g, false).

(** ** The connection facade ([src/connection.mjs]) *)

(** Events the connection emits to its listeners. *)
Inductive event : Type :=
| Ev_pairing
| Ev_paired (alreadyPaired : bool)
| Ev_pairingRequired
| Ev_pairingTimeout
| Ev_battery (level : Z)
| Ev_gimbalState (g : gimbal_state)
| Ev_rawMessage (msg : Frame.t).

(** What a run of the connection does to the outside, in order. *)
Inductive effect : Type :=
| Emit (e : event)
| WriteFff4 (data : Buffer)
| WriteFff5 (data : Buffer)
| Sleep (ms : Z).

(** The fields of the connection the pairing flow reads or writes, the
    module-level [msgSeq] of the codec, and the effects performed so far. *)
Record OsmoConnection : Type := mkConn {
  _pin : string;
  _identifier : string;
  _battery : option Z;
  _paired : bool;
  gimbal : gimbal_state;
  msgSeq : Z;
  effects : list effect
}.

Definition emit (e : event) (c : OsmoConnection) : OsmoConnection :=
  mkConn (_pin c) (_identifier c) (_battery c) (_paired c) (gimbal c)
         (msgSeq c) (effects c ++ [Emit e]).

Definition perform (e : effect) (c : OsmoConnection) : OsmoConnection :=
  mkConn (_pin c) (_identifier c) (_battery c) (_paired c) (gimbal c)
         (msgSeq c) (effects c ++ [e]).

Definition set_paired (c : OsmoConnection) : OsmoConnection :=
  mkConn (_pin c) (_identifier c) (_battery c) true (gimbal c)
         (msgSeq c) (effects c).

Definition set_battery (v : option Z) (c : OsmoConnection) : OsmoConnection :=
  mkConn (_pin c) (_identifier c) v (_paired c) (gimbal c)
         (msgSeq c) (effects c).

Definition set_gimbal (g : gimbal_state) (c : OsmoConnection) : OsmoConnection :=
  mkConn (_pin c) (_identifier c) (_battery c) (_paired c) g
         (msgSeq c) (effects c).

Definition set_msgSeq (s : Z) (c : OsmoConnection) : OsmoConnection :=
  mkConn (_pin c) (_identifier c) (_battery c) (_paired c) (gimbal c)
         s (effects c).

(** [payload[i] === v]: false when the index is out of range. *)
Definition byteIs (p : Buffer) (i : nat) (v : Z) : bool :=
  match p !! i with Some b => b =? v | None => false end.

(** [OsmoConnection._handleMessage] *)
Definition _handleMessage (c : OsmoConnection) (msg : option Frame.t)
    : OsmoConnection :=
  match msg with
  | None => c
  | Some msg =>
      (* Gimbal telemetry *)
      if Frame.cmdSet msg =? CMD_SET.GIMBAL then
        let '(g, changed) := gimbal_handleMessage (gimbal c) msg in
        let c := set_gimbal g c in
        if changed then emit (Ev_gimbalState g) c else c
      (* Pairing responses *)
      else if Frame.cmdSet msg =? CMD_SET.WIFI then
        if (Frame.cmdId msg =? WIFI_CMD.SET_PAIRING_PIN)
           && negb (Z.land (Frame.flags msg) 0x80 =? 0)
        then
          let status := if 2 <=? blen (Frame.payload msg) then 1%nat else 0%nat in
          if byteIs (Frame.payload msg) status 0x01
          then emit (Ev_paired true) (set_paired c)
          else if byteIs (Frame.payload msg) status 0x02
          then emit Ev_pairingRequired c
          else c
        else if (Frame.cmdId msg =? WIFI_CMD.PAIRING_APPROVED)
                && byteIs (Frame.payload msg) 0 0x01
        then emit (Ev_paired false) (set_paired c)
        else c
      (* Battery telemetry *)
      else if (Frame.cmdSet msg =? CMD_SET.BATTERY)
              && (1 <=? blen (Frame.payload msg))
      then
        let c := set_battery (Some (load8 (Frame.payload msg) 0)) c in
        emit (Ev_battery (load8 (Frame.payload msg) 0)) c
      (* Unhandled *)
      else emit (Ev_rawMessage msg) c
  end.

(** What the surroundings do while [_pair] runs: whether the two transport
    writes succeed, and which messages the transport hands to
    [_handleMessage] while the routine is suspended at its [k]-th [await]. *)
Record environment : Type := mkEnv {
  writeFff4_result : outcome unit;
  write_result : outcome unit;
  arrivals : nat -> list Frame.t
}.

(** The messages of one suspension, routed in order. *)
Definition suspend (env : environment) (k : nat) (c : OsmoConnection)
    : OsmoConnection :=
  fold_left (fun c msg => _handleMessage c (Some msg)) (arrivals env k) c.

(** [for (let i = 0; i < 30 && !this._paired; i++) await sleep(500)], with
    [remaining = 30 - i]; the suspensions of the loop are numbered from [k]. *)
Fixpoint pollPaired (env : environment) (remaining k : nat)
    (c : OsmoConnection) : OsmoConnection :=
  match remaining with
  | O => c
  | S remaining' =>
      if _paired c then c
      else pollPaired env remaining' (S k)
             (suspend env k (perform (Sleep 500) c))
  end.

(** [_pair] up to and including [emit('pairing')]: trigger, settle delay,
    credentials. *)
Definition _pair_send (env : environment) (c : OsmoConnection)
    : outcome unit * OsmoConnection :=
  (* Trigger pairing mode *)
  match writeFff4_result env with
  | Throw e => (Throw e, c)
  | Ok _ =>
      let c := suspend env 0 (perform (WriteFff4 [0x01; 0x00]) c) in
      let c := suspend env 1 (perform (Sleep 200) c) in
      (* Send pairing PIN *)
      let payload := packString (_identifier c) ++ packString (_pin c) in
      match buildMessageDuml TARGET.APP_TO_WIFI FLAG.REQUEST CMD_SET.WIFI
              WIFI_CMD.SET_PAIRING_PIN (Some payload) (msgSeq c) with
      | (Throw e, s) => (Throw e, set_msgSeq s c)
      | (Ok msg, s) =>
          let c := set_msgSeq s c in
          match write_result env with
          | Throw e => (Throw e, c)
          | Ok _ =>
              let c := suspend env 2 (perform (WriteFff5 msg) c) in
              (Ok tt, emit Ev_pairing c)
          end
      end
  end.

(** The rest of [_pair]: the bounded wait, the timeout event, the result. *)
Definition _pair_wait (env : environment) (c : OsmoConnection)
    : bool * OsmoConnection :=
  (* Wait for pairing response (up to 15s) *)
  let c := pollPaired env 30 3 c in
  let c := if negb (_paired c) then emit Ev_pairingTimeout c else c in
  (_paired c, c).

Definition _pair (env : environment) (c : OsmoConnection)
    : outcome bool * OsmoConnection :=
  match _pair_send env c with
  | (Throw e, c) => (Throw e, c)
  | (Ok _, c) => let '(r, c) := _pair_wait env c in (Ok r, c)
  end.

(** ** Statement helpers *)

(** Number of [Sleep ms] entries in a list of effects. *)
Definition isSleep (ms : Z) (e : effect) : bool :=
  match e with Sleep m => m =? ms | _ => false end.

Definition countSleeps (ms : Z) (l : list effect) : nat :=
  length (List.filter (isSleep ms) l).

Definition isPairedEvent (e : effect) : bool :=
  match e with Emit (Ev_paired _) => true | _ => false end.

(** What every frame handed to a consumer satisfies: magic byte, length
    bounds, a length field that is the byte count of the raw slice, and a raw
    slice that decodes to the frame itself. *)
Definition surfaced_ok (f : Frame.t) : Prop :=
  load8 (Frame.raw f) 0 = 0x55
  /\ 13 <= Frame.length f <= 1024
  /\ lengthField (Frame.raw f) = Frame.length f
  /\ blen (Frame.raw f) = Frame.length f
  /\ parseMessage (Frame.raw f) = Some f.

Definition noMagic (pre : Buffer) : Prop := Forall (fun x => x <> 0x55) pre.

(** The five ways one pass through the loop body can end, in terms of the
    bytes of the buffer it started with. *)
Inductive body_spec (b : Buffer) (messages : list Frame.t)
    : loop_ctl -> Prop :=
| body_no_magic :
    noMagic b ->
    body_spec b messages (Break [] messages)
| body_short_header (pre b1 : Buffer) :
    b = pre ++ b1 -> noMagic pre -> load8 b1 0 = 0x55 ->
    1 <= blen b1 < 4 ->
    body_spec b messages (Break b1 messages)
| body_spurious (pre b1 : Buffer) :
    b = pre ++ 0x55 :: b1 -> noMagic pre ->
    4 <= blen (0x55 :: b1) ->
    lengthField (0x55 :: b1) < 13 \/ 1024 < lengthField (0x55 :: b1) ->
    body_spec b messages (Continue b1 messages)
| body_partial (pre b1 : Buffer) :
    b = pre ++ b1 -> noMagic pre -> load8 b1 0 = 0x55 ->
    13 <= lengthField b1 <= 1024 -> 4 <= blen b1 < lengthField b1 ->
    body_spec b messages (Break b1 messages)
| body_frame (pre rest : Buffer) (f : Frame.t) :
    b = pre ++ Frame.raw f ++ rest -> noMagic pre -> surfaced_ok f ->
    body_spec b messages (Continue rest (messages ++ [f])).

(** [framed b messages remaining]: the buffer [b] reads, from left to
    right, as discarded bytes, the raw bytes of the first message, discarded
    bytes, the raw bytes of the second message, and so on, then discarded
    bytes and the remainder. *)
Inductive framed : Buffer -> list Frame.t -> Buffer -> Prop :=
| framed_done (gap remaining : Buffer) :
    framed (gap ++ remaining) [] remaining
| framed_next (gap b remaining : Buffer) (f : Frame.t)
    (messages : list Frame.t) :
    framed b messages remaining ->
    framed (gap ++ Frame.raw f ++ b) (f :: messages) remaining.

(** [withChecksums d h t0 t1]: the bytes of [d] with the header checksum
    (offset 3) set to [h] and the two trailing checksum bytes (the last two
    of the [lengthField d] bytes of the frame) set to [t0] and [t1]. *)
Definition withChecksums (d : Buffer) (h t0 t1 : Z) : Buffer :=
  let len := lengthField d in
  store8 (store8 (store8 d 3 h) (len - 2) t0) (len - 1) t1.

(** [n] consecutive calls of [buildMessage] with the same arguments, and
    the message id (bytes 6 and 7, big-endian) a frame carries. *)
Fixpoint buildMessages (build : M Buffer) (n : nat) : M (list Buffer) :=
  match n with
  | O => ret []
  | S n' => buf <- build ;; rest <- buildMessages build n' ;; ret (buf :: rest)
  end.

Definition carriedId (buf : Buffer) : Z := readUInt16BE buf 6.

(** ** Sample data *)

(** What [buildMessage(0x0402, 0x40, 0x04, 0x05, payload)] returns for the
    payload [01 55 03 04 05 06 07] while the counter holds 0x0100. *)
Definition samplePayload : Buffer := [0x01; 0x55; 0x03; 0x04; 0x05; 0x06; 0x07].
Definition sampleFrame : Buffer :=
  [0x55; 0x14; 0x04; 0x6D; 0x02; 0x04; 0x01; 0x00; 0x40; 0x04; 0x05;
   0x01; 0x55; 0x03; 0x04; 0x05; 0x06; 0x07; 0xA8; 0x60].

(** The sample frame after a stray magic byte whose length field reads 0. *)
Definition sampleStream : Buffer := [0x55; 0x00; 0x04] ++ sampleFrame.

(** A device's answer to the pairing PIN that asks for approval on the
    device (status 0x02), and a session in which it is the only message to
    arrive, during the second poll. *)
Definition approvalRequested : Frame.t :=
  Frame.mk 15 ADDR.WIFI ADDR.APP 0x0100 FLAG.RESPONSE CMD_SET.WIFI
           WIFI_CMD.SET_PAIRING_PIN [0x00; 0x02] [].
Definition sampleEnvironment : environment :=
  mkEnv (Ok tt) (Ok tt)
        (fun k => if Nat.eqb k 4 then [approvalRequested] else []).
Definition freshConnection : OsmoConnection :=
  mkConn DEFAULTS.PIN DEFAULTS.IDENTIFIER None false (mkGimbal 0 0 0 None)
         initialSeq [].

(** ** Length-prefixed strings ([packString], [unpackString]) *)

(** [buf.toString('utf8')].  A JS string is represented by its UTF-8
    bytes, so decoding well-formed UTF-8 keeps the bytes; malformed input,
    for which Node substitutes U+FFFD, has no counterpart here.  The
    properties below apply it to the bytes of a whole string or to bytes
    below 0x80 only. *)
Definition toStringUtf8 (buf : Buffer) : string :=
  string_of_list_ascii (map (fun b => Ascii.ascii_of_N (Z.to_N b)) buf).

(** Bytes below 0x80: each is one character, however the bytes are cut. *)
Definition isAscii (buf : Buffer) : bool :=
  forallb (fun b => (0 <=? b) && (b <? 0x80)) buf.

(** The object [{ value, bytesRead }] that [unpackString] returns. *)
Record unpacked : Type := mkUnpacked {
  value : string;
  bytesRead : Z
}.

(** [unpackString(buf, offset = 0)], for an offset that is an index (a
    non-negative integer). *)
Definition unpackString (buf : Buffer) (offset : nat) : unpacked :=
  let offset := Z.of_nat offset in
  if blen buf <=? offset then mkUnpacked "" 0
  else
    let len := load8 buf offset in
    let value := toStringUtf8 (slice buf (offset + 1) (offset + 1 + len)) in
    mkUnpacked value (1 + len).

(** ** The transport's receive buffer over several notifications *)

(** Successive calls of [_processIncoming], one per chunk: the receive
    buffer at the end and all messages emitted, in order. *)
Fixpoint feedChunks (receiveBuffer : Buffer) (chunks : list Buffer)
    : Buffer * list Frame.t :=
  match chunks with
  | [] => (receiveBuffer, [])
  | data :: rest =>
      let '(receiveBuffer, messages) := processIncoming receiveBuffer data in
      let '(receiveBuffer, later) := feedChunks receiveBuffer rest in
      (receiveBuffer, messages ++ later)
  end.

(** A buffer on which the framer's loop stops without consuming anything:
    fewer than 13 bytes, or the start of a frame whose length field is in
    bounds and asks for more bytes than there are. *)
Definition stalled (p : Buffer) : Prop :=
  blen p < 13
  \/ (load8 p 0 = 0x55 /\ 13 <= lengthField p <= 1024
      /\ blen p < lengthField p).

(** Noise and frames in turn: the bytes of each pair, gap first. *)
Definition flattenStream (gds : list (Buffer * Buffer)) : Buffer :=
  concat (map (fun gd => fst gd ++ snd gd) gds).

(** The frames of a list of byte strings that decode, in order. *)
Fixpoint decodeAll (ds : list Buffer) : list Frame.t :=
  match ds with
  | [] => []
  | d :: ds' =>
      match parseMessage d with
      | Some f => f :: decodeAll ds'
      | None => decodeAll ds'
      end
  end.

(** The counter after [k] calls of [build] in a row, whether they return
    or raise. *)
Definition counterAfter (build : M Buffer) (k : nat) (seq : Z) : Z :=
  Nat.iter k (fun s => snd (build s)) seq.

(** Messages routed one after the other, by the connection and by the
    standalone tool. *)
Definition routeAll (c : OsmoConnection) (messages : list Frame.t)
    : OsmoConnection :=
  fold_left (fun c msg => _handleMessage c (Some msg)) messages c.

(** Effects that routing a message can cause: events other than
    ['pairing'] and ['pairingTimeout'], and nothing else. *)
Definition isRoutingEvent (e : effect) : bool :=
  match e with
  | Emit Ev_pairing | Emit Ev_pairingTimeout => false
  | Emit _ => true
  | _ => false
  end.

(** ** The standalone gimbal tool (a single-file program with its own
    codec, message handler and receive loop) *)

(** What the tool prints from its message handler. *)
Inductive tool_line : Type :=
| Line_alreadyPaired
| Line_pairingRequired
| Line_pairingApproved.

(** The module-level variables the receive path touches; angles in tenths
    of a degree, as in [gimbal_state]. *)
Record tool_state : Type := mkTool {
  tool_gimbalState : Z * Z * Z;
  tool_paired : bool;
  tool_console : list tool_line
}.

(** [decodeGimbalParams(payload)] *)
Definition decodeGimbalParams (payload : Buffer) : option (Z * Z * Z) :=
  if blen payload <? 6 then None
  else Some (readInt16LE payload 0, readInt16LE payload 2,
             readInt16LE payload 4).

(** [handleMessage(msg)] of the tool *)
Definition tool_handleMessage (st : tool_state) (msg : option Frame.t)
    : tool_state :=
  match msg with
  | None => st
  | Some msg =>
      if Frame.cmdSet msg =? 0x04 then
        if (Frame.cmdId msg =? 0x05) && (6 <=? blen (Frame.payload msg)) then
          match decodeGimbalParams (Frame.payload msg) with
          | Some angles => mkTool angles (tool_paired st) (tool_console st)
          | None => st
          end
        else st
      else if Frame.cmdSet msg =? 0x07 then
        if (Frame.cmdId msg =? 0x45)
           && negb (Z.land (Frame.flags msg) 0x80 =? 0)
        then
          let status := if 2 <=? blen (Frame.payload msg) then 1%nat else 0%nat in
          if byteIs (Frame.payload msg) status 0x01
          then mkTool (tool_gimbalState st) true
                      (tool_console st ++ [Line_alreadyPaired])
          else if byteIs (Frame.payload msg) status 0x02
          then mkTool (tool_gimbalState st) (tool_paired st)
                      (tool_console st ++ [Line_pairingRequired])
          else st
        else if (Frame.cmdId msg =? 0x46) && byteIs (Frame.payload msg) 0 0x01
        then mkTool (tool_gimbalState st) true
                    (tool_console st ++ [Line_pairingApproved])
        else st
      else st
  end.

Definition tool_handleAll (st : tool_state) (messages : list Frame.t)
    : tool_state :=
  fold_left (fun st msg => tool_handleMessage st (Some msg)) messages st.

(** One pass through the body of the [while] loop of
    [processIncomingData]; the decoder of the tool, [parseDumlMessage], is
    [parseMessage] word for word. *)
Inductive tool_ctl : Type :=
| ToolContinue (receiveBuffer : Buffer) (st : tool_state)
| ToolBreak (receiveBuffer : Buffer) (st : tool_state).

Definition processIncomingData_body (receiveBuffer : Buffer)
    (st : tool_state) : tool_ctl :=
  (* Find magic byte *)
  let magicIdx := indexOf receiveBuffer 0x55 in
  if magicIdx =? -1 then ToolBreak (alloc 0) st
  else
    let receiveBuffer :=
      if 0 <? magicIdx then sliceFrom receiveBuffer magicIdx
      else receiveBuffer in
    if blen receiveBuffer <? 4 then ToolBreak receiveBuffer st
    else
      let msgLen := lengthField receiveBuffer in
      if (msgLen <? 13) || (1024 <? msgLen)
      then ToolContinue (sliceFrom receiveBuffer 1) st
      else if blen receiveBuffer <? msgLen then ToolBreak receiveBuffer st
      else
        let msgData := slice receiveBuffer 0 msgLen in
        let receiveBuffer := sliceFrom receiveBuffer msgLen in
        let msg := parseMessage msgData in
        ToolContinue receiveBuffer (tool_handleMessage st msg).

Fixpoint processIncomingData_loop (fuel : nat) (receiveBuffer : Buffer)
    (st : tool_state) : option (Buffer * tool_state) :=
  if 13 <=? blen receiveBuffer then
    match fuel with
    | O => None
    | S fuel' =>
        match processIncomingData_body receiveBuffer st with
        | ToolContinue receiveBuffer' st' =>
            processIncomingData_loop fuel' receiveBuffer' st'
        | ToolBreak receiveBuffer' st' => Some (receiveBuffer', st')
        end
    end
  else Some (receiveBuffer, st).

(** [processIncomingData(data)]: the receive buffer and the other
    variables after the call.  The fuel never runs out
    (proved below). *)
Definition processIncomingData (receiveBuffer : Buffer) (st : tool_state)
    (data : Buffer) : Buffer * tool_state :=
  let receiveBuffer := receiveBuffer ++ data in
  match processIncomingData_loop (length receiveBuffer) receiveBuffer st with
  | Some r => r
  | None => (receiveBuffer, st)
  end.

(** ** The gimbal controller's commands ([src/controllers/gimbal.mjs]) *)

(** [buf.writeInt16LE(v, off)] and [buf.writeInt8(v, off)]: Node checks
    the signed range and the bounds, and raises a RangeError otherwise;
    the bytes stored are those of the two's complement. *)
Definition writeInt16LE (buf : Buffer) (v off : Z) : outcome Buffer :=
  if (-0x8000 <=? v) && (v <=? 0x7FFF) && (0 <=? off) && (off + 2 <=? blen buf)
  then Ok (store8 (store8 buf off v) (off + 1) (Z.shiftr v 8))
  else Throw RangeError.

Definition writeInt8 (buf : Buffer) (v off : Z) : outcome Buffer :=
  if (-0x80 <=? v) && (v <=? 0x7F) && (0 <=? off) && (off + 1 <=? blen buf)
  then Ok (store8 buf off v)
  else Throw RangeError.

Section GimbalCommands.

Variable crc8Calc : Buffer -> Z.
Variable crc16Calc : Buffer -> Z.

(** The commands are modelled on integer-valued arguments (whole degrees,
    whole PWM counts), for which [x * 10] and [Math.round] are exact.  Each
    definition yields the message the method hands to [this._send], or the
    exception it raises before that. *)

(** [setSpeed(pitchSpeed, yawSpeed, rollSpeed)] *)
Definition setSpeed (pitchSpeed yawSpeed rollSpeed : Z) : M Buffer :=
  let payload := alloc 7 in
  payload <- lift (writeInt16LE payload (pitchSpeed * 10) 0) ;;
  payload <- lift (writeInt16LE payload (rollSpeed * 10) 2) ;;
  payload <- lift (writeInt16LE payload (yawSpeed * 10) 4) ;;
  let payload := store8 payload 6 0x01 in (* enable *)
  buildMessage crc8Calc crc16Calc TARGET.APP_TO_GIMBAL FLAG.REQUEST
    CMD_SET.GIMBAL GIMBAL_CMD.SPEED_CTRL (Some payload).

(** [setAngle(pitch, roll, yaw, speed = 30)] *)
Definition setAngle (pitch roll yaw : Z) (speed : option Z) : M Buffer :=
  let speed := default 30 speed in
  let payload := alloc 10 in
  payload <- lift (writeInt16LE payload (pitch * 10) 0) ;;
  payload <- lift (writeInt16LE payload (roll * 10) 2) ;;
  payload <- lift (writeInt16LE payload (yaw * 10) 4) ;;
  payload <- lift (writeInt16LE payload (speed * 100) 6) ;;
  let payload := store8 payload 8 0x01 in (* flags *)
  let payload := store8 payload 9 (speed * 2000 / 100) in
  buildMessage crc8Calc crc16Calc TARGET.APP_TO_GIMBAL FLAG.REQUEST
    CMD_SET.GIMBAL GIMBAL_CMD.ANGLE_SET (Some payload).

(** [setAbsAngle(pitch, roll, yaw, duration = 20)] *)
Definition setAbsAngle (pitch roll yaw : Z) (duration : option Z) : M Buffer :=
  let duration := default 20 duration in
  let payload := alloc 8 in
  payload <- lift (writeInt16LE payload (pitch * 10) 0) ;;
  payload <- lift (writeInt16LE payload (roll * 10) 2) ;;
  payload <- lift (writeInt16LE payload (yaw * 10) 4) ;;
  let payload := store8 payload 6 0x07 in (* enable all axes *)
  let payload := store8 payload 7 (Z.min 255 (duration * 10)) in
  buildMessage crc8Calc crc16Calc TARGET.APP_TO_GIMBAL FLAG.REQUEST
    CMD_SET.GIMBAL GIMBAL_CMD.ABS_ANGLE (Some payload).

(** [move(pitchDelta, rollDelta = 0, yawDelta = 0)] *)
Definition move (pitchDelta rollDelta yawDelta : Z) : M Buffer :=
  let payload := alloc 20 in
  payload <- lift (writeInt8 payload (Z.max (-127) (Z.min 127 pitchDelta)) 0) ;;
  payload <- lift (writeInt8 payload (Z.max (-127) (Z.min 127 rollDelta)) 1) ;;
  payload <- lift (writeInt8 payload (Z.max (-127) (Z.min 127 yawDelta)) 2) ;;
  let payload := store8 payload 6 50 in (* speed percent *)
  let payload := store8 payload 7 50 in
  buildMessage crc8Calc crc16Calc TARGET.APP_TO_GIMBAL FLAG.REQUEST
    CMD_SET.GIMBAL GIMBAL_CMD.MOVEMENT (Some payload).

(** [setPwm(pitch = 1024, roll = 1024, yaw = 1024)] *)
Definition setPwm (pitch roll yaw : Z) : M Buffer :=
  let clamp := fun v => Z.max 363 (Z.min 1685 v) in
  let payload := alloc 6 in
  payload <- lift (writeUInt16LE payload (clamp pitch) 0) ;;
  payload <- lift (writeUInt16LE payload (clamp roll) 2) ;;
  payload <- lift (writeUInt16LE payload (clamp yaw) 4) ;;
  buildMessage crc8Calc crc16Calc TARGET.APP_TO_GIMBAL FLAG.REQUEST
    CMD_SET.GIMBAL GIMBAL_CMD.CONTROL_PWM (Some payload).

(** [recenter()] and [stop()] *)
Definition recenter : M Buffer := setAbsAngle 0 0 0 (Some 30).
Definition stop : M Buffer := setSpeed 0 0 0.

End GimbalCommands.

(** ** The command builders of the standalone tool

    The tool's encoder, [buildDumlMessage], is [buildMessage] word for
    word over the tool's own [msgSeq]; its builders return the message
    instead of sending it.  Arguments are whole numbers, as above. *)

(** [v || d] for a number that may be missing: the fallback also replaces
    0. *)
Definition orElse (v : option Z) (d : Z) : Z :=
  match v with
  | Some v => if v =? 0 then d else v
  | None => d
  end.

Section ToolCommands.

Variable crc8Calc : Buffer -> Z.
Variable crc16Calc : Buffer -> Z.

(** [buildGimbalSpeedCmd(pitchSpeed, rollSpeed, yawSpeed)] *)
Definition buildGimbalSpeedCmd (pitchSpeed rollSpeed yawSpeed : Z)
    : M Buffer :=
  let payload := alloc 7 in
  payload <- lift (writeInt16LE payload (pitchSpeed * 10) 0) ;;
  payload <- lift (writeInt16LE payload (rollSpeed * 10) 2) ;;
  payload <- lift (writeInt16LE payload (yawSpeed * 10) 4) ;;
  let payload := store8 payload 6 0x01 in (* flags: enable *)
  buildMessage crc8Calc crc16Calc TARGET.APP_TO_GIMBAL FLAG.REQUEST
    0x04 0x0C (Some payload).

(** [buildGimbalAngleCmd(pitch, roll, yaw, speed)] *)
Definition buildGimbalAngleCmd (pitch roll yaw : Z) (speed : option Z)
    : M Buffer :=
  let payload := alloc 10 in
  payload <- lift (writeInt16LE payload (pitch * 10) 0) ;;
  payload <- lift (writeInt16LE payload (roll * 10) 2) ;;
  payload <- lift (writeInt16LE payload (yaw * 10) 4) ;;
  payload <- lift (writeInt16LE payload (orElse speed 30 * 100) 6) ;;
  let payload := store8 payload 8 0x01 in (* flags *)
  let payload := store8 payload 9 (orElse speed 30 * 2000 / 100) in
  buildMessage crc8Calc crc16Calc TARGET.APP_TO_GIMBAL FLAG.REQUEST
    0x04 0x0A (Some payload).

(** [buildGimbalAbsAngleCmd(pitch, roll, yaw, duration)] *)
Definition buildGimbalAbsAngleCmd (pitch roll yaw : Z) (duration : option Z)
    : M Buffer :=
  let payload := alloc 8 in
  payload <- lift (writeInt16LE payload (pitch * 10) 0) ;;
  payload <- lift (writeInt16LE payload (roll * 10) 2) ;;
  payload <- lift (writeInt16LE payload (yaw * 10) 4) ;;
  let payload := store8 payload 6 0x07 in (* flags: enable all axes *)
  let payload := store8 payload 7 (Z.min 255 (orElse duration 20 * 10)) in
  buildMessage crc8Calc crc16Calc TARGET.APP_TO_GIMBAL FLAG.REQUEST
    0x04 0x14 (Some payload).

(** [buildGimbalPwmCmd(pitch, roll, yaw)] *)
Definition buildGimbalPwmCmd (pitch roll yaw : Z) : M Buffer :=
  let clamp := fun v => Z.max 363 (Z.min 1685 v) in
  let payload := alloc 6 in
  payload <- lift (writeUInt16LE payload (clamp pitch) 0) ;;
  payload <- lift (writeUInt16LE payload (clamp roll) 2) ;;
  payload <- lift (writeUInt16LE payload (clamp yaw) 4) ;;
  buildMessage crc8Calc crc16Calc TARGET.APP_TO_GIMBAL FLAG.REQUEST
    0x04 0x01 (Some payload).

(** [buildGimbalMoveCmd(pitch, roll, yaw)] *)
Definition buildGimbalMoveCmd (pitch roll yaw : Z) : M Buffer :=
  let payload := alloc 20 in
  payload <- lift (writeInt8 payload (Z.max (-127) (Z.min 127 pitch)) 0) ;;
  payload <- lift (writeInt8 payload (Z.max (-127) (Z.min 127 roll)) 1) ;;
  payload <- lift (writeInt8 payload (Z.max (-127) (Z.min 127 yaw)) 2) ;;
  payload <- lift (writeInt8 payload 0 3) ;; (* 0.1 deg pitch *)
  payload <- lift (writeInt8 payload 0 4) ;; (* 0.1 deg roll *)
  payload <- lift (writeInt8 payload 0 5) ;; (* 0.1 deg yaw *)
  let payload := store8 payload 6 50 in (* speed percent *)
  let payload := store8 payload 7 50 in (* speed percent *)
  let payload := store8 payload 8 0 in (* roll adjust *)
  buildMessage crc8Calc crc16Calc TARGET.APP_TO_GIMBAL FLAG.REQUEST
    0x04 0x15 (Some payload).

End ToolCommands.

(** ** More sample data *)

(** A string of 300 bytes. *)
Definition longString : string :=
  string_of_list_ascii (List.repeat (Ascii.ascii_of_nat 97) 300).

(** The device's approval (command 0x46, first payload byte 1), a session
    in which it arrives during the third poll, after the request for
    approval during the second, and a connection whose counter has passed
    0xFFFF. *)
Definition approvalGranted : Frame.t :=
  Frame.mk 14 ADDR.WIFI ADDR.APP 0x0101 FLAG.NOTIFY CMD_SET.WIFI
           WIFI_CMD.PAIRING_APPROVED [0x01] [].
Definition approvingEnvironment : environment :=
  mkEnv (Ok tt) (Ok tt)
        (fun k => if Nat.eqb k 4 then [approvalRequested]
                  else if Nat.eqb k 5 then [approvalGranted] else []).
Definition overflowedConnection : OsmoConnection :=
  set_msgSeq 0x10000 freshConnection.

(** A telemetry message: pitch -12.5, roll 0.3, yaw 90.0 degrees, mode 1. *)
Definition sampleTelemetry : Frame.t :=
  Frame.mk 20 ADDR.GIMBAL ADDR.APP 0x0200 FLAG.NOTIFY CMD_SET.GIMBAL
           GIMBAL_CMD.PARAMS_GET
           [0x83; 0xFF; 0x03; 0x00; 0x84; 0x03; 0x01] [].

(** A message of the general command set. *)
Definition sampleGeneral : Frame.t :=
  Frame.mk 13 ADDR.WIFI ADDR.APP 0x0300 FLAG.NOTIFY 0x00 0x01 [] [].

Definition freshTool : tool_state := mkTool (0, 0, 0) false [].

(** * Properties *)

(** ** Buffers *)

Lemma blen_app (l1 l2 : Buffer) : blen (l1 ++ l2) = blen l1 + blen l2.
Proof. unfold blen. rewrite length_app. lia. Qed.

Lemma blen_nonneg (l : Buffer) : 0 <= blen l.
Proof. unfold blen. lia. Qed.

Lemma blen_cons (x : Z) (l : Buffer) : blen (x :: l) = 1 + blen l.
Proof. unfold blen. cbn [length]. lia. Qed.

Lemma alloc_13 (n : nat) :
  alloc (13 + Z.of_nat n) =
  [0; 0; 0; 0; 0; 0; 0; 0; 0; 0; 0] ++ replicate n 0 ++ [0; 0].
Proof.
  unfold alloc.
  replace (Z.to_nat (13 + Z.of_nat n)) with (11 + (n + 2))%nat by lia.
  rewrite replicate_add. f_equal. rewrite replicate_add. reflexivity.
Qed.

Lemma store8_cons_0 (x : Z) (l : Buffer) (v : Z) :
  store8 (x :: l) 0 v = v mod 256 :: l.
Proof. reflexivity. Qed.

Lemma store8_cons_S (x : Z) (l : Buffer) (k v : Z) :
  0 < k -> store8 (x :: l) k v = x :: store8 l (k - 1) v.
Proof.
  intros H. unfold store8.
  destruct (Z.ltb_spec k 0); [lia|]. destruct (Z.ltb_spec (k - 1) 0); [lia|].
  replace (Z.to_nat k) with (S (Z.to_nat (k - 1))) by lia. reflexivity.
Qed.

Lemma store8_app_r (l1 l2 : Buffer) (k v : Z) :
  0 <= k -> store8 (l1 ++ l2) (blen l1 + k) v = l1 ++ store8 l2 k v.
Proof.
  intros Hk. unfold store8, blen.
  destruct (Z.ltb_spec (Z.of_nat (length l1) + k) 0); [lia|].
  destruct (Z.ltb_spec k 0); [lia|].
  replace (Z.to_nat (Z.of_nat (length l1) + k))
    with (length l1 + Z.to_nat k)%nat by lia.
  apply insert_app_r.
Qed.

Lemma slice_take_drop (buf : Buffer) (s e : Z) :
  0 <= s <= e -> e <= blen buf ->
  slice buf s e = take (Z.to_nat (e - s)) (drop (Z.to_nat s) buf).
Proof.
  intros Hs He. unfold slice, clampIndex.
  destruct (Z.ltb_spec s 0); [lia|]. destruct (Z.ltb_spec e 0); [lia|].
  rewrite !Z.min_l by lia. reflexivity.
Qed.

Lemma slice_app_prefix (l1 l2 : Buffer) : slice (l1 ++ l2) 0 (blen l1) = l1.
Proof.
  rewrite slice_take_drop.
  - rewrite Z.sub_0_r. unfold blen. rewrite Nat2Z.id. simpl.
    apply take_app_length.
  - pose proof (blen_nonneg l1). lia.
  - rewrite blen_app. pose proof (blen_nonneg l2). lia.
Qed.

Lemma slice_all (l : Buffer) : slice l 0 (blen l) = l.
Proof.
  rewrite <- (app_nil_r l) at 1. apply slice_app_prefix.
Qed.

Lemma sliceFrom_app (l1 l2 : Buffer) : sliceFrom (l1 ++ l2) (blen l1) = l2.
Proof.
  unfold sliceFrom. pose proof (blen_nonneg l1). pose proof (blen_nonneg l2).
  rewrite slice_take_drop by (rewrite ?blen_app; lia).
  unfold blen at 3. rewrite Nat2Z.id, drop_app_length.
  apply take_ge. rewrite blen_app. unfold blen. lia.
Qed.

Lemma copy_fill (hd p tl : Buffer) :
  copy p (hd ++ replicate (length p) 0 ++ tl) (blen hd) = hd ++ p ++ tl.
Proof.
  unfold copy, blen. rewrite Nat2Z.id.
  rewrite take_app_length. f_equal.
  rewrite !length_app, length_replicate.
  rewrite take_ge by lia. f_equal.
  rewrite drop_app_add. apply drop_app_length'. by rewrite length_replicate.
Qed.

Lemma uint16_ok_true (buf : Buffer) (v off : Z) :
  0 <= v <= 0xFFFF -> 0 <= off -> off + 2 <= blen buf ->
  uint16_ok buf v off = true.
Proof.
  intros Hv Ho Hl. unfold uint16_ok.
  rewrite !andb_true_iff, !Z.leb_le. lia.
Qed.

Lemma slice_middle (l1 l2 l3 : Buffer) (s e : Z) :
  clampIndex (blen (l1 ++ l2 ++ l3)) s = blen l1 ->
  clampIndex (blen (l1 ++ l2 ++ l3)) e = blen l1 + blen l2 ->
  slice (l1 ++ l2 ++ l3) s e = l2.
Proof.
  intros Hs He. unfold slice. rewrite Hs, He.
  replace (blen l1 + blen l2 - blen l1) with (blen l2) by lia.
  unfold blen. rewrite !Nat2Z.id, drop_app_length. apply take_app_length.
Qed.

Lemma load8_cons_0 (x : Z) (l : Buffer) : load8 (x :: l) 0 = x.
Proof. reflexivity. Qed.

Lemma load8_cons_S (x : Z) (l : Buffer) (k : Z) :
  0 < k -> load8 (x :: l) k = load8 l (k - 1).
Proof.
  intros H. unfold load8.
  destruct (Z.ltb_spec k 0); [lia|]. destruct (Z.ltb_spec (k - 1) 0); [lia|].
  replace (Z.to_nat k) with (S (Z.to_nat (k - 1))) by lia. reflexivity.
Qed.

Lemma load8_app_r (l1 l2 : Buffer) (k : Z) :
  0 <= k -> load8 (l1 ++ l2) (blen l1 + k) = load8 l2 k.
Proof.
  intros Hk. unfold load8, blen.
  destruct (Z.ltb_spec (Z.of_nat (length l1) + k) 0); [lia|].
  destruct (Z.ltb_spec k 0); [lia|].
  rewrite lookup_app_r by lia. do 2 f_equal. lia.
Qed.

Lemma load8_app_l (l1 l2 : Buffer) (k : Z) :
  0 <= k < blen l1 -> load8 (l1 ++ l2) k = load8 l1 k.
Proof.
  intros Hk. unfold load8, blen in *.
  destruct (Z.ltb_spec k 0); [lia|].
  rewrite lookup_app_l by lia. reflexivity.
Qed.

(** ** Bit arithmetic of the length field *)

Lemma lor_shiftl8 (x y : Z) :
  0 <= x < 256 -> Z.lor x (Z.shiftl y 8) = x + 256 * y.
Proof.
  intros Hx.
  assert (Hland : Z.land x (Z.shiftl y 8) = 0).
  { apply Z.bits_inj'. intros n Hn.
    rewrite Z.land_spec, Z.bits_0.
    destruct (Z.lt_ge_cases n 8) as [Hlt|Hge].
    - rewrite Z.shiftl_spec_low by lia. apply andb_false_r.
    - rewrite <- (Z.mod_small x (2 ^ 8)) by (change (2 ^ 8) with 256; lia).
      rewrite Z.testbit_mod_pow2 by lia.
      destruct (Z.ltb_spec n 8); [lia|]. reflexivity. }
  rewrite <- Z.lxor_lor by exact Hland.
  rewrite <- Z.add_nocarry_lxor by exact Hland.
  rewrite Z.shiftl_mul_pow2 by lia. change (2 ^ 8) with 256. lia.
Qed.

(** The two length bytes written by the encoder, read back by the decoder,
    give the total length modulo 1024. *)
Lemma lengthField_encode (totalLen : Z) :
  Z.lor (Z.land totalLen 0xFF mod 256)
        (Z.shiftl
           (Z.land
              (Z.lor (Z.land (Z.shiftr totalLen 8) 0x03) (Z.shiftl 1 2) mod 256)
              0x03) 8)
  = totalLen mod 1024.
Proof.
  change 0xFF with (Z.ones 8). change 0x03 with (Z.ones 2).
  rewrite !Z.land_ones by lia. rewrite Z.shiftr_div_pow2 by lia.
  change (2 ^ 8) with 256. change (2 ^ 2) with 4.
  change (Z.shiftl 1 2) with 4.
  rewrite Z.mod_mod by lia.
  pose proof (Z.mod_pos_bound totalLen 256 ltac:(lia)) as Hlo.
  pose proof (Z.mod_pos_bound (totalLen / 256) 4 ltac:(lia)) as Hhi.
  set (q := (totalLen / 256) mod 4) in *.
  assert (Hq : Z.lor q 4 mod 256 mod 4 = q).
  { assert (Hc : q = 0 \/ q = 1 \/ q = 2 \/ q = 3) by lia.
    destruct Hc as [->|[->|[->| ->]]]; reflexivity. }
  rewrite Hq, lor_shiftl8 by lia.
  change 1024 with (256 * 4). rewrite Z.rem_mul_r by lia. reflexivity.
Qed.

(** ** The encoder in closed form *)

Section BuildMessage.

Variable crc8Calc : Buffer -> Z.
Variable crc16Calc : Buffer -> Z.
Hypothesis crc16_range : forall d, 0 <= crc16Calc d <= 0xFFFF.

Local Ltac step_stores :=
  repeat (rewrite ?store8_cons_0; rewrite ?store8_cons_S by lia;
          cbn [Z.add Z.sub Z.pos_sub Pos.add Pos.succ Z.opp
               Pos.pred_double Z.succ_double Z.pred_double Z.double]).

Local Ltac blen_list :=
  rewrite ?blen_cons, ?blen_app; unfold blen;
  rewrite ?length_replicate; cbn [length]; lia.

(** With a 16-bit target and a 16-bit counter value the encoder returns
    header, payload and trailer, and leaves the counter one higher. *)
Lemma buildMessage_eq (target flags cmdSet cmdId : Z) (p : Buffer) (seq : Z) :
  0 <= target <= 0xFFFF -> 0 <= seq <= 0xFFFF ->
  let hdr := frameHeader crc8Calc target flags cmdSet cmdId seq
               (13 + blen p) in
  buildMessage crc8Calc crc16Calc target flags cmdSet cmdId (Some p) seq
  = (Ok (hdr ++ p ++ frameTrailer crc16Calc (hdr ++ p)), seq + 1).
Proof.
  intros Ht Hs hdr. unfold buildMessage.
  unfold blen at 1 2 3 4 5 6. rewrite alloc_13. cbn [app].
  step_stores.
  change (85 mod 256) with 85.
  match goal with |- context [slice (?a :: ?b :: ?c :: ?l) 0 3] =>
    change (slice (a :: b :: c :: l) 0 3)
      with (slice ([a; b; c] ++ l) 0 (blen [a; b; c]));
    rewrite (slice_app_prefix [a; b; c] l) end.
  unfold bind, lift, postIncrSeq, ret.
  change (0 + 1 + 1 + 1 + 1) with 4. change (4 + 2) with 6.
  change (6 + 2) with 8. change (8 + 1) with 9. change (9 + 1) with 10.
  change (10 + 1) with 11.
  unfold writeUInt16LE at 1.
  rewrite uint16_ok_true by (try lia; blen_list).
  step_stores.
  unfold writeUInt16BE.
  rewrite uint16_ok_true by (try lia; blen_list).
  step_stores.
  change (85 :: ?a :: ?b :: ?c :: ?d :: ?e :: ?f :: ?g :: ?h :: ?i :: ?j :: ?l)
    with (hdr ++ l).
  assert (Hh : blen hdr = 11) by reflexivity.
  assert (Hfill : copy p (hdr ++ replicate (length p) 0 ++ [0; 0]) 11
                  = hdr ++ p ++ [0; 0])
    by (rewrite <- Hh; apply copy_fill).
  assert (Hbuf : (if 0 <? blen p
                  then (copy p (hdr ++ replicate (length p) 0 ++ [0; 0]) 11,
                        11 + blen p)
                  else (hdr ++ replicate (length p) 0 ++ [0; 0], 11))
                 = ((hdr ++ p) ++ [0; 0], blen (hdr ++ p))).
  { rewrite blen_app, Hh, Hfill, <- app_assoc.
    destruct (Z.ltb_spec 0 (blen p)) as [Hp|Hp]; [reflexivity|].
    destruct p as [|x p']; [reflexivity|]. rewrite blen_cons in Hp.
    pose proof (blen_nonneg p'). lia. }
  rewrite Hbuf. cbv beta iota.
  rewrite slice_app_prefix.
  unfold writeUInt16LE.
  rewrite uint16_ok_true;
    [ | apply crc16_range | apply blen_nonneg
      | rewrite (blen_app (hdr ++ p)); change (blen [0; 0]) with 2; lia ].
  rewrite <- (Z.add_0_r (blen (hdr ++ p))) at 1.
  rewrite store8_app_r by lia. rewrite store8_cons_0.
  rewrite store8_app_r by lia.
  rewrite store8_cons_S by lia. rewrite store8_cons_0.
  rewrite <- app_assoc. reflexivity.
Qed.

Lemma buildMessage_None (target flags cmdSet cmdId seq : Z) :
  buildMessage crc8Calc crc16Calc target flags cmdSet cmdId None seq
  = buildMessage crc8Calc crc16Calc target flags cmdSet cmdId
      (Some []) seq.
Proof. reflexivity. Qed.

(** A counter value outside the 16-bit range makes [writeUInt16BE] raise;
    the increment has happened by then. *)
Lemma buildMessage_seq_out_of_range
    (target flags cmdSet cmdId : Z) (p : option Buffer) (seq : Z) :
  0 <= target <= 0xFFFF -> 0xFFFF < seq ->
  buildMessage crc8Calc crc16Calc target flags cmdSet cmdId p seq
  = (Throw RangeError, seq + 1).
Proof.
  intros Ht Hs. unfold buildMessage.
  set (n := match p with Some p0 => length p0 | None => O end).
  replace (match p with Some p0 => blen p0 | None => 0 end)
    with (Z.of_nat n) by (destruct p; reflexivity).
  rewrite alloc_13. cbn [app]. step_stores.
  unfold bind, lift, postIncrSeq.
  change (0 + 1 + 1 + 1 + 1) with 4. change (4 + 2) with 6.
  unfold writeUInt16LE at 1.
  rewrite uint16_ok_true by (try lia; blen_list).
  unfold writeUInt16BE, uint16_ok.
  destruct (Z.leb_spec seq 0xFFFF); [lia|].
  rewrite andb_false_r. reflexivity.
Qed.

Section Built.

Variables (target flags cmdSet cmdId seq : Z) (p : Buffer).

Let hdr := frameHeader crc8Calc target flags cmdSet cmdId seq
             (13 + blen p).
Let frame := hdr ++ p ++ frameTrailer crc16Calc (hdr ++ p).

Lemma built_blen : blen frame = 13 + blen p.
Proof.
  unfold frame. rewrite !blen_app.
  change (blen hdr) with 11.
  change (blen (frameTrailer crc16Calc (hdr ++ p))) with 2. lia.
Qed.

Lemma built_lengthField : lengthField frame = (13 + blen p) mod 1024.
Proof. apply lengthField_encode. Qed.

Lemma built_magic : load8 frame 0 = 0x55.
Proof. reflexivity. Qed.

Lemma built_payload :
  blen p <= 1011 -> slice frame 11 (lengthField frame - 2) = p.
Proof.
  intros Hp. rewrite built_lengthField. pose proof (blen_nonneg p) as Hn.
  apply slice_middle; fold frame; rewrite built_blen;
    change (blen hdr) with 11; unfold clampIndex.
  - destruct (Z.ltb_spec 11 0); lia.
  - destruct (Z.eq_dec (blen p) 1011) as [E|E].
    + rewrite E. change ((13 + 1011) mod 1024 - 2) with (-2).
      destruct (Z.ltb_spec (-2) 0); lia.
    + rewrite Z.mod_small by lia.
      destruct (Z.ltb_spec (13 + blen p - 2) 0); lia.
Qed.

Lemma built_parse :
  parseMessage frame = Some {|
    Frame.length := lengthField frame;
    Frame.sender := target mod 256;
    Frame.receiver := Z.shiftr target 8 mod 256;
    Frame.msgId := Z.shiftr seq 8 mod 256 * 256 + seq mod 256;
    Frame.flags := flags mod 256;
    Frame.cmdSet := cmdSet mod 256;
    Frame.cmdId := cmdId mod 256;
    Frame.payload := slice frame 11 (lengthField frame - 2);
    Frame.raw := slice frame 0 (lengthField frame)
  |}.
Proof.
  unfold parseMessage. rewrite built_blen, built_magic.
  pose proof (blen_nonneg p) as Hn.
  destruct (Z.ltb_spec (13 + blen p) 13); [lia|].
  cbn [orb negb Z.eqb Pos.eqb].
  rewrite built_lengthField.
  pose proof (Z.mod_le (13 + blen p) 1024 ltac:(lia) ltac:(lia)).
  destruct (Z.ltb_spec (13 + blen p) ((13 + blen p) mod 1024)); [lia|].
  reflexivity.
Qed.

End Built.

Lemma uint16_bytes (v : Z) :
  0 <= v <= 0xFFFF -> Z.shiftr v 8 mod 256 * 256 + v mod 256 = v.
Proof.
  intros Hv. rewrite Z.shiftr_div_pow2 by lia. change (2 ^ 8) with 256.
  rewrite (Z.mod_small (v / 256)).
  - pose proof (Z.div_mod v 256 ltac:(lia)). lia.
  - split; [apply Z.div_pos; lia|]. apply Z.div_lt_upper_bound; lia.
Qed.

(** C1: Round trip.  For a 16-bit target, one of the three flag values,
    byte-sized command set and command id, a payload of at most 1011
    bytes and a sequence value of the 16-bit counter, decoding the encoded
    message gives back the low and high byte of the target as sender and
    receiver, the flags, command set, command id and payload unchanged,
    and as message id the value the counter held before the call. *)
Theorem roundtrip (target flags cmdSet cmdId seq : Z) (payload : Buffer) :
  0 <= target < 0x10000 ->
  flags = 0x40 \/ flags = 0xC0 \/ flags = 0x00 ->
  is_byte cmdSet -> is_byte cmdId ->
  blen payload <= 1011 ->
  0 <= seq <= 0xFFFF ->
  exists buf seq' f,
    buildMessage crc8Calc crc16Calc target flags cmdSet cmdId
      (Some payload) seq = (Ok buf, seq')
    /\ parseMessage buf = Some f
    /\ Frame.sender f = Z.land target 0xFF
    /\ Frame.receiver f = Z.shiftr target 8
    /\ Frame.flags f = flags
    /\ Frame.cmdSet f = cmdSet
    /\ Frame.cmdId f = cmdId
    /\ Frame.payload f = payload
    /\ Frame.msgId f = seq.
Proof.
  intros Ht Hf Hcs Hci Hp Hs. unfold is_byte in *.
  eexists _, _, _. split; [apply buildMessage_eq; lia|].
  split; [apply built_parse|]. cbn [Frame.sender Frame.receiver Frame.flags
    Frame.cmdSet Frame.cmdId Frame.payload Frame.msgId].
  repeat split.
  - change 0xFF with (Z.ones 8). rewrite Z.land_ones by lia. reflexivity.
  - apply Z.mod_small. rewrite Z.shiftr_div_pow2 by lia.
    change (2 ^ 8) with 256.
    split; [apply Z.div_pos; lia|]. apply Z.div_lt_upper_bound; lia.
  - destruct Hf as [->|[->| ->]]; reflexivity.
  - apply Z.mod_small; lia.
  - apply Z.mod_small; lia.
  - apply built_payload. exact Hp.
  - apply uint16_bytes. exact Hs.
Qed.

(** Frames the encoder returns for payloads of at most 1010 bytes are
    valid frames. *)
Lemma buildMessage_valid (target flags cmdSet cmdId seq : Z) (p buf : Buffer)
    (seq' : Z) :
  0 <= target <= 0xFFFF -> 0 <= seq <= 0xFFFF -> blen p <= 1010 ->
  buildMessage crc8Calc crc16Calc target flags cmdSet cmdId (Some p) seq
    = (Ok buf, seq') ->
  valid_frame crc8Calc crc16Calc buf.
Proof.
  intros Ht Hs Hp Hb. rewrite buildMessage_eq in Hb by lia.
  match type of Hb with (Ok ?x, _) = _ =>
    set (frame := x) in *; assert (Hbuf : buf = frame) by congruence end.
  subst buf. subst frame. clear Hb. pose proof (blen_nonneg p) as Hn.
  split; [split; [|split]|split].
  - reflexivity.
  - rewrite built_lengthField, built_blen. apply Z.mod_small. lia.
  - rewrite built_blen. lia.
  - unfold frameHeader. cbn [app].
    match goal with |- context [slice (?a :: ?b :: ?c :: ?l) 0 3] =>
      change (slice (a :: b :: c :: l) 0 3)
        with (slice ([a; b; c] ++ l) 0 (blen [a; b; c]));
      rewrite (slice_app_prefix [a; b; c] l) end.
    reflexivity.
  - rewrite built_blen.
    set (hdr := frameHeader crc8Calc target flags cmdSet cmdId seq
                  (13 + blen p)).
    replace (13 + blen p - 1) with (blen (hdr ++ p) + 1)
      by (rewrite blen_app; change (blen hdr) with 11; lia).
    replace (13 + blen p - 2) with (blen (hdr ++ p))
      by (rewrite blen_app; change (blen hdr) with 11; lia).
    rewrite app_assoc, slice_app_prefix.
    rewrite <- (Z.add_0_r (blen (hdr ++ p))) at 1.
    rewrite !load8_app_r by lia.
    unfold frameTrailer. set (crc := crc16Calc (hdr ++ p)).
    change (load8 [crc mod 256; Z.shiftr crc 8 mod 256] 0)
      with (crc mod 256).
    change (load8 [crc mod 256; Z.shiftr crc 8 mod 256] 1)
      with (Z.shiftr crc 8 mod 256).
    pose proof (uint16_bytes crc (crc16_range _)). lia.
Qed.

(** C3 (amended): Encode length exactness.  For a 16-bit target and
    sequence value and every payload of at most 1010 bytes the encoder
    returns exactly 13 + len(payload) bytes, byte 0 is 0x55 and the 10-bit
    length field equals 13 + len(payload); encoding target 0x0402, flags
    0x40, command set 0x04, command id 0x05 with an empty payload gives 13
    bytes starting with 0x55 that decode to a length field of 13. *)
Theorem encode_length_exact :
  (forall (target flags cmdSet cmdId seq : Z) (payload : Buffer),
     0 <= target <= 0xFFFF -> 0 <= seq <= 0xFFFF ->
     blen payload <= 1010 ->
     exists buf seq',
       buildMessage crc8Calc crc16Calc target flags cmdSet cmdId
         (Some payload) seq = (Ok buf, seq')
       /\ blen buf = 13 + blen payload
       /\ load8 buf 0 = 0x55
       /\ lengthField buf = 13 + blen payload)
  /\ (forall seq : Z,
        0 <= seq <= 0xFFFF ->
        exists buf seq' f,
          buildMessage crc8Calc crc16Calc 0x0402 0x40 0x04 0x05
            (Some []) seq = (Ok buf, seq')
          /\ blen buf = 13
          /\ load8 buf 0 = 0x55
          /\ parseMessage buf = Some f
          /\ Frame.length f = 13).
Proof.
  split.
  - intros target flags cmdSet cmdId seq payload Ht Hs Hp.
    pose proof (blen_nonneg payload) as Hn.
    eexists _, _. split; [apply buildMessage_eq; lia|].
    split; [apply built_blen|]. split; [reflexivity|].
    rewrite built_lengthField. apply Z.mod_small. lia.
  - intros seq Hs.
    eexists _, _, _. split; [apply buildMessage_eq; lia|].
    split; [reflexivity|]. split; [reflexivity|].
    split; [apply built_parse|]. reflexivity.
Qed.

End BuildMessage.

(** ** Scanning for the magic byte *)

Lemma indexOf_bounds (b : Buffer) (v : Z) : -1 <= indexOf b v < blen b \/
  (indexOf b v = -1 /\ b = []).
Proof.
  induction b as [|x r IH]; [right; split; reflexivity|]. left.
  cbn [indexOf]. rewrite blen_cons. pose proof (blen_nonneg r).
  destruct (Z.eqb_spec x v); [lia|].
  destruct (Z.ltb_spec (indexOf r v) 0); [lia|].
  destruct IH as [IH|[IH _]]; lia.
Qed.

Lemma indexOf_range (b : Buffer) (v : Z) :
  indexOf b v = -1 \/ 0 <= indexOf b v < blen b.
Proof.
  destruct (indexOf_bounds b v) as [H|[H _]]; lia.
Qed.

(** A non-negative result splits the buffer at the first occurrence. *)
Lemma indexOf_split (b : Buffer) (v : Z) :
  0 <= indexOf b v ->
  exists pre rest,
    b = pre ++ v :: rest /\ Forall (fun x => x <> v) pre
    /\ indexOf b v = blen pre.
Proof.
  induction b as [|x r IH]; cbn [indexOf]; [lia|].
  destruct (Z.eqb_spec x v) as [->|Hne].
  - intros _. exists [], r. repeat split. constructor.
  - destruct (Z.ltb_spec (indexOf r v) 0) as [Hlt|Hge]; [lia|]. intros _.
    destruct (IH Hge) as (pre & rest & -> & Hpre & Hi).
    exists (x :: pre), rest. repeat split.
    + constructor; assumption.
    + rewrite blen_cons. lia.
Qed.

Lemma indexOf_app (pre rest : Buffer) (v : Z) :
  Forall (fun x => x <> v) pre -> indexOf (pre ++ v :: rest) v = blen pre.
Proof.
  induction 1 as [|x pre Hx Hpre IH]; cbn [app indexOf].
  - rewrite Z.eqb_refl. reflexivity.
  - destruct (Z.eqb_spec x v); [contradiction|]. rewrite IH, blen_cons.
    pose proof (blen_nonneg pre). destruct (Z.ltb_spec (blen pre) 0); lia.
Qed.

Lemma indexOf_absent (b : Buffer) (v : Z) :
  indexOf b v = -1 -> Forall (fun x => x <> v) b.
Proof.
  induction b as [|x r IH]; cbn [indexOf]; [constructor|].
  destruct (Z.eqb_spec x v); [lia|].
  destruct (Z.ltb_spec (indexOf r v) 0) as [Hlt|Hge].
  - intros _. constructor; [assumption|]. apply IH.
    destruct (indexOf_range r v); lia.
  - lia.
Qed.

(** ** One pass of the framer's loop *)

(** After the bytes before the first magic byte are dropped, the body goes
    on with the buffer that starts at the magic byte. *)
Lemma parseStream_body_resync (pre b1 : Buffer) (messages : list Frame.t) :
  noMagic pre -> load8 b1 0 = 0x55 -> b1 <> [] ->
  parseStream_body (pre ++ b1) messages =
    if blen b1 <? 4 then Break b1 messages
    else
      let msgLen := lengthField b1 in
      if (msgLen <? 13) || (1024 <? msgLen)
      then Continue (sliceFrom b1 1) messages
      else if blen b1 <? msgLen then Break b1 messages
      else
        match parseMessage (slice b1 0 msgLen) with
        | Some msg => Continue (sliceFrom b1 msgLen) (messages ++ [msg])
        | None => Continue (sliceFrom b1 msgLen) messages
        end.
Proof.
  intros Hpre Hm Hne. destruct b1 as [|x r]; [contradiction|].
  rewrite load8_cons_0 in Hm. subst x.
  unfold parseStream_body. rewrite indexOf_app by assumption.
  pose proof (blen_nonneg pre) as Hn.
  destruct (Z.eqb_spec (blen pre) (-1)); [lia|].
  assert (Hb : (if 0 <? blen pre then sliceFrom (pre ++ 85 :: r) (blen pre)
                else pre ++ 85 :: r) = 85 :: r).
  { destruct (Z.ltb_spec 0 (blen pre)) as [Hp|Hp].
    - apply sliceFrom_app.
    - destruct pre; [reflexivity|]. rewrite blen_cons in Hp.
      pose proof (blen_nonneg pre). lia. }
  rewrite Hb. reflexivity.
Qed.

Lemma lengthField_app_l (l1 l2 : Buffer) :
  3 <= blen l1 -> lengthField (l1 ++ l2) = lengthField l1.
Proof.
  intros H. unfold lengthField. rewrite !load8_app_l by lia. reflexivity.
Qed.

Lemma take_drop_blen (b : Buffer) (n : Z) :
  0 <= n <= blen b -> blen (take (Z.to_nat n) b) = n.
Proof.
  intros H. unfold blen in *. rewrite length_take. lia.
Qed.

(** A slice cut at an in-bounds length field that is at least 13 always
    decodes, to a frame whose raw bytes are the slice. *)
Lemma parseMessage_slice (b1 : Buffer) :
  load8 b1 0 = 0x55 -> 13 <= lengthField b1 <= 1024 ->
  lengthField b1 <= blen b1 ->
  exists f,
    parseMessage (slice b1 0 (lengthField b1)) = Some f
    /\ surfaced_ok f
    /\ b1 = Frame.raw f ++ sliceFrom b1 (lengthField b1).
Proof.
  intros Hm HL Hle. set (L := lengthField b1) in *.
  set (d := take (Z.to_nat L) b1). set (r := drop (Z.to_nat L) b1).
  assert (Hsplit : b1 = d ++ r) by (symmetry; apply take_drop).
  assert (Hd : blen d = L) by (apply take_drop_blen; lia).
  assert (Hslice : slice b1 0 L = d).
  { replace (slice b1 0 L) with (slice (d ++ r) 0 (blen d))
      by (rewrite <- Hsplit, Hd; reflexivity).
    apply slice_app_prefix. }
  assert (Hrest : sliceFrom b1 L = r).
  { replace (sliceFrom b1 L) with (sliceFrom (d ++ r) (blen d))
      by (rewrite <- Hsplit, Hd; reflexivity).
    apply sliceFrom_app. }
  assert (HdL : lengthField d = L).
  { rewrite <- (lengthField_app_l d r) by lia. rewrite <- Hsplit.
    reflexivity. }
  assert (Hd0 : load8 d 0 = 0x55).
  { rewrite <- (load8_app_l d r) by lia. rewrite <- Hsplit. exact Hm. }
  assert (Hparse : parseMessage d = Some {|
      Frame.length := L;
      Frame.sender := load8 d 4;
      Frame.receiver := load8 d 5;
      Frame.msgId := readUInt16BE d 6;
      Frame.flags := load8 d 8;
      Frame.cmdSet := load8 d 9;
      Frame.cmdId := load8 d 10;
      Frame.payload := slice d 11 (L - 2);
      Frame.raw := d |}).
  { assert (Hall : slice d 0 L = d) by (rewrite <- Hd; apply slice_all).
    unfold parseMessage. rewrite Hd0, HdL, Hd, Hall.
    destruct (Z.ltb_spec L 13); [lia|]. destruct (Z.ltb_spec L L); [lia|].
    reflexivity. }
  eexists. rewrite Hslice. split; [exact Hparse|]. split.
  - unfold surfaced_ok. cbn [Frame.raw Frame.length].
    repeat split; try assumption; lia.
  - cbn [Frame.raw]. rewrite Hrest. exact Hsplit.
Qed.

Lemma parseStream_body_spec (b : Buffer) (messages : list Frame.t) :
  body_spec b messages (parseStream_body b messages).
Proof.
  destruct (indexOf_range b 0x55) as [Hno|Hi].
  - unfold parseStream_body. rewrite Hno. cbn [Z.eqb Pos.eqb].
    apply body_no_magic. apply indexOf_absent. exact Hno.
  - destruct (indexOf_split b 0x55 ltac:(lia)) as (pre & r & -> & Hpre & _).
    rewrite parseStream_body_resync by (try assumption; easy).
    pose proof (blen_nonneg r) as Hr.
    destruct (Z.ltb_spec (blen (85 :: r)) 4) as [Hshort|Hlong].
    { eapply body_short_header; eauto. rewrite blen_cons in *. lia. }
    cbv zeta.
    destruct (Z.ltb_spec (lengthField (85 :: r)) 13) as [Hlo|Hlo].
    { cbn [orb]. change (sliceFrom (85 :: r) 1) with (sliceFrom ([85] ++ r) (blen [85])).
      rewrite sliceFrom_app. eapply body_spurious; eauto. }
    destruct (Z.ltb_spec 1024 (lengthField (85 :: r))) as [Hhi|Hhi].
    { cbn [orb]. change (sliceFrom (85 :: r) 1) with (sliceFrom ([85] ++ r) (blen [85])).
      rewrite sliceFrom_app. eapply body_spurious; eauto. }
    cbn [orb].
    destruct (Z.ltb_spec (blen (85 :: r)) (lengthField (85 :: r))) as [Hp|Hp].
    { eapply body_partial; eauto; try reflexivity; lia. }
    destruct (parseMessage_slice (85 :: r)) as (f & Hf & Hok & Hsplit);
      [reflexivity|lia|lia|].
    rewrite Hf. eapply body_frame; eauto. rewrite <- Hsplit. reflexivity.
Qed.

(** ** The framer's loop *)

Lemma framed_gap (gap b remaining : Buffer) (messages : list Frame.t) :
  framed b messages remaining -> framed (gap ++ b) messages remaining.
Proof.
  intros H. destruct H as [g rem|g b rem f ms H].
  - rewrite app_assoc. constructor.
  - rewrite app_assoc. constructor. exact H.
Qed.

Lemma body_spec_continue (b b' : Buffer) (messages messages' : list Frame.t) :
  body_spec b messages (Continue b' messages') ->
  (exists pre, noMagic pre /\ b = pre ++ 0x55 :: b' /\ messages' = messages)
  \/ (exists pre f, noMagic pre /\ b = pre ++ Frame.raw f ++ b'
                    /\ surfaced_ok f /\ messages' = messages ++ [f]).
Proof.
  intros H. inversion H; subst.
  - left. eauto.
  - right. eauto 10.
Qed.

Lemma body_spec_break (b b' : Buffer) (messages messages' : list Frame.t) :
  body_spec b messages (Break b' messages') ->
  messages' = messages /\ exists gap, b = gap ++ b'.
Proof.
  intros H. inversion H; subst; split; try reflexivity.
  - exists b. symmetry. apply app_nil_r.
  - eauto.
  - eauto.
Qed.

Lemma continue_shrinks (b b' : Buffer) (messages messages' : list Frame.t) :
  parseStream_body b messages = Continue b' messages' ->
  (length b' < length b)%nat.
Proof.
  intros E. pose proof (parseStream_body_spec b messages) as H.
  rewrite E in H. apply body_spec_continue in H.
  destruct H as [(pre & _ & -> & _)|(pre & f & _ & -> & Hok & _)].
  - rewrite length_app. cbn [length]. lia.
  - destruct Hok as (_ & HL & _ & Hlen & _). unfold blen in Hlen.
    rewrite !length_app. lia.
Qed.

(** With one unit of fuel per byte the loop always returns; what it returns
    extends the messages it was given by frames read in order. *)
Lemma parseStream_loop_spec (fuel : nat) :
  forall (b : Buffer) (messages : list Frame.t),
    (length b <= fuel)%nat ->
    exists new remaining,
      parseStream_loop fuel b messages = Some (messages ++ new, remaining)
      /\ framed b new remaining
      /\ Forall surfaced_ok new.
Proof.
  induction fuel as [|fuel IH]; intros b messages Hfuel.
  - destruct b; [|cbn [length] in Hfuel; lia].
    exists [], []. split; [rewrite app_nil_r; reflexivity|].
    split; [apply (framed_done [] [])|constructor].
  - cbn [parseStream_loop].
    destruct (Z.leb_spec 13 (blen b)) as [Hlen|Hlen].
    + pose proof (parseStream_body_spec b messages) as Hspec.
      destruct (parseStream_body b messages) as [b' ms'|b' ms'] eqn:E.
      * pose proof (continue_shrinks _ _ _ _ E) as Hlt.
        destruct (IH b' ms' ltac:(lia)) as (new & rem & Hloop & Hfr & Hok).
        apply body_spec_continue in Hspec.
        destruct Hspec as [(pre & _ & -> & ->)|(pre & f & _ & -> & Hf & ->)].
        -- exists new, rem. split; [exact Hloop|]. split; [|exact Hok].
           change (pre ++ 85 :: b') with (pre ++ [85] ++ b').
           rewrite app_assoc. apply framed_gap. exact Hfr.
        -- exists (f :: new), rem. split.
           ++ rewrite Hloop, <- app_assoc. reflexivity.
           ++ split; [constructor; exact Hfr|constructor; assumption].
      * apply body_spec_break in Hspec. destruct Hspec as (-> & gap & ->).
        exists [], b'. split; [rewrite app_nil_r; reflexivity|].
        split; [constructor|constructor].
    + exists [], b. split; [rewrite app_nil_r; reflexivity|].
      split; [apply (framed_done [] b)|constructor].
Qed.

(** The body only ever appends to the messages it is given. *)
Lemma parseStream_body_messages (b : Buffer) (messages : list Frame.t) :
  parseStream_body b messages =
  match parseStream_body b [] with
  | Continue b' new => Continue b' (messages ++ new)
  | Break b' new => Break b' (messages ++ new)
  end.
Proof.
  unfold parseStream_body.
  repeat match goal with
         | |- context [if ?c then _ else _] =>
             lazymatch c with
             | context [if _ then _ else _] => fail
             | _ => destruct c eqn:?
             end
         | |- context [match parseMessage ?d with _ => _ end] =>
             destruct (parseMessage d)
         end;
    rewrite ?app_nil_r; reflexivity.
Qed.

Lemma parseStream_loop_determined (fuel1 : nat) :
  forall (fuel2 : nat) (b : Buffer) (ms1 ms2 : list Frame.t),
    (length b <= fuel1)%nat -> (length b <= fuel2)%nat ->
    exists new remaining,
      parseStream_loop fuel1 b ms1 = Some (ms1 ++ new, remaining)
      /\ parseStream_loop fuel2 b ms2 = Some (ms2 ++ new, remaining).
Proof.
  induction fuel1 as [|fuel1 IH]; intros fuel2 b ms1 ms2 H1 H2.
  - destruct b; [|cbn [length] in H1; lia].
    exists [], []. rewrite !app_nil_r.
    split; [reflexivity|destruct fuel2; reflexivity].
  - destruct (Z.leb_spec 13 (blen b)) as [Hlen|Hlen].
    + destruct fuel2 as [|fuel2]; [unfold blen in Hlen; lia|].
      cbn [parseStream_loop].
      destruct (Z.leb_spec 13 (blen b)); [|lia].
      rewrite (parseStream_body_messages b ms1),
              (parseStream_body_messages b ms2).
      destruct (parseStream_body b []) as [b' d|b' d] eqn:E.
      * pose proof (continue_shrinks _ _ _ _ E) as Hlt.
        destruct (IH fuel2 b' (ms1 ++ d) (ms2 ++ d) ltac:(lia) ltac:(lia))
          as (new & rem & E1 & E2).
        exists (d ++ new), rem. rewrite E1, E2, !app_assoc. split; reflexivity.
      * exists d, b'. split; reflexivity.
    + exists [], b. rewrite !app_nil_r.
      split.
      * cbn [parseStream_loop]. destruct (Z.leb_spec 13 (blen b)); [lia|].
        reflexivity.
      * destruct fuel2; cbn [parseStream_loop];
          destruct (Z.leb_spec 13 (blen b)); try lia; reflexivity.
Qed.

(** Any amount of fuel from the byte count on gives the result of
    [parseStream], after the messages already collected. *)
Lemma parseStream_loop_fuel (fuel : nat) (b : Buffer)
    (messages : list Frame.t) :
  (length b <= fuel)%nat ->
  parseStream_loop fuel b messages
  = Some (messages ++ fst (parseStream b), snd (parseStream b)).
Proof.
  intros Hfuel.
  destruct (parseStream_loop_determined fuel (length b) b messages []
              Hfuel (Nat.le_refl _)) as (new & rem & E1 & E2).
  unfold parseStream. rewrite E1, E2. reflexivity.
Qed.

Lemma parseStream_eq (b : Buffer) (fuel : nat) (r : list Frame.t * Buffer) :
  (length b <= fuel)%nat ->
  parseStream_loop fuel b [] = Some r -> parseStream b = r.
Proof.
  intros Hfuel E. rewrite parseStream_loop_fuel in E by exact Hfuel.
  cbn [app] in E. injection E as <-. destruct (parseStream b); reflexivity.
Qed.

(** C10: Framer termination.  A pass through the loop body that goes
    back to the loop test leaves a strictly shorter buffer: shorter by
    the bytes before the magic byte plus one byte (length field out of
    bounds), or by those bytes plus a whole frame of at least 13 bytes;
    every other pass leaves the loop.  Hence the loop returns on every
    buffer once it is given one unit of fuel per byte, and what it returns
    is the result of parseStream. *)
Theorem parseStream_terminates (b : Buffer) (fuel : nat)
    (messages : list Frame.t) :
  (length b <= fuel)%nat ->
  parseStream_loop fuel b messages
    = Some (messages ++ fst (parseStream b), snd (parseStream b))
  /\ forall b' messages',
       parseStream_body b messages = Continue b' messages' ->
       (length b' < length b)%nat
       /\ ((exists pre, noMagic pre /\ b = pre ++ 0x55 :: b'
                        /\ (lengthField (0x55 :: b') < 13
                            \/ 1024 < lengthField (0x55 :: b')))
           \/ (exists pre raw, noMagic pre /\ b = pre ++ raw ++ b'
                               /\ 13 <= blen raw)).
Proof.
  intros Hfuel. split; [apply parseStream_loop_fuel; exact Hfuel|].
  intros b' messages' E. split; [eapply continue_shrinks; exact E|].
  pose proof (parseStream_body_spec b messages) as H. rewrite E in H.
  inversion H; subst.
  - left. eauto.
  - right. exists pre, (Frame.raw f). repeat split; try assumption.
    match goal with Hok : surfaced_ok f |- _ =>
      destruct Hok as (_ & HL & _ & Hlen & _) end. lia.
Qed.

(** C8: Framer output validity.  Every frame parseStream returns has raw
    byte 0 equal to 0x55 and a length field between 13 and 1024 (which is
    also the byte count of its raw slice), and the returned frames lie in
    the input in the order of the list: the input is discarded bytes, the
    raw bytes of the first frame, discarded bytes, the raw bytes of the
    second frame, and so on, ending with the remainder. *)
Theorem parseStream_output_valid (b : Buffer) :
  Forall (fun f => load8 (Frame.raw f) 0 = 0x55
                   /\ 13 <= Frame.length f <= 1024
                   /\ lengthField (Frame.raw f) = Frame.length f
                   /\ blen (Frame.raw f) = Frame.length f)
         (fst (parseStream b))
  /\ framed b (fst (parseStream b)) (snd (parseStream b)).
Proof.
  destruct (parseStream_loop_spec (length b) b [] (Nat.le_refl _))
    as (new & rem & E & Hfr & Hok).
  rewrite (parseStream_eq b (length b) _ (Nat.le_refl _) E). cbn [app fst snd].
  split; [|exact Hfr].
  revert Hok. apply Forall_impl.
  intros f (H0 & HL & HF & HB & _). auto.
Qed.

(** ** Whole frames in the stream *)

Lemma wellFramed_parse (d : Buffer) :
  wellFramed d ->
  exists f, parseMessage d = Some f /\ Frame.raw f = d /\ surfaced_ok f.
Proof.
  intros (Hm & HL & Hlen).
  destruct (parseMessage_slice d Hm ltac:(lia) ltac:(lia))
    as (f & Hf & Hok & Hsplit).
  rewrite HL, slice_all in Hf.
  assert (Hnil : sliceFrom d (lengthField d) = []).
  { rewrite HL. rewrite <- (app_nil_r d) at 1. apply sliceFrom_app. }
  rewrite Hnil, app_nil_r in Hsplit.
  exists f. split; [exact Hf|]. split; [congruence|exact Hok].
Qed.

(** A well-framed frame after bytes that hold no magic byte is read as
    one message, and nothing is left over. *)
Lemma parseStream_single (pre d : Buffer) :
  noMagic pre -> wellFramed d ->
  exists f,
    parseMessage d = Some f /\ Frame.raw f = d
    /\ parseStream (pre ++ d) = ([f], []).
Proof.
  intros Hpre Hw. destruct (wellFramed_parse d Hw) as (f & Hf & Hraw & _).
  destruct Hw as (Hm & HL & Hlen).
  exists f. split; [exact Hf|]. split; [exact Hraw|].
  assert (Hne : d <> []) by (intros ->; unfold blen in Hlen; cbn [length] in Hlen; lia).
  assert (Hbody : parseStream_body (pre ++ d) [] = Continue [] [f]).
  { rewrite parseStream_body_resync by assumption.
    destruct (Z.ltb_spec (blen d) 4); [lia|]. cbv zeta. rewrite HL.
    destruct (Z.ltb_spec (blen d) 13); [lia|].
    destruct (Z.ltb_spec 1024 (blen d)); [lia|]. cbn [orb].
    destruct (Z.ltb_spec (blen d) (blen d)); [lia|].
    rewrite slice_all, Hf.
    rewrite <- (app_nil_r d) at 1. rewrite sliceFrom_app. reflexivity. }
  apply (parseStream_eq _ (length (pre ++ d))); [lia|].
  assert (Hlong : 13 <= blen (pre ++ d)).
  { rewrite blen_app. pose proof (blen_nonneg pre). lia. }
  destruct (length (pre ++ d)) as [|n] eqn:En; [unfold blen in Hlong; lia|].
  cbn [parseStream_loop]. destruct (Z.leb_spec 13 (blen (pre ++ d))); [|lia].
  rewrite Hbody. destruct n; reflexivity.
Qed.

(** Fewer than 13 bytes are handed back untouched. *)
Lemma parseStream_short (b : Buffer) :
  blen b < 13 -> parseStream b = ([], b).
Proof.
  intros Hshort. apply (parseStream_eq _ (length b)); [lia|].
  destruct (length b); cbn [parseStream_loop];
    destruct (Z.leb_spec 13 (blen b)); try lia; reflexivity.
Qed.

Section Framing.

Variable crc8Calc : Buffer -> Z.
Variable crc16Calc : Buffer -> Z.


(** C5: Partial delivery.  For a valid frame of 20 bytes, parseStream on
    its first 5 bytes returns no message and those 5 bytes as remainder;
    parseStream on that remainder followed by the other 15 bytes returns
    exactly one message and an empty remainder; that message is the
    frame decoded, what parseMessage returns for its 20 bytes, and its raw
    bytes are the frame. *)
Theorem partial_delivery (d : Buffer) :
  valid_frame crc8Calc crc16Calc d -> blen d = 20 ->
  parseStream (take 5 d) = ([], take 5 d)
  /\ exists f,
       parseStream (snd (parseStream (take 5 d)) ++ drop 5 d) = ([f], [])
       /\ parseMessage d = Some f
       /\ Frame.raw f = d.
Proof.
  intros [Hw _] Hlen.
  assert (H5 : parseStream (take 5 d) = ([], take 5 d)).
  { apply parseStream_short. unfold blen. rewrite length_take. lia. }
  split; [exact H5|]. rewrite H5. cbn [snd]. rewrite take_drop.
  destruct (parseStream_single [] d ltac:(constructor) Hw)
    as (f & Hf & Hraw & Hs).
  exists f. split; [exact Hs|]. split; [exact Hf|exact Hraw].
Qed.

(** The same delivery through the transport's receive buffer: the first
    chunk is kept, the second completes the frame, which is emitted. *)
Lemma processIncoming_partial (d : Buffer) :
  valid_frame crc8Calc crc16Calc d -> blen d = 20 ->
  processIncoming [] (take 5 d) = (take 5 d, [])
  /\ exists f,
       processIncoming (take 5 d) (drop 5 d) = ([], [f])
       /\ Frame.raw f = d.
Proof.
  intros [Hw _] Hlen. unfold processIncoming. split.
  - cbn [app]. rewrite parseStream_short; [reflexivity|].
    unfold blen. rewrite length_take. lia.
  - rewrite take_drop.
    destruct (parseStream_single [] d ltac:(constructor) Hw)
      as (f & _ & Hraw & Hs).
    cbn [app] in Hs. rewrite Hs. exists f. split; [reflexivity|exact Hraw].
Qed.

(** C6: Resynchronization.  For a valid frame, parseStream on the bytes
    0xAA, 0xBB followed by the frame returns exactly one message whose raw
    bytes are the frame, and an empty remainder. *)
Theorem resynchronization (d : Buffer) :
  valid_frame crc8Calc crc16Calc d ->
  exists f,
    parseStream ([0xAA; 0xBB] ++ d) = ([f], [])
    /\ Frame.raw f = d
    /\ parseMessage d = Some f.
Proof.
  intros [Hw _].
  assert (Hpre : noMagic [0xAA; 0xBB]) by (repeat constructor; lia).
  destruct (parseStream_single _ d Hpre Hw) as (f & Hf & Hraw & Hs).
  exists f. repeat split; assumption.
Qed.

End Framing.

(** ** Decoding ignores the checksums *)

Lemma blen_store8 (b : Buffer) (j v : Z) : blen (store8 b j v) = blen b.
Proof.
  unfold store8, blen. destruct (j <? 0); [reflexivity|].
  rewrite length_insert. reflexivity.
Qed.

Lemma load8_store8_ne (b : Buffer) (i j v : Z) :
  i <> j -> load8 (store8 b j v) i = load8 b i.
Proof.
  intros Hne. unfold load8, store8.
  destruct (Z.ltb_spec i 0); [reflexivity|].
  destruct (Z.ltb_spec j 0); [reflexivity|].
  rewrite list_lookup_insert_ne by lia. reflexivity.
Qed.

Lemma slice_store8_outside (b : Buffer) (j v s e : Z) :
  0 <= s <= e -> e <= blen b -> j < s \/ e <= j ->
  slice (store8 b j v) s e = slice b s e.
Proof.
  intros Hs He Hj.
  rewrite !slice_take_drop by (rewrite ?blen_store8; lia).
  unfold store8. destruct (Z.ltb_spec j 0); [reflexivity|].
  destruct Hj as [Hj|Hj].
  - rewrite drop_insert_lt by lia. reflexivity.
  - rewrite drop_insert_ge by lia. rewrite take_insert_ge by lia.
    reflexivity.
Qed.

Lemma parseMessage_fields (d : Buffer) :
  load8 d 0 = 0x55 -> 13 <= blen d -> lengthField d <= blen d ->
  parseMessage d = Some {|
    Frame.length := lengthField d;
    Frame.sender := load8 d 4;
    Frame.receiver := load8 d 5;
    Frame.msgId := readUInt16BE d 6;
    Frame.flags := load8 d 8;
    Frame.cmdSet := load8 d 9;
    Frame.cmdId := load8 d 10;
    Frame.payload := slice d 11 (lengthField d - 2);
    Frame.raw := slice d 0 (lengthField d)
  |}.
Proof.
  intros Hm Hlen HL. unfold parseMessage. rewrite Hm.
  destruct (Z.ltb_spec (blen d) 13); [lia|].
  destruct (Z.ltb_spec (blen d) (lengthField d)); [lia|]. reflexivity.
Qed.

(** C7 (amended): Permissive decode.  For every input that starts with
    0x55 and whose length field is at least 13 and at most the available
    byte count, parseMessage returns a frame whatever the header checksum
    byte and the two trailing checksum bytes are, and the length, sender,
    receiver, message id, flags, command set, command id and payload it
    returns do not depend on those three bytes. *)
Theorem permissive_decode (d : Buffer) (h t0 t1 : Z) :
  load8 d 0 = 0x55 -> 13 <= lengthField d <= blen d ->
  exists f f',
    parseMessage d = Some f
    /\ parseMessage (withChecksums d h t0 t1) = Some f'
    /\ Frame.length f' = Frame.length f
    /\ Frame.sender f' = Frame.sender f
    /\ Frame.receiver f' = Frame.receiver f
    /\ Frame.msgId f' = Frame.msgId f
    /\ Frame.flags f' = Frame.flags f
    /\ Frame.cmdSet f' = Frame.cmdSet f
    /\ Frame.cmdId f' = Frame.cmdId f
    /\ Frame.payload f' = Frame.payload f.
Proof.
  intros Hm HL. set (d' := withChecksums d h t0 t1).
  assert (Hload : forall i, 0 <= i < 11 -> i <> 3 -> load8 d' i = load8 d i).
  { intros i Hi H3. unfold d', withChecksums.
    rewrite !load8_store8_ne by lia. reflexivity. }
  assert (Hlen : blen d' = blen d).
  { unfold d', withChecksums. rewrite !blen_store8. reflexivity. }
  assert (HL' : lengthField d' = lengthField d).
  { unfold lengthField. rewrite !Hload by lia. reflexivity. }
  assert (Hpay : slice d' 11 (lengthField d - 2)
                 = slice d 11 (lengthField d - 2)).
  { unfold d', withChecksums.
    rewrite !slice_store8_outside by (rewrite ?blen_store8; lia).
    reflexivity. }
  eexists _, _. split; [apply parseMessage_fields; lia|].
  split; [apply parseMessage_fields; rewrite ?Hload, ?Hlen, ?HL'; lia|].
  cbn [Frame.length Frame.sender Frame.receiver Frame.msgId Frame.flags
       Frame.cmdSet Frame.cmdId Frame.payload].
  unfold readUInt16BE. rewrite HL', Hpay, !Hload by lia.
  repeat split; reflexivity.
Qed.

(** C7, as stated, fails in two ways: the raw field of the returned frame
    holds the checksum bytes (first input, a 13-byte frame whose header
    checksum byte is changed), and with a length field below 13 the
    trailing checksum bytes are header bytes (second input, length field 12,
    where offset 10 is both the first trailing checksum byte and the
    command id). *)
Lemma permissive_decode_counterexample :
  (let d := [0x55; 13; 4; 0x33; 2; 4; 1; 0; 0x40; 4; 5; 0x0A; 0xDE] in
   13 <= blen d /\ load8 d 0 = 0x55 /\ lengthField d <= blen d
   /\ Frame.raw <$> parseMessage (withChecksums d 0 0x0A 0xDE)
      <> Frame.raw <$> parseMessage d)
  /\ (let e := [0x55; 12; 4; 0x33; 2; 4; 1; 0; 0x40; 4; 5; 0x0A; 0xDE] in
      13 <= blen e /\ load8 e 0 = 0x55 /\ lengthField e <= blen e
      /\ Frame.cmdId <$> parseMessage (withChecksums e 0x33 0x99 0x0A)
         <> Frame.cmdId <$> parseMessage e).
Proof.
  split; cbv zeta; (split; [vm_compute; discriminate|]);
    (split; [reflexivity|]); (split; [vm_compute; discriminate|]);
    vm_compute; discriminate.
Qed.

(** ** The checksums of the repository *)

Lemma computeCrc16_range (d : Buffer) : 0 <= computeCrc16 d <= 0xFFFF.
Proof.
  unfold computeCrc16, Crc.compute.
  change (Crc.mask (Crc.width CRC_PARAMS_CRC16)) with (Z.ones 16).
  rewrite Z.land_ones by lia.
  match goal with |- context [?x mod 2 ^ 16] =>
    pose proof (Z.mod_pos_bound x (2 ^ 16) ltac:(lia)) as H end.
  change (2 ^ 16) with 65536 in *. lia.
Qed.

(** ** The sequence counter *)

Section Sequence.

Variable crc8Calc : Buffer -> Z.
Variable crc16Calc : Buffer -> Z.
Hypothesis crc16_range : forall d, 0 <= crc16Calc d <= 0xFFFF.

Variables (target flags cmdSet cmdId : Z) (payload : option Buffer).
Hypothesis target_ok : 0 <= target <= 0xFFFF.

Let build : M Buffer :=
  buildMessage crc8Calc crc16Calc target flags cmdSet cmdId payload.

Lemma build_in_range (seq : Z) :
  0 <= seq <= 0xFFFF ->
  exists buf, build seq = (Ok buf, seq + 1) /\ carriedId buf = seq.
Proof.
  intros Hs. unfold build. destruct payload as [p|].
  - eexists. split; [apply buildMessage_eq; assumption|].
    unfold carriedId, readUInt16BE. cbn [frameHeader app].
    change (load8 (?a :: ?b :: ?c :: ?d :: ?e :: ?f :: ?g :: ?l) 6) with g.
    change (load8 (?a :: ?b :: ?c :: ?d :: ?e :: ?f :: ?g :: ?h :: ?l) (6 + 1))
      with h.
    apply uint16_bytes. exact Hs.
  - rewrite buildMessage_None.
    eexists. split; [apply buildMessage_eq; assumption|].
    unfold carriedId, readUInt16BE. cbn [frameHeader app].
    change (load8 (?a :: ?b :: ?c :: ?d :: ?e :: ?f :: ?g :: ?l) 6) with g.
    change (load8 (?a :: ?b :: ?c :: ?d :: ?e :: ?f :: ?g :: ?h :: ?l) (6 + 1))
      with h.
    apply uint16_bytes. exact Hs.
Qed.

(** While the counter stays within 16 bits, consecutive calls carry
    consecutive ids, starting with the value the counter holds. *)
Lemma buildMessages_ids (n : nat) :
  forall start : Z,
    0 <= start -> start + Z.of_nat n <= 0x10000 ->
    exists bufs,
      buildMessages build n start = (Ok bufs, start + Z.of_nat n)
      /\ map carriedId bufs
         = map (fun k => start + Z.of_nat k) (List.seq 0 n).
Proof.
  induction n as [|n IH]; intros s Hs Hn.
  - exists []. split; [|reflexivity]. cbn. rewrite Z.add_0_r. reflexivity.
  - destruct (build_in_range s ltac:(lia)) as (buf & Hb & Hid).
    destruct (IH (s + 1) ltac:(lia) ltac:(lia)) as (bufs & Hbs & Hids).
    exists (buf :: bufs). split.
    + cbn [buildMessages]. unfold bind at 1. rewrite Hb.
      unfold bind at 1. rewrite Hbs. unfold ret. f_equal. lia.
    + cbn [map seq]. rewrite Hid, Z.add_0_r. f_equal.
      rewrite Hids, <- seq_shift, map_map. apply map_ext. intros k. lia.
Qed.

(** C2: Sequence monotonicity and wraparound, on the code.  After
    resetSequence(0x0100) three consecutive calls carry the ids 0x0100,
    0x0101 and 0x0102.  A call made while the counter holds 0xFFFF carries
    the id 0xFFFF and leaves the counter at 0x10000, not 0; the next call
    raises a RangeError instead of carrying the id 0x0000. *)
Theorem sequence_counter_overflow :
  (exists bufs s,
     (_ <- resetSequence (Some 0x0100) ;; buildMessages build 3) initialSeq
       = (Ok bufs, s)
     /\ map carriedId bufs = [0x0100; 0x0101; 0x0102])
  /\ (exists buf,
        build 0xFFFF = (Ok buf, 0x10000) /\ carriedId buf = 0xFFFF
        /\ build 0x10000 = (Throw RangeError, 0x10001)).
Proof.
  split.
  - destruct (buildMessages_ids 3 0x0100 ltac:(lia) ltac:(lia))
      as (bufs & Hb & Hids).
    exists bufs, (0x0100 + Z.of_nat 3). split; [|exact Hids].
    unfold bind, resetSequence. cbn [default]. exact Hb.
  - destruct (build_in_range 0xFFFF ltac:(lia)) as (buf & Hb & Hid).
    exists buf. split; [exact Hb|]. split; [exact Hid|].
    unfold build. apply buildMessage_seq_out_of_range; [assumption|lia].
Qed.

End Sequence.

(** ** The pairing wait *)

Definition quiet (evs : list effect) : Prop :=
  countSleeps 500 evs = O /\ forallb (fun e => negb (isPairedEvent e)) evs = true.

Lemma quiet_nil : quiet [].
Proof. split; reflexivity. Qed.

Lemma countSleeps_app (ms : Z) (l1 l2 : list effect) :
  countSleeps ms (l1 ++ l2) = (countSleeps ms l1 + countSleeps ms l2)%nat.
Proof.
  unfold countSleeps. rewrite List.filter_app, length_app. reflexivity.
Qed.

Lemma quiet_app (l1 l2 : list effect) : quiet l1 -> quiet l2 -> quiet (l1 ++ l2).
Proof.
  intros [S1 P1] [S2 P2]. split.
  - rewrite countSleeps_app, S1, S2. reflexivity.
  - rewrite forallb_app, P1, P2. reflexivity.
Qed.

(** Routing a message appends to the effects; unless it sets the paired
    flag, what it appends holds neither a sleep nor a ['paired'] event. *)
Lemma _handleMessage_effects (c : OsmoConnection) (msg : Frame.t) :
  exists evs,
    effects (_handleMessage c (Some msg)) = effects c ++ evs
    /\ (_paired (_handleMessage c (Some msg)) = false ->
        _paired c = false /\ quiet evs).
Proof.
  unfold _handleMessage.
  repeat match goal with
         | |- context [if ?b then _ else _] =>
             lazymatch b with
             | context [if _ then _ else _] => fail
             | _ => destruct b eqn:?
             end
         | |- context [let '(_, _) := ?p in _] => destruct p eqn:?
         end;
    cbn [emit set_paired set_battery set_gimbal effects _paired];
    first [ exists []; rewrite app_nil_r; split;
            [reflexivity | intros H; split; [exact H | apply quiet_nil]]
          | eexists [_]; split;
            [reflexivity
            | intros H; first [discriminate H
                              | split; [exact H | split; reflexivity]]] ].
Qed.

Lemma suspend_quiet (env : environment) (k : nat) :
  (forall m c', In m (arrivals env k) -> _paired c' = false ->
                _paired (_handleMessage c' (Some m)) = false) ->
  forall c, _paired c = false ->
    exists evs, effects (suspend env k c) = effects c ++ evs
                /\ _paired (suspend env k c) = false /\ quiet evs.
Proof.
  unfold suspend. induction (arrivals env k) as [|m ms IH]; intros Hno c Hc.
  - exists []. rewrite app_nil_r. repeat split; try assumption.
  - cbn [fold_left].
    assert (Hm : _paired (_handleMessage c (Some m)) = false)
      by (apply Hno; [left; reflexivity|exact Hc]).
    destruct (_handleMessage_effects c m) as (e1 & He1 & Hq1).
    destruct (Hq1 Hm) as [_ Hq].
    destruct (IH (fun m' c' Hin => Hno m' c' (or_intror Hin)) _ Hm)
      as (e2 & He2 & Hp2 & Hq2).
    exists (e1 ++ e2). rewrite He2, He1, app_assoc.
    repeat split; try assumption; apply quiet_app; assumption.
Qed.

Lemma pollPaired_timeout (env : environment) (remaining : nat) :
  forall (k : nat) (c : OsmoConnection),
    (forall j m c', (k <= j)%nat -> In m (arrivals env j) ->
                    _paired c' = false ->
                    _paired (_handleMessage c' (Some m)) = false) ->
    _paired c = false ->
    exists new,
      effects (pollPaired env remaining k c) = effects c ++ new
      /\ _paired (pollPaired env remaining k c) = false
      /\ countSleeps 500 new = remaining
      /\ forallb (fun e => negb (isPairedEvent e)) new = true.
Proof.
  induction remaining as [|r IH]; intros k c Hno Hc.
  - exists []. rewrite app_nil_r. repeat split; assumption.
  - cbn [pollPaired]. rewrite Hc.
    destruct (suspend_quiet env k (fun m c' => Hno k m c' (Nat.le_refl k))
                (perform (Sleep 500) c) Hc) as (e1 & He1 & Hp1 & Hs1 & Hq1).
    destruct (IH (S k) _ (fun j m c' Hj => Hno j m c' ltac:(lia)) Hp1)
      as (e2 & He2 & Hp2 & Hs2 & Hq2).
    exists ([Sleep 500] ++ e1 ++ e2). split; [|split; [exact Hp2|split]].
    + rewrite He2, He1. cbn [perform effects]. rewrite <- !app_assoc.
      reflexivity.
    + rewrite !countSleeps_app, Hs1, Hs2. reflexivity.
    + rewrite !forallb_app, Hq1, Hq2. reflexivity.
Qed.

(** C9: Handshake timeout is advisory.  When the credentials have been
    sent with the paired flag still false and no message routed during the
    polls sets the flag, the pairing routine sleeps 500 ms thirty times,
    emits pairingTimeout as its last effect and returns false, without
    raising; the flag is still false and no paired event has been emitted
    since the credentials were sent. *)
Theorem pairing_timeout_advisory (env : environment) (c c1 : OsmoConnection) :
  _pair_send env c = (Ok tt, c1) ->
  _paired c1 = false ->
  (forall k m c', (3 <= k)%nat -> In m (arrivals env k) ->
                  _paired c' = false ->
                  _paired (_handleMessage c' (Some m)) = false) ->
  exists c2 new,
    _pair env c = (Ok false, c2)
    /\ _paired c2 = false
    /\ effects c2 = effects c1 ++ new
    /\ countSleeps 500 new = 30%nat
    /\ list.last new = Some (Emit Ev_pairingTimeout)
    /\ forallb (fun e => negb (isPairedEvent e)) new = true.
Proof.
  intros Hsend Hc1 Hno.
  destruct (pollPaired_timeout env 30 3 c1 Hno Hc1)
    as (new & He & Hp & Hs & Hq).
  exists (emit Ev_pairingTimeout (pollPaired env 30 3 c1)),
         (new ++ [Emit Ev_pairingTimeout]).
  unfold _pair. rewrite Hsend. unfold _pair_wait. rewrite Hp.
  cbn [negb emit _paired effects]. rewrite Hp, He.
  split; [reflexivity|]. split; [reflexivity|].
  split; [rewrite app_assoc; reflexivity|].
  split; [rewrite countSleeps_app, Hs; reflexivity|].
  split; [apply last_snoc|].
  rewrite forallb_app, Hq. reflexivity.
Qed.

(** * Further properties of the code *)

(** ** Length-prefixed strings *)

Lemma toStringUtf8_bufferFromString (str : string) :
  toStringUtf8 (bufferFromString str) = str.
Proof.
  unfold toStringUtf8, bufferFromString. rewrite map_map.
  rewrite (map_ext _ (fun c => c)).
  - rewrite map_id. apply string_of_list_ascii_of_string.
  - intros c. rewrite N2Z.id. apply Ascii.ascii_N_embedding.
Qed.

Lemma length_toStringUtf8 (buf : Buffer) :
  String.length (toStringUtf8 buf) = length buf.
Proof.
  unfold toStringUtf8. induction buf as [|b buf IH]; [reflexivity|].
  cbn [map string_of_list_ascii String.length length]. rewrite IH.
  reflexivity.
Qed.

Lemma is_bytes_bufferFromString (str : string) :
  is_bytes (bufferFromString str).
Proof.
  unfold is_bytes, bufferFromString.
  induction (list_ascii_of_string str) as [|c l IH]; cbn [map];
    constructor; [|exact IH].
  unfold is_byte. pose proof (Ascii.N_ascii_bounded c). lia.
Qed.

(** [packString] in closed form: the length byte, then the bytes. *)
Lemma packString_eq (str : string) :
  packString str
  = blen (bufferFromString str) mod 256 :: bufferFromString str.
Proof.
  unfold packString. set (strBuf := bufferFromString str).
  unfold alloc, blen.
  replace (Z.to_nat (1 + Z.of_nat (length strBuf)))
    with (S (length strBuf)) by lia.
  cbn [replicate]. rewrite store8_cons_0.
  change (Z.of_nat (length strBuf) mod 256
          :: replicate (length strBuf) 0)
    with ([Z.of_nat (length strBuf) mod 256] ++ replicate (length strBuf) 0).
  rewrite <- (app_nil_r (replicate (length strBuf) 0)).
  change 1 with (blen [Z.of_nat (length strBuf) mod 256]).
  rewrite copy_fill. rewrite app_nil_r. reflexivity.
Qed.

Lemma slice_app_middle (l1 l2 l3 : Buffer) :
  slice (l1 ++ l2 ++ l3) (blen l1) (blen l1 + blen l2) = l2.
Proof.
  pose proof (blen_nonneg l1). pose proof (blen_nonneg l2).
  pose proof (blen_nonneg l3).
  apply slice_middle; rewrite !blen_app; unfold clampIndex.
  - destruct (Z.ltb_spec (blen l1) 0); lia.
  - destruct (Z.ltb_spec (blen l1 + blen l2) 0); lia.
Qed.

Lemma unpackString_embedded (pre post : Buffer) (str : string) :
  blen (bufferFromString str) <= 255 ->
  unpackString (pre ++ packString str ++ post) (length pre)
  = mkUnpacked str (1 + blen (bufferFromString str)).
Proof.
  intros Hlen. rewrite packString_eq. set (bytes := bufferFromString str) in *.
  pose proof (blen_nonneg bytes) as Hn. pose proof (blen_nonneg post) as Hp.
  rewrite Z.mod_small by lia. unfold unpackString.
  change (Z.of_nat (length pre)) with (blen pre).
  destruct (Z.leb_spec (blen (pre ++ (blen bytes :: bytes) ++ post))
                       (blen pre)) as [Hle|_].
  { rewrite !blen_app, blen_cons in Hle. lia. }
  assert (Hload : load8 (pre ++ (blen bytes :: bytes) ++ post) (blen pre)
                  = blen bytes).
  { rewrite <- (Z.add_0_r (blen pre)). rewrite load8_app_r by lia.
    reflexivity. }
  rewrite Hload. cbn [app].
  replace (pre ++ blen bytes :: bytes ++ post)
    with ((pre ++ [blen bytes]) ++ bytes ++ post)
    by (rewrite <- app_assoc; reflexivity).
  replace (blen pre + 1) with (blen (pre ++ [blen bytes]))
    by (rewrite blen_app; reflexivity).
  rewrite slice_app_middle. unfold bytes.
  rewrite toStringUtf8_bufferFromString. reflexivity.
Qed.

(** X1: a string of at most 255 bytes packed anywhere in a buffer is read
    back by [unpackString] at its offset, with [bytesRead] the distance to
    what follows. *)
Theorem unpackString_packString (pre post : Buffer) (str : string) :
  blen (bufferFromString str) <= 255 ->
  unpackString (pre ++ packString str ++ post) (length pre)
  = mkUnpacked str (1 + blen (bufferFromString str)).
Proof. apply unpackString_embedded. Qed.

Lemma length_bufferFromString (str : string) :
  length (bufferFromString str) = String.length str.
Proof.
  unfold bufferFromString. rewrite length_map.
  induction str as [|c str IH]; [reflexivity|].
  cbn [list_ascii_of_string length String.length]. rewrite IH. reflexivity.
Qed.

Lemma toStringUtf8_take (str : string) (n : nat) :
  toStringUtf8 (take n (bufferFromString str)) = substring 0 n str.
Proof.
  unfold toStringUtf8, bufferFromString. revert n.
  induction str as [|c str IH]; intros [|n]; try reflexivity.
  cbn [list_ascii_of_string map take string_of_list_ascii substring].
  rewrite IH, N2Z.id, Ascii.ascii_N_embedding. reflexivity.
Qed.

(** X2: [packString] keeps the byte length modulo 256 only.  Whatever the
    string, the packed form is the byte length modulo 256 followed by all
    the bytes, and [unpackString] reports 1 + (length mod 256) bytes read:
    for a string of 256 bytes or more that is less than what was packed,
    so a reader goes on inside the string.  For a string of bytes below
    0x80 the value read back is its first (length mod 256) characters; with
    256 bytes or more it is not the string. *)
Theorem packString_length_wraps (str : string) :
  let bytes := bufferFromString str in
  let kept := blen bytes mod 256 in
  packString str = kept :: bytes
  /\ bytesRead (unpackString (packString str) 0) = 1 + kept
  /\ (256 <= blen bytes ->
      bytesRead (unpackString (packString str) 0) < blen (packString str))
  /\ (isAscii bytes = true ->
      value (unpackString (packString str) 0)
      = substring 0 (Z.to_nat kept) str
      /\ (256 <= blen bytes ->
          value (unpackString (packString str) 0) <> str)).
Proof.
  intros bytes kept.
  assert (Hn : 0 <= blen bytes) by apply blen_nonneg.
  assert (Hk : 0 <= kept < 256) by (apply Z.mod_pos_bound; lia).
  assert (Hkn : kept <= blen bytes) by (apply Z.mod_le; lia).
  assert (E : unpackString (packString str) 0
              = mkUnpacked (toStringUtf8 (take (Z.to_nat kept) bytes))
                           (1 + kept)).
  { rewrite packString_eq. fold bytes. fold kept. unfold unpackString.
    rewrite blen_cons. change (Z.of_nat 0) with 0.
    destruct (Z.leb_spec (1 + blen bytes) 0); [lia|].
    rewrite load8_cons_0.
    rewrite slice_take_drop by (rewrite ?blen_cons; lia).
    replace (0 + 1 + kept - (0 + 1)) with kept by lia.
    reflexivity. }
  split; [apply packString_eq|]. rewrite E. cbn [bytesRead value].
  split; [reflexivity|].
  split; [intros Hbig; rewrite packString_eq, blen_cons; fold bytes; lia|].
  intros _. unfold bytes at 1. rewrite toStringUtf8_take.
  split; [reflexivity|].
  intros Hbig Heq. apply (f_equal String.length) in Heq.
  rewrite length_toStringUtf8, length_take in Heq.
  rewrite <- length_bufferFromString in Heq. fold bytes in Heq.
  unfold blen in *. lia.
Qed.

Lemma load8_is_byte (buf : Buffer) (i : Z) :
  is_bytes buf -> 0 <= load8 buf i < 256.
Proof.
  intros Hb. unfold load8. destruct (i <? 0); [lia|].
  destruct (buf !! Z.to_nat i) as [b|] eqn:E; cbn [default]; [|lia].
  unfold is_bytes in Hb. rewrite Forall_lookup in Hb. exact (Hb _ _ E).
Qed.

(** X3: [unpackString] at the bounds.  An offset at or past the end gives
    the empty string and 0 bytes read.  Inside the buffer, [bytesRead] is
    always one more than the length byte, whether or not that many bytes
    follow; when the bytes that follow are below 0x80 the value holds only
    those that are there, so that it is shorter than [bytesRead - 1] when
    the buffer ends early. *)
Theorem unpackString_bounds (buf : Buffer) (offset : nat) :
  is_bytes buf ->
  (blen buf <= Z.of_nat offset ->
   unpackString buf offset = mkUnpacked "" 0)
  /\ (Z.of_nat offset < blen buf ->
      bytesRead (unpackString buf offset) = 1 + load8 buf (Z.of_nat offset)
      /\ (isAscii (drop (S offset) buf) = true ->
          Z.of_nat (String.length (value (unpackString buf offset)))
          = Z.min (load8 buf (Z.of_nat offset))
                  (blen buf - Z.of_nat offset - 1))).
Proof.
  intros Hb. unfold unpackString. split.
  - intros Hle. destruct (Z.leb_spec (blen buf) (Z.of_nat offset)); [|lia].
    reflexivity.
  - intros Hlt. destruct (Z.leb_spec (blen buf) (Z.of_nat offset)); [lia|].
    cbn [bytesRead value]. split; [reflexivity|]. intros _.
    pose proof (load8_is_byte buf (Z.of_nat offset) Hb) as Hlen.
    set (len := load8 buf (Z.of_nat offset)) in *.
    rewrite length_toStringUtf8. unfold slice, clampIndex.
    destruct (Z.ltb_spec (Z.of_nat offset + 1) 0); [lia|].
    destruct (Z.ltb_spec (Z.of_nat offset + 1 + len) 0); [lia|].
    rewrite length_take, length_drop. unfold blen in *. lia.
Qed.

(** ** Streams of frames *)

(** One pass of the loop over noise, a whole frame and anything after it
    takes the frame and goes on with what follows. *)
Lemma parseStream_body_frame (g d rest : Buffer) (f : Frame.t)
    (messages : list Frame.t) :
  noMagic g -> wellFramed d -> parseMessage d = Some f ->
  parseStream_body (g ++ d ++ rest) messages
  = Continue rest (messages ++ [f]).
Proof.
  intros Hg (Hm & HL & Hlen) Hf. pose proof (blen_nonneg rest) as Hr.
  assert (Hne : d ++ rest <> []).
  { destruct d; [unfold blen in Hlen; cbn [length] in Hlen; lia|easy]. }
  rewrite parseStream_body_resync;
    [ | exact Hg | rewrite load8_app_l by lia; exact Hm | exact Hne ].
  rewrite blen_app. destruct (Z.ltb_spec (blen d + blen rest) 4); [lia|].
  cbv zeta. rewrite lengthField_app_l by lia. rewrite HL.
  destruct (Z.ltb_spec (blen d) 13); [lia|].
  destruct (Z.ltb_spec 1024 (blen d)); [lia|]. cbn [orb].
  destruct (Z.ltb_spec (blen d + blen rest) (blen d)); [lia|].
  rewrite slice_app_prefix, Hf, sliceFrom_app. reflexivity.
Qed.

(** On a stalled buffer the loop stops at once. *)
Lemma parseStream_loop_stalled (p : Buffer) (fuel : nat)
    (messages : list Frame.t) :
  stalled p -> (length p <= fuel)%nat ->
  parseStream_loop fuel p messages = Some (messages, p).
Proof.
  intros Hst Hfuel.
  destruct (Z.leb_spec 13 (blen p)) as [Hlong|Hshort].
  - destruct Hst as [Hlt|(Hm & HL & Hpart)]; [lia|].
    destruct fuel as [|fuel]; [unfold blen in Hlong; lia|].
    cbn [parseStream_loop]. destruct (Z.leb_spec 13 (blen p)); [|lia].
    assert (Hne : p <> [])
      by (intros ->; unfold blen in Hlong; cbn [length] in Hlong; lia).
    pose proof (parseStream_body_resync [] p messages
                  ltac:(constructor) Hm Hne) as Hbody.
    cbn [app] in Hbody. rewrite Hbody.
    destruct (Z.ltb_spec (blen p) 4); [lia|]. cbv zeta.
    destruct (Z.ltb_spec (lengthField p) 13); [lia|].
    destruct (Z.ltb_spec 1024 (lengthField p)); [lia|]. cbn [orb].
    destruct (Z.ltb_spec (blen p) (lengthField p)); [|lia]. reflexivity.
  - destruct fuel; cbn [parseStream_loop];
      destruct (Z.leb_spec 13 (blen p)); try lia; reflexivity.
Qed.

Lemma length_flattenStream_cons (g d : Buffer) (gds : list (Buffer * Buffer)) :
  flattenStream ((g, d) :: gds) = g ++ d ++ flattenStream gds.
Proof. unfold flattenStream. cbn [map concat fst snd]. rewrite <- app_assoc. reflexivity. Qed.

(** Noise-and-frame pairs followed by a stalled rest: the loop returns the
    frames in order and leaves the rest. *)
Lemma parseStream_loop_frames (gds : list (Buffer * Buffer)) :
  forall (p : Buffer) (fuel : nat) (messages : list Frame.t),
    Forall (fun gd => noMagic (fst gd) /\ wellFramed (snd gd)) gds ->
    stalled p ->
    (length (flattenStream gds ++ p) <= fuel)%nat ->
    parseStream_loop fuel (flattenStream gds ++ p) messages
    = Some (messages ++ decodeAll (map snd gds), p).
Proof.
  induction gds as [|[g d] gds IH]; intros p fuel messages Hall Hst Hfuel.
  - cbn [map decodeAll]. rewrite app_nil_r.
    apply parseStream_loop_stalled; assumption.
  - inversion Hall as [|gd gds' [Hg Hw] Hall']; subst. clear Hall.
    rename Hall' into Hall. cbn [fst snd] in Hg, Hw.
    destruct (wellFramed_parse d Hw) as (f & Hf & Hraw & _).
    rewrite length_flattenStream_cons in *. rewrite <- !app_assoc in *.
    assert (Hlong : 13 <= blen (g ++ d ++ flattenStream gds ++ p)).
    { rewrite !blen_app. destruct Hw as (_ & _ & Hlen).
      pose proof (blen_nonneg g). pose proof (blen_nonneg (flattenStream gds)).
      pose proof (blen_nonneg p). lia. }
    destruct fuel as [|fuel]; [unfold blen in Hlong; lia|].
    cbn [parseStream_loop].
    destruct (Z.leb_spec 13 (blen (g ++ d ++ flattenStream gds ++ p)));
      [|lia].
    rewrite (parseStream_body_frame g d _ f) by assumption.
    rewrite IH; [ | exact Hall | exact Hst | ].
    + cbn [map snd decodeAll]. rewrite Hf, <- app_assoc. reflexivity.
    + rewrite !length_app in Hfuel. destruct Hw as (_ & _ & Hlen).
      unfold blen in Hlen. rewrite length_app. lia.
Qed.

Lemma decode_wellFramed (ds : list Buffer) :
  Forall wellFramed ds ->
  Forall2 (fun d f => parseMessage d = Some f /\ Frame.raw f = d)
          ds (decodeAll ds).
Proof.
  induction 1 as [|d ds Hw _ IH]; [constructor|].
  destruct (wellFramed_parse d Hw) as (f & Hf & Hraw & _).
  cbn [decodeAll]. rewrite Hf. constructor; [split; assumption|exact IH].
Qed.

Lemma stalled_nil : stalled [].
Proof. left. unfold blen. cbn [length]. lia. Qed.

(** X4: frames separated by noise.  When the input is any number of valid
    frames, each preceded by bytes that hold no magic byte, one call of
    parseStream returns exactly those frames, in order, and an empty
    remainder. *)
Theorem parseStream_noise_and_frames (gds : list (Buffer * Buffer)) :
  Forall (fun gd => noMagic (fst gd) /\ wellFramed (snd gd)) gds ->
  exists fs,
    parseStream (flattenStream gds) = (fs, [])
    /\ Forall2 (fun d f => parseMessage d = Some f /\ Frame.raw f = d)
               (map snd gds) fs.
Proof.
  intros Hall. exists (decodeAll (map snd gds)). split.
  - apply (parseStream_eq _ (length (flattenStream gds))); [lia|].
    pose proof (parseStream_loop_frames gds [] (length (flattenStream gds)) []
                  Hall stalled_nil) as H.
    rewrite app_nil_r in H. apply H. lia.
  - apply decode_wellFramed. apply Forall_fmap.
    revert Hall. apply Forall_impl. intros gd [_ Hw]. exact Hw.
Qed.

(** ** What the framer leaves behind *)

Lemma parseStream_loop_remainder (fuel : nat) :
  forall (b : Buffer) (messages : list Frame.t) (r : list Frame.t * Buffer),
    (length b <= fuel)%nat ->
    parseStream_loop fuel b messages = Some r -> stalled (snd r).
Proof.
  induction fuel as [|fuel IH]; intros b messages r Hfuel E.
  - destruct b; [|cbn [length] in Hfuel; lia]. cbn in E.
    injection E as <-. apply stalled_nil.
  - cbn [parseStream_loop] in E.
    destruct (Z.leb_spec 13 (blen b)) as [Hlong|Hshort].
    + pose proof (parseStream_body_spec b messages) as Hspec.
      destruct (parseStream_body b messages) as [b' ms'|b' ms'] eqn:Eb.
      * apply (IH b' ms' r); [|exact E].
        pose proof (continue_shrinks _ _ _ _ Eb). lia.
      * injection E as <-. cbn [snd].
        inversion Hspec; subst.
        -- apply stalled_nil.
        -- left. lia.
        -- right. repeat split; try assumption; lia.
    + injection E as <-. left. exact Hshort.
Qed.

Lemma parseStream_remainder_stalled (b : Buffer) :
  stalled (snd (parseStream b)).
Proof.
  apply (parseStream_loop_remainder (length b) b []
           ([] ++ fst (parseStream b), snd (parseStream b))
           (Nat.le_refl _)).
  apply parseStream_loop_fuel. lia.
Qed.

(** X5: the receive buffer stays small.  Whatever the input, the
    remainder parseStream returns has at most 1023 bytes. *)
Theorem parseStream_remainder_bounded (b : Buffer) :
  blen (snd (parseStream b)) <= 1023.
Proof.
  destruct (parseStream_remainder_stalled b) as [H|(_ & HL & Hlt)]; lia.
Qed.

(** X6: the remainder is settled.  Calling parseStream again on the
    remainder alone returns no message and the same remainder. *)
Theorem parseStream_remainder_stable (b : Buffer) :
  parseStream (snd (parseStream b)) = ([], snd (parseStream b)).
Proof.
  apply (parseStream_eq _ (length (snd (parseStream b)))); [lia|].
  apply parseStream_loop_stalled; [apply parseStream_remainder_stalled|lia].
Qed.

(** ** Fragmented delivery *)

Lemma flattenStream_no_noise (ds : list Buffer) :
  flattenStream (map (fun d => ([], d)) ds) = concat ds
  /\ map snd (map (fun d => (@nil Z, d)) ds) = ds.
Proof.
  unfold flattenStream. rewrite !map_map. cbn [fst snd app].
  rewrite !map_id. split; reflexivity.
Qed.

(** Whole frames and then a stalled rest, in one call. *)
Lemma parseStream_frames_then_rest (ds : list Buffer) (p : Buffer) :
  Forall wellFramed ds -> stalled p ->
  parseStream (concat ds ++ p) = (decodeAll ds, p).
Proof.
  intros Hall Hst. destruct (flattenStream_no_noise ds) as [Hflat Hsnd].
  apply (parseStream_eq _ (length (concat ds ++ p))); [lia|].
  pose proof (parseStream_loop_frames (map (fun d => ([], d)) ds) p
                (length (concat ds ++ p)) []) as H.
  rewrite Hflat, Hsnd in H. apply H; [|exact Hst|lia].
  clear H Hflat Hsnd. induction Hall as [|d ds Hw _ IH]; cbn [map].
  - constructor.
  - constructor; [split; [constructor|exact Hw]|exact IH].
Qed.

Lemma strict_prefix_stalled (p l : Buffer) :
  wellFramed (p ++ l) -> l <> [] -> stalled p.
Proof.
  intros (Hm & HL & Hlen) Hl. rewrite blen_app in *.
  assert (0 < blen l).
  { destruct l; [contradiction|]. rewrite blen_cons.
    pose proof (blen_nonneg l). lia. }
  destruct (Z.lt_ge_cases (blen p) 13) as [Hshort|Hlong]; [left; exact Hshort|].
  right. rewrite lengthField_app_l in HL by lia.
  rewrite load8_app_l in Hm by lia. repeat split; try assumption; lia.
Qed.

(** A prefix of a run of valid frames is some of the frames whole and the
    start of the next one. *)
Lemma prefix_of_frames (ds : list Buffer) :
  forall P Q : Buffer,
    Forall wellFramed ds -> concat ds = P ++ Q ->
    exists (ds1 ds2 : list Buffer) (p : Buffer),
      ds = ds1 ++ ds2 /\ P = concat ds1 ++ p /\ stalled p
      /\ p ++ Q = concat ds2.
Proof.
  induction ds as [|d ds IH]; intros P Q Hall E.
  - cbn [concat] in E. symmetry in E. apply app_eq_nil in E.
    destruct E as [-> ->]. exists [], [], []. repeat split. apply stalled_nil.
  - inversion Hall as [|? ? Hw Hall']; subst. cbn [concat] in E.
    apply List.app_eq_app in E. destruct E as (l & [[Hd HQ]|[HP Hc]]).
    + destruct l as [|x l].
      * rewrite app_nil_r in Hd. subst P. cbn [app] in HQ. subst Q.
        exists [d], ds, []. repeat split.
        -- cbn [concat]. rewrite !app_nil_r. reflexivity.
        -- apply stalled_nil.
      * exists [], (d :: ds), P. repeat split.
        -- apply (strict_prefix_stalled P (x :: l)); [|easy].
           rewrite <- Hd. exact Hw.
        -- cbn [concat]. rewrite Hd, HQ, <- app_assoc. reflexivity.
    + destruct (IH l Q Hall' Hc) as (ds1 & ds2 & p & -> & -> & Hst & Hrest).
      exists (d :: ds1), ds2, p. repeat split.
      * rewrite HP. cbn [concat]. rewrite <- app_assoc. reflexivity.
      * exact Hst.
      * exact Hrest.
Qed.

Lemma decodeAll_app (ds1 ds2 : list Buffer) :
  decodeAll (ds1 ++ ds2) = decodeAll ds1 ++ decodeAll ds2.
Proof.
  induction ds1 as [|d ds1 IH]; [reflexivity|].
  cbn [app decodeAll]. rewrite IH. destruct (parseMessage d); reflexivity.
Qed.

Lemma stalled_frames_nil (ds : list Buffer) :
  Forall wellFramed ds -> stalled (concat ds) -> ds = [].
Proof.
  intros Hall Hst. destruct ds as [|d ds]; [reflexivity|]. exfalso.
  inversion Hall as [|? ? (Hm & HL & Hlen) _]; subst. cbn [concat] in Hst.
  pose proof (blen_nonneg (concat ds)).
  destruct Hst as [Hshort|(_ & _ & Hpart)]; rewrite blen_app in *; [lia|].
  rewrite lengthField_app_l in Hpart by lia. lia.
Qed.

Lemma feedChunks_frames (chunks : list Buffer) :
  forall (ds : list Buffer) (p : Buffer),
    Forall wellFramed ds -> stalled p ->
    p ++ concat chunks = concat ds ->
    feedChunks p chunks = ([], decodeAll ds).
Proof.
  induction chunks as [|c cs IH]; intros ds p Hall Hst E.
  - cbn [concat] in E. rewrite app_nil_r in E. subst p.
    rewrite (stalled_frames_nil ds Hall Hst). reflexivity.
  - cbn [concat] in E. rewrite app_assoc in E. symmetry in E.
    destruct (prefix_of_frames ds (p ++ c) (concat cs) Hall E)
      as (ds1 & ds2 & p' & -> & HP & Hst' & Hrest).
    apply Forall_app in Hall. destruct Hall as [Hall1 Hall2].
    cbn [feedChunks]. unfold processIncoming.
    rewrite HP, (parseStream_frames_then_rest ds1 p' Hall1 Hst').
    rewrite (IH ds2 p' Hall2 Hst' Hrest), decodeAll_app. reflexivity.
Qed.

(** X7: fragmentation does not matter for a clean stream.  When valid
    frames are sent back to back and the transport delivers their bytes in
    chunks cut anywhere, the calls of _processIncoming emit exactly those
    frames, in order, and the receive buffer is empty at the end. *)
Theorem clean_stream_any_chunking (ds chunks : list Buffer) :
  Forall wellFramed ds -> concat chunks = concat ds ->
  exists fs,
    feedChunks [] chunks = ([], fs)
    /\ Forall2 (fun d f => parseMessage d = Some f /\ Frame.raw f = d) ds fs.
Proof.
  intros Hall E. exists (decodeAll ds). split.
  - apply feedChunks_frames; [exact Hall|apply stalled_nil|exact E].
  - apply decode_wellFramed. exact Hall.
Qed.

(** ** More on the codec *)

Lemma slice_app_l (l1 l2 : Buffer) (s e : Z) :
  0 <= s <= e -> e <= blen l1 -> slice (l1 ++ l2) s e = slice l1 s e.
Proof.
  intros Hs He. pose proof (blen_nonneg l2).
  rewrite !slice_take_drop by (rewrite ?blen_app; lia).
  unfold blen in *. rewrite drop_app_le by lia.
  rewrite take_app_le by (rewrite length_drop; lia). reflexivity.
Qed.

(** X8: bytes after a frame do not change what is decoded.  For a buffer
    that starts with a valid frame, parseMessage returns the frame it
    returns for the frame alone, raw bytes included. *)
Theorem parseMessage_trailing_bytes (d junk : Buffer) :
  wellFramed d -> parseMessage (d ++ junk) = parseMessage d.
Proof.
  intros (Hm & HL & Hlen). pose proof (blen_nonneg junk) as Hj.
  assert (HL' : lengthField (d ++ junk) = lengthField d)
    by (apply lengthField_app_l; lia).
  rewrite (parseMessage_fields d) by lia.
  rewrite (parseMessage_fields (d ++ junk));
    [ | rewrite load8_app_l by lia; exact Hm
      | rewrite blen_app; lia | rewrite HL', blen_app; lia ].
  unfold readUInt16BE. rewrite HL', !load8_app_l by lia.
  rewrite !slice_app_l by lia. reflexivity.
Qed.

Lemma parseStream_surfaced (b : Buffer) :
  Forall surfaced_ok (fst (parseStream b)).
Proof.
  destruct (parseStream_loop_spec (length b) b [] (Nat.le_refl _))
    as (new & rem & E & _ & Hok).
  rewrite (parseStream_eq b (length b) _ (Nat.le_refl _) E). exact Hok.
Qed.

Section CodecLimits.

Variable crc8Calc : Buffer -> Z.
Variable crc16Calc : Buffer -> Z.
Hypothesis crc16_range : forall d, 0 <= crc16Calc d <= 0xFFFF.

Variables (target flags cmdSet cmdId : Z).

(** X9: a payload of more than 1010 bytes cannot be received.  The frame
    buildMessage returns for it is never handed back by parseStream: no
    message parseStream returns for that frame has the frame as its raw
    bytes. *)
Theorem oversized_frame_not_delivered (payload frame : Buffer)
    (seq seq' : Z) :
  0 <= target <= 0xFFFF -> 0 <= seq <= 0xFFFF ->
  1011 <= blen payload ->
  buildMessage crc8Calc crc16Calc target flags cmdSet cmdId (Some payload) seq
    = (Ok frame, seq') ->
  forall f, In f (fst (parseStream frame)) -> Frame.raw f <> frame.
Proof.
  intros Ht Hs Hbig Hb f Hin Hraw.
  rewrite buildMessage_eq in Hb by (try assumption; lia).
  match type of Hb with (Ok ?x, _) = _ =>
    set (built := x) in *; assert (Hframe : frame = built) by congruence end.
  pose proof (parseStream_surfaced frame) as Hall.
  rewrite List.Forall_forall in Hall.
  destruct (Hall f Hin) as (_ & HL & HF & HB & _).
  rewrite Hraw, Hframe in HF, HB. unfold built in HF, HB.
  rewrite built_lengthField in HF. rewrite built_blen in HB.
  pose proof (Z.mod_pos_bound (13 + blen payload) 1024 ltac:(lia)). lia.
Qed.

(** X10: a target outside 16 bits is refused before an id is taken.
    buildMessage raises a RangeError and leaves the sequence counter as it
    was, so the next message carries the id this one would have had. *)
Theorem buildMessage_target_out_of_range (payload : option Buffer) (seq : Z) :
  target < 0 \/ 0xFFFF < target ->
  buildMessage crc8Calc crc16Calc target flags cmdSet cmdId payload seq
  = (Throw RangeError, seq).
Proof.
  intros Ht. unfold buildMessage, bind, lift, writeUInt16LE, uint16_ok.
  destruct (Z.leb_spec 0 target); destruct (Z.leb_spec target 0xFFFF);
    try lia; reflexivity.
Qed.

(** X11: the sequence counter does not recover by itself.  Once it has
    passed 0xFFFF, every further call of buildMessage raises a RangeError
    and moves the counter one further up, however many calls are made. *)
Theorem encoder_dead_after_overflow (payload : option Buffer) (seq : Z)
    (k : nat) :
  0 <= target <= 0xFFFF -> 0xFFFF < seq ->
  let build := buildMessage crc8Calc crc16Calc target flags cmdSet cmdId
                 payload in
  counterAfter build k seq = seq + Z.of_nat k
  /\ build (counterAfter build k seq)
     = (Throw RangeError, seq + Z.of_nat k + 1).
Proof.
  intros Ht Hs build.
  assert (Hc : counterAfter build k seq = seq + Z.of_nat k).
  { induction k as [|k IH]; [cbn; lia|].
    unfold counterAfter in *. rewrite Nat.iter_succ, IH. unfold build.
    rewrite buildMessage_seq_out_of_range by lia. cbn [snd]. lia. }
  split; [exact Hc|]. rewrite Hc. unfold build.
  rewrite buildMessage_seq_out_of_range by lia. reflexivity.
Qed.

(** X25: what the encoder returns passes every check a receiver can make.
    For a 16-bit target and counter and a payload (given or omitted) of at
    most 1010 bytes, the frame begins with 0x55, its 10-bit length field
    equals its byte count, which is 13 more than the payload's, byte 3 is
    the CRC-8 of the first three bytes, and the last two bytes are, low
    byte first, the CRC-16 of all the bytes before them. *)
Theorem encoder_output_checks (payload : option Buffer) (frame : Buffer)
    (seq seq' : Z) :
  0 <= target <= 0xFFFF -> 0 <= seq <= 0xFFFF ->
  blen (default [] payload) <= 1010 ->
  buildMessage crc8Calc crc16Calc target flags cmdSet cmdId payload seq
    = (Ok frame, seq') ->
  load8 frame 0 = 0x55
  /\ lengthField frame = blen frame
  /\ blen frame = 13 + blen (default [] payload)
  /\ load8 frame 3 = crc8Calc (slice frame 0 3) mod 256
  /\ load8 frame (blen frame - 2) + 256 * load8 frame (blen frame - 1)
     = crc16Calc (slice frame 0 (blen frame - 2)).
Proof.
  intros Ht Hs Hp Hb.
  assert (Hb' : buildMessage crc8Calc crc16Calc target flags cmdSet cmdId
                  (Some (default [] payload)) seq = (Ok frame, seq'))
    by (destruct payload; exact Hb).
  destruct (buildMessage_valid crc8Calc crc16Calc crc16_range _ _ _ _ _ _ _ _
              Ht Hs Hp Hb') as [(Hm & Hl & _) [H8 H16]].
  split; [exact Hm|]. split; [exact Hl|]. split; [|split; assumption].
  rewrite buildMessage_eq in Hb' by assumption.
  inversion Hb' as [[Hf Hq]]. apply built_blen.
Qed.

End CodecLimits.

(** ** The standalone tool against the library *)

Lemma processIncomingData_body_agrees (b : Buffer) (st : tool_state) :
  processIncomingData_body b st =
  match parseStream_body b [] with
  | Continue b' new => ToolContinue b' (tool_handleAll st new)
  | Break b' new => ToolBreak b' (tool_handleAll st new)
  end.
Proof.
  unfold processIncomingData_body, parseStream_body.
  repeat match goal with
         | |- context [if ?c then _ else _] =>
             lazymatch c with
             | context [if _ then _ else _] => fail
             | _ => destruct c eqn:?
             end
         | |- context [match parseMessage ?d with _ => _ end] =>
             destruct (parseMessage d)
         end;
    reflexivity.
Qed.

Lemma tool_handleAll_app (st : tool_state) (l1 l2 : list Frame.t) :
  tool_handleAll st (l1 ++ l2) = tool_handleAll (tool_handleAll st l1) l2.
Proof. unfold tool_handleAll. apply fold_left_app. Qed.

Lemma processIncomingData_loop_agrees (fuel : nat) :
  forall (b : Buffer) (messages : list Frame.t) (st0 : tool_state),
    processIncomingData_loop fuel b (tool_handleAll st0 messages) =
    match parseStream_loop fuel b messages with
    | Some (messages', remaining) =>
        Some (remaining, tool_handleAll st0 messages')
    | None => None
    end.
Proof.
  induction fuel as [|fuel IH]; intros b messages st0;
    cbn [processIncomingData_loop parseStream_loop];
    destruct (13 <=? blen b); try reflexivity.
  rewrite processIncomingData_body_agrees, (parseStream_body_messages b messages).
  destruct (parseStream_body b []) as [b' new|b' new];
    rewrite <- tool_handleAll_app; [apply IH|reflexivity].
Qed.

(** X12: the standalone tool's receive loop and the library agree.  One
    call of processIncomingData leaves the receive buffer that parseStream
    returns as remainder for the same bytes, and the state reached by
    handling the messages parseStream returns, in order. *)
Theorem processIncomingData_agrees (receiveBuffer data : Buffer)
    (st : tool_state) :
  processIncomingData receiveBuffer st data
  = (snd (parseStream (receiveBuffer ++ data)),
     tool_handleAll st (fst (parseStream (receiveBuffer ++ data)))).
Proof.
  unfold processIncomingData.
  pose proof (processIncomingData_loop_agrees
                (length (receiveBuffer ++ data)) (receiveBuffer ++ data) [] st)
    as H.
  change (tool_handleAll st []) with st in H. rewrite H.
  rewrite parseStream_loop_fuel by lia. reflexivity.
Qed.

(** X13: the two message handlers stay in step.  When the connection and
    the standalone tool agree on the paired flag and on the three angles,
    they still agree after handling the same message. *)
Theorem handlers_agree (c : OsmoConnection) (st : tool_state)
    (msg : option Frame.t) :
  _paired c = tool_paired st ->
  (pitch (gimbal c), roll (gimbal c), yaw (gimbal c)) = tool_gimbalState st ->
  let c' := _handleMessage c msg in
  let st' := tool_handleMessage st msg in
  _paired c' = tool_paired st'
  /\ (pitch (gimbal c'), roll (gimbal c'), yaw (gimbal c'))
     = tool_gimbalState st'.
Proof.
  intros Hp Hg. destruct msg as [msg|]; [|split; assumption].
  cbv zeta. unfold _handleMessage, tool_handleMessage, gimbal_handleMessage,
    decodeGimbalParams.
  change CMD_SET.GIMBAL with 0x04. change CMD_SET.WIFI with 0x07.
  change CMD_SET.BATTERY with 0x06. change GIMBAL_CMD.PARAMS_GET with 0x05.
  change WIFI_CMD.SET_PAIRING_PIN with 0x45.
  change WIFI_CMD.PAIRING_APPROVED with 0x46.
  destruct (Frame.cmdSet msg =? 4) eqn:E4.
  - cbn [negb].
    destruct (Frame.cmdId msg =? 5) eqn:E5; cbn [andb];
      [|split; assumption].
    destruct (Z.leb_spec 6 (blen (Frame.payload msg))) as [H6|H6];
      [|split; assumption].
    destruct (Z.ltb_spec (blen (Frame.payload msg)) 6); [lia|].
    split; [exact Hp|reflexivity].
  - destruct (Frame.cmdSet msg =? 7) eqn:E7.
    + repeat match goal with
             | |- context [if ?b then _ else _] =>
                 lazymatch b with
                 | context [if _ then _ else _] => fail
                 | _ => destruct b eqn:?
                 end
             end; split; solve [assumption | reflexivity].
    + repeat match goal with
             | |- context [if ?b then _ else _] =>
                 lazymatch b with
                 | context [if _ then _ else _] => fail
                 | _ => destruct b eqn:?
                 end
             end; split; assumption.
Qed.

(** ** Routing incoming messages *)

(** What handling one message keeps and what it may add. *)
Lemma _handleMessage_keeps (c : OsmoConnection) (msg : Frame.t) :
  let c' := _handleMessage c (Some msg) in
  (_paired c = true -> _paired c' = true)
  /\ msgSeq c' = msgSeq c /\ _pin c' = _pin c
  /\ _identifier c' = _identifier c
  /\ exists evs, effects c' = effects c ++ evs
                 /\ (length evs <= 1)%nat
                 /\ forallb isRoutingEvent evs = true.
Proof.
  cbv zeta. unfold _handleMessage.
  repeat match goal with
         | |- context [if ?b then _ else _] =>
             lazymatch b with
             | context [if _ then _ else _] => fail
             | _ => destruct b eqn:?
             end
         | |- context [let '(_, _) := ?p in _] => destruct p eqn:?
         end;
    cbn [emit set_paired set_battery set_gimbal effects _paired msgSeq
         _pin _identifier];
    (split; [intros H; first [exact H | reflexivity]|]);
    (split; [reflexivity|]); (split; [reflexivity|]);
    (split; [reflexivity|]);
    first [ exists []; rewrite app_nil_r; repeat split;
            first [reflexivity | cbn; lia]
          | eexists [_]; repeat split; first [reflexivity | cbn; lia] ].
Qed.

Lemma routeAll_keeps (messages : list Frame.t) :
  forall c : OsmoConnection,
    let c' := routeAll c messages in
    (_paired c = true -> _paired c' = true)
    /\ msgSeq c' = msgSeq c /\ _pin c' = _pin c
    /\ _identifier c' = _identifier c
    /\ exists evs, effects c' = effects c ++ evs
                   /\ (length evs <= length messages)%nat
                   /\ forallb isRoutingEvent evs = true.
Proof.
  induction messages as [|m ms IH]; intros c; cbv zeta.
  - cbn [routeAll fold_left]. unfold routeAll. cbn [fold_left].
    repeat split; try reflexivity; try tauto.
    exists []. rewrite app_nil_r. repeat split. cbn [length]. lia.
  - unfold routeAll. cbn [fold_left]. fold (routeAll (_handleMessage c (Some m)) ms).
    destruct (_handleMessage_keeps c m) as (Hp1 & Hs1 & Hpin1 & Hid1 & e1 & He1 & Hl1 & Hr1).
    destruct (IH (_handleMessage c (Some m)))
      as (Hp2 & Hs2 & Hpin2 & Hid2 & e2 & He2 & Hl2 & Hr2).
    repeat split; try congruence; [tauto|].
    exists (e1 ++ e2). rewrite He2, He1, app_assoc.
    repeat split.
    + rewrite length_app. cbn [length]. lia.
    + rewrite forallb_app, Hr1, Hr2. reflexivity.
Qed.

(** X14: what incoming messages cannot do.  Routing any sequence of
    messages never clears the paired flag, never changes the sequence
    counter, the PIN or the identifier, and adds at most one event per
    message to the effects: no write, no sleep, and neither the pairing nor
    the pairingTimeout event. *)
Theorem routing_invariants (c : OsmoConnection) (messages : list Frame.t) :
  let c' := routeAll c messages in
  (_paired c = true -> _paired c' = true)
  /\ msgSeq c' = msgSeq c /\ _pin c' = _pin c
  /\ _identifier c' = _identifier c
  /\ exists evs, effects c' = effects c ++ evs
                 /\ (length evs <= length messages)%nat
                 /\ forallb isRoutingEvent evs = true.
Proof. apply routeAll_keeps. Qed.

(** ** Pairing: the other outcomes *)

Lemma routeAll_unpaired (messages : list Frame.t) :
  forall c : OsmoConnection,
    (forall m c', In m messages -> _paired c' = false ->
                  _paired (_handleMessage c' (Some m)) = false) ->
    _paired c = false -> _paired (routeAll c messages) = false.
Proof.
  induction messages as [|m ms IH]; intros c Hno Hc; [exact Hc|].
  unfold routeAll. cbn [fold_left]. apply IH.
  - intros m' c' Hin. apply Hno. right. exact Hin.
  - apply Hno; [left; reflexivity|exact Hc].
Qed.

Lemma routeAll_approving (messages : list Frame.t) (m : Frame.t) :
  forall c : OsmoConnection,
    In m messages ->
    (forall c', _paired (_handleMessage c' (Some m)) = true) ->
    _paired (routeAll c messages) = true.
Proof.
  induction messages as [|m' ms IH]; intros c Hin Hm; [destruct Hin|].
  unfold routeAll. cbn [fold_left].
  fold (routeAll (_handleMessage c (Some m')) ms).
  destruct Hin as [->|Hin].
  - destruct (routeAll_keeps ms (_handleMessage c (Some m))) as [Hkeep _].
    apply Hkeep. apply Hm.
  - apply IH; assumption.
Qed.

Lemma routing_events_plain (evs : list effect) :
  forallb isRoutingEvent evs = true ->
  countSleeps 500 evs = O /\ ~ In (Emit Ev_pairingTimeout) evs.
Proof.
  induction evs as [|e evs IH]; cbn [forallb]; [intros _; split; [reflexivity|easy]|].
  intros H. apply andb_true_iff in H. destruct H as [He Hevs].
  destruct (IH Hevs) as [Hs Ht]. split.
  - unfold countSleeps in *. cbn [List.filter].
    destruct e as [ev| | |ms]; try discriminate He. cbn [isSleep]. exact Hs.
  - intros [Heq|Hin]; [|exact (Ht Hin)]. subst e. discriminate He.
Qed.

Lemma pollPaired_paired (env : environment) (remaining k : nat)
    (c : OsmoConnection) :
  _paired c = true -> pollPaired env remaining k c = c.
Proof. intros Hc. destruct remaining; cbn [pollPaired]; [|rewrite Hc]; reflexivity. Qed.

Lemma pollPaired_success (env : environment) (j : nat) :
  forall (remaining k : nat) (c : OsmoConnection),
    (j < remaining)%nat -> _paired c = false ->
    (forall i m c', (k <= i < k + j)%nat -> In m (arrivals env i) ->
                    _paired c' = false ->
                    _paired (_handleMessage c' (Some m)) = false) ->
    (exists m, In m (arrivals env (k + j))
               /\ forall c', _paired (_handleMessage c' (Some m)) = true) ->
    exists new,
      effects (pollPaired env remaining k c) = effects c ++ new
      /\ _paired (pollPaired env remaining k c) = true
      /\ countSleeps 500 new = S j
      /\ ~ In (Emit Ev_pairingTimeout) new.
Proof.
  induction j as [|j IH]; intros remaining k c Hj Hc Hquiet (m & Hin & Hm);
    (destruct remaining as [|r]; [lia|]); cbn [pollPaired]; rewrite Hc;
    change (suspend env k (perform (Sleep 500) c))
      with (routeAll (perform (Sleep 500) c) (arrivals env k));
    destruct (routeAll_keeps (arrivals env k) (perform (Sleep 500) c))
      as (_ & _ & _ & _ & evs & He & _ & Hr);
    destruct (routing_events_plain evs Hr) as [Hs Ht];
    set (c1 := routeAll (perform (Sleep 500) c) (arrivals env k)) in *;
    cbn [perform effects] in He.
  - rewrite Nat.add_0_r in Hin.
    assert (Hp : _paired c1 = true)
      by (apply (routeAll_approving _ m); assumption).
    rewrite pollPaired_paired by exact Hp.
    exists ([Sleep 500] ++ evs). rewrite He, <- app_assoc.
    split; [reflexivity|]. split; [exact Hp|]. split.
    + rewrite countSleeps_app, Hs. reflexivity.
    + intros Hbad. apply in_app_or in Hbad.
      destruct Hbad as [[Hbad|[]]|Hbad]; [discriminate Hbad|exact (Ht Hbad)].
  - assert (Hp : _paired c1 = false).
    { apply routeAll_unpaired; [|exact Hc].
      intros m' c' Hin'. apply (Hquiet k); [lia|exact Hin']. }
    destruct (IH r (S k) c1 ltac:(lia) Hp) as (new & He2 & Hp2 & Hs2 & Ht2).
    + intros i m' c' Hi. apply Hquiet. lia.
    + exists m. split; [|exact Hm].
      replace (S k + j)%nat with (k + S j)%nat by lia. exact Hin.
    + exists ([Sleep 500] ++ evs ++ new). rewrite He2, He, <- !app_assoc.
      split; [reflexivity|]. split; [exact Hp2|]. split.
      * rewrite !countSleeps_app, Hs, Hs2. reflexivity.
      * intros Hbad. apply in_app_or in Hbad.
        destruct Hbad as [[Hbad|[]]|Hbad]; [discriminate Hbad|].
        apply in_app_or in Hbad. destruct Hbad; [exact (Ht H)|exact (Ht2 H)].
Qed.

(** X15: pairing that succeeds stops polling.  When the credentials have
    been sent with the paired flag still false, the messages routed during
    the first j polls do not set the flag and one routed during the next
    poll does (j < 30), the pairing routine returns true after exactly
    j + 1 sleeps of 500 ms and emits no pairingTimeout event. *)
Theorem pairing_succeeds_early (env : environment) (c c1 : OsmoConnection)
    (j : nat) :
  _pair_send env c = (Ok tt, c1) ->
  _paired c1 = false ->
  (j < 30)%nat ->
  (forall i m c', (3 <= i < 3 + j)%nat -> In m (arrivals env i) ->
                  _paired c' = false ->
                  _paired (_handleMessage c' (Some m)) = false) ->
  (exists m, In m (arrivals env (3 + j))
             /\ forall c', _paired (_handleMessage c' (Some m)) = true) ->
  exists c2 new,
    _pair env c = (Ok true, c2)
    /\ _paired c2 = true
    /\ effects c2 = effects c1 ++ new
    /\ countSleeps 500 new = S j
    /\ ~ In (Emit Ev_pairingTimeout) new.
Proof.
  intros Hsend Hc1 Hj Hquiet Happ.
  destruct (pollPaired_success env j 30 3 c1 Hj Hc1 Hquiet Happ)
    as (new & He & Hp & Hs & Ht).
  exists (pollPaired env 30 3 c1), new.
  unfold _pair. rewrite Hsend. unfold _pair_wait. rewrite Hp.
  cbn [negb]. rewrite Hp. repeat split; assumption.
Qed.

Lemma suspend_keeps (env : environment) (k : nat) (c : OsmoConnection) :
  msgSeq (suspend env k c) = msgSeq c
  /\ _pin (suspend env k c) = _pin c
  /\ _identifier (suspend env k c) = _identifier c
  /\ exists evs, effects (suspend env k c) = effects c ++ evs
                 /\ forallb isRoutingEvent evs = true.
Proof.
  change (suspend env k c) with (routeAll c (arrivals env k)).
  destruct (routeAll_keeps (arrivals env k) c)
    as (_ & Hs & Hp & Hi & evs & He & _ & Hr).
  repeat split; try assumption. exists evs. split; assumption.
Qed.

Lemma routing_events_no_write (evs : list effect) (msg : Buffer) :
  forallb isRoutingEvent evs = true -> ~ In (WriteFff5 msg) evs.
Proof.
  intros H Hin. rewrite forallb_forall in H. specialize (H _ Hin).
  discriminate H.
Qed.

(** X16: the credentials on the wire.  When both transport writes succeed,
    the counter holds a 16-bit value and identifier and PIN have at most
    255 bytes each, the pairing routine writes one frame to fff5 that
    decodes as a request from the app to the WiFi module, command set 0x07,
    command 0x45, carrying the id the counter held; unpackString reads the
    identifier at offset 0 of its payload and the PIN right after it. *)
Theorem pairing_credentials_frame (env : environment) (c : OsmoConnection) :
  writeFff4_result env = Ok tt -> write_result env = Ok tt ->
  0 <= msgSeq c <= 0xFFFF ->
  blen (bufferFromString (_identifier c)) <= 255 ->
  blen (bufferFromString (_pin c)) <= 255 ->
  exists c1 msg f,
    _pair_send env c = (Ok tt, c1)
    /\ In (WriteFff5 msg) (effects c1)
    /\ msgSeq c1 = msgSeq c + 1
    /\ parseMessage msg = Some f
    /\ Frame.sender f = ADDR.APP /\ Frame.receiver f = ADDR.WIFI
    /\ Frame.msgId f = msgSeq c
    /\ Frame.flags f = FLAG.REQUEST /\ Frame.cmdSet f = CMD_SET.WIFI
    /\ Frame.cmdId f = WIFI_CMD.SET_PAIRING_PIN
    /\ unpackString (Frame.payload f) 0
       = mkUnpacked (_identifier c)
                    (1 + blen (bufferFromString (_identifier c)))
    /\ unpackString (Frame.payload f)
         (S (length (bufferFromString (_identifier c))))
       = mkUnpacked (_pin c) (1 + blen (bufferFromString (_pin c))).
Proof.
  intros Hw4 Hw5 Hseq Hid Hpin. unfold _pair_send. rewrite Hw4.
  set (ca := suspend env 0 (perform (WriteFff4 [1; 0]) c)).
  set (cb := suspend env 1 (perform (Sleep 200) ca)).
  destruct (suspend_keeps env 0 (perform (WriteFff4 [1; 0]) c))
    as (Hsa & Hpa & Hia & _). fold ca in Hsa, Hpa, Hia.
  destruct (suspend_keeps env 1 (perform (Sleep 200) ca))
    as (Hsb & Hpb & Hib & _). fold cb in Hsb, Hpb, Hib.
  cbn [perform msgSeq _pin _identifier] in *.
  assert (Hs : msgSeq cb = msgSeq c) by congruence.
  assert (Hp : _pin cb = _pin c) by congruence.
  assert (Hi : _identifier cb = _identifier c) by congruence.
  rewrite Hs, Hp, Hi. clear Hsa Hpa Hia Hsb Hpb Hib.
  set (payload := packString (_identifier c) ++ packString (_pin c)).
  assert (Hlen : blen payload <= 1011).
  { unfold payload. rewrite blen_app, !packString_eq, !blen_cons. lia. }
  unfold buildMessageDuml.
  rewrite (buildMessage_eq computeCrc8 computeCrc16 computeCrc16_range)
    by (try assumption; vm_compute; split; discriminate).
  rewrite Hw5.
  match goal with |- context [WriteFff5 ?m] => set (msg := m) end.
  set (cc := set_msgSeq (msgSeq c + 1) cb).
  destruct (suspend_keeps env 2 (perform (WriteFff5 msg) cc))
    as (Hsc & _ & _ & evs & He & _).
  eexists _, msg, _. split; [reflexivity|].
  split.
  { cbn [emit effects]. rewrite He. cbn [perform effects].
    apply in_or_app. left. apply in_or_app. left.
    apply in_or_app. right. left. reflexivity. }
  split; [cbn [emit msgSeq]; rewrite Hsc; reflexivity|].
  split; [apply built_parse|].
  cbn [Frame.sender Frame.receiver Frame.msgId Frame.flags Frame.cmdSet
       Frame.cmdId Frame.payload].
  rewrite built_payload by exact Hlen.
  repeat split; try reflexivity.
  - apply uint16_bytes. exact Hseq.
  - apply (unpackString_embedded [] (packString (_pin c)) (_identifier c)).
    exact Hid.
  - pose proof (unpackString_embedded (packString (_identifier c)) []
                  (_pin c) Hpin) as H.
    rewrite app_nil_r in H. rewrite packString_eq in H at 2.
    cbn [length] in H. exact H.
Qed.

(** X17: pairing after the counter has overflowed.  With a counter above
    0xFFFF the pairing routine raises a RangeError: it has written the
    trigger to fff4 by then, sends no credentials, and leaves the counter
    one higher. *)
Theorem pairing_after_overflow (env : environment) (c : OsmoConnection) :
  writeFff4_result env = Ok tt -> 0xFFFF < msgSeq c ->
  exists c' new,
    _pair env c = (Throw RangeError, c')
    /\ msgSeq c' = msgSeq c + 1
    /\ effects c' = effects c ++ new
    /\ In (WriteFff4 [0x01; 0x00]) new
    /\ forall msg, ~ In (WriteFff5 msg) new.
Proof.
  intros Hw4 Hseq. unfold _pair, _pair_send. rewrite Hw4.
  set (ca := suspend env 0 (perform (WriteFff4 [1; 0]) c)).
  set (cb := suspend env 1 (perform (Sleep 200) ca)).
  destruct (suspend_keeps env 0 (perform (WriteFff4 [1; 0]) c))
    as (Hsa & _ & _ & e0 & He0 & Hr0). fold ca in Hsa, He0.
  destruct (suspend_keeps env 1 (perform (Sleep 200) ca))
    as (Hsb & _ & _ & e1 & He1 & Hr1). fold cb in Hsb, He1.
  cbn [perform msgSeq effects] in *.
  assert (Hs : msgSeq cb = msgSeq c) by congruence.
  unfold buildMessageDuml.
  rewrite buildMessage_seq_out_of_range
    by (try (rewrite Hs; exact Hseq); vm_compute; split; discriminate).
  exists (set_msgSeq (msgSeq cb + 1) cb),
         ([WriteFff4 [1; 0]] ++ e0 ++ [Sleep 200] ++ e1).
  split; [reflexivity|]. cbn [set_msgSeq msgSeq effects].
  split; [rewrite Hs; reflexivity|].
  split; [rewrite He1, He0, <- !app_assoc; reflexivity|].
  split; [left; reflexivity|].
  intros msg Hin. apply in_app_or in Hin.
  destruct Hin as [[Hbad|[]]|Hin]; [discriminate Hbad|].
  apply in_app_or in Hin. destruct Hin as [Hin|Hin];
    [exact (routing_events_no_write _ _ Hr0 Hin)|].
  apply in_app_or in Hin. destruct Hin as [[Hbad|[]]|Hin];
    [discriminate Hbad|exact (routing_events_no_write _ _ Hr1 Hin)].
Qed.

(** ** The gimbal commands *)

Lemma int16_bytes (v : Z) :
  -0x8000 <= v <= 0x7FFF ->
  readInt16LE [v mod 256; Z.shiftr v 8 mod 256] 0 = v.
Proof.
  intros Hv. unfold readInt16LE.
  change (load8 [v mod 256; Z.shiftr v 8 mod 256] 0) with (v mod 256).
  change (load8 [v mod 256; Z.shiftr v 8 mod 256] (0 + 1))
    with (Z.shiftr v 8 mod 256).
  rewrite Z.shiftr_div_pow2 by lia. change (2 ^ 8) with 256.
  assert (E : v mod 256 + 256 * ((v / 256) mod 256) = v mod 65536).
  { change 65536 with (256 * 256). rewrite Z.rem_mul_r by lia. reflexivity. }
  rewrite E.
  destruct (Z.lt_ge_cases v 0) as [Hneg|Hpos].
  - assert (Em : v mod 65536 = v + 65536).
    { symmetry. apply (Z.mod_unique v 65536 (-1)); lia. }
    rewrite Em. destruct (Z.ltb_spec (v + 65536) 0x8000); lia.
  - rewrite Z.mod_small by lia. destruct (Z.ltb_spec v 0x8000); lia.
Qed.

Lemma readInt16LE_cons (x : Z) (l : Buffer) (k : Z) :
  1 < k -> readInt16LE (x :: l) k = readInt16LE l (k - 1).
Proof.
  intros Hk. unfold readInt16LE. rewrite !load8_cons_S by lia.
  replace (k + 1 - 1) with (k - 1 + 1) by lia. reflexivity.
Qed.

Lemma readInt16LE_2 (x y a b : Z) (rest : Buffer) :
  readInt16LE (x :: y :: a :: b :: rest) 2 = readInt16LE [a; b] 0.
Proof. reflexivity. Qed.

Lemma readInt16LE_0 (a b : Z) (rest : Buffer) :
  readInt16LE (a :: b :: rest) 0 = readInt16LE [a; b] 0.
Proof. reflexivity. Qed.

Lemma writeInt16LE_ok (buf : Buffer) (v off : Z) :
  -0x8000 <= v <= 0x7FFF -> 0 <= off -> off + 2 <= blen buf ->
  writeInt16LE buf v off
  = Ok (store8 (store8 buf off v) (off + 1) (Z.shiftr v 8)).
Proof.
  intros Hv Ho Hl. unfold writeInt16LE.
  destruct (Z.leb_spec (-0x8000) v); [|lia].
  destruct (Z.leb_spec v 0x7FFF); [|lia].
  destruct (Z.leb_spec 0 off); [|lia].
  destruct (Z.leb_spec (off + 2) (blen buf)); [|lia]. reflexivity.
Qed.

Lemma writeInt16LE_out_of_range (buf : Buffer) (v off : Z) :
  v < -0x8000 \/ 0x7FFF < v -> writeInt16LE buf v off = Throw RangeError.
Proof.
  intros Hv. unfold writeInt16LE.
  destruct (Z.leb_spec (-0x8000) v); destruct (Z.leb_spec v 0x7FFF);
    try lia; reflexivity.
Qed.

Section GimbalFacts.

Variable crc8Calc : Buffer -> Z.
Variable crc16Calc : Buffer -> Z.
Hypothesis crc16_range : forall d, 0 <= crc16Calc d <= 0xFFFF.

Local Ltac step_stores :=
  repeat (rewrite ?store8_cons_0; rewrite ?store8_cons_S by lia;
          cbn [Z.add Z.sub Z.pos_sub Pos.add Pos.succ Z.opp
               Pos.pred_double Z.succ_double Z.pred_double Z.double]).

(** Every command frame: a request from the app to the gimbal that
    decodes to the payload it was built from. *)
Lemma gimbal_command_frame (cmdId seq : Z) (payload : Buffer) :
  0 <= seq <= 0xFFFF -> blen payload <= 1011 -> is_byte cmdId ->
  exists frame f,
    buildMessage crc8Calc crc16Calc TARGET.APP_TO_GIMBAL FLAG.REQUEST
      CMD_SET.GIMBAL cmdId (Some payload) seq = (Ok frame, seq + 1)
    /\ parseMessage frame = Some f
    /\ Frame.sender f = ADDR.APP /\ Frame.receiver f = ADDR.GIMBAL
    /\ Frame.flags f = FLAG.REQUEST /\ Frame.cmdSet f = CMD_SET.GIMBAL
    /\ Frame.cmdId f = cmdId
    /\ Frame.msgId f = seq
    /\ Frame.payload f = payload.
Proof.
  intros Hs Hp Hc. eexists _, _.
  split; [apply buildMessage_eq;
          [exact crc16_range|vm_compute; split; discriminate|exact Hs]|].
  split; [apply built_parse|].
  cbn [Frame.sender Frame.receiver Frame.flags Frame.cmdSet Frame.cmdId
       Frame.msgId Frame.payload].
  repeat split; try reflexivity.
  - apply Z.mod_small. exact Hc.
  - apply uint16_bytes. exact Hs.
  - apply built_payload. exact Hp.
Qed.

(** X18: what [setSpeed] sends.  For whole-degree speeds whose tenfold
    fits 16 bits and a 16-bit counter value, the message decodes as gimbal
    command 0x0C with a 7-byte payload holding pitch, roll and yaw speed
    times ten as little-endian int16 at offsets 0, 2 and 4 and the enable
    byte 1; when a tenfold does not fit, a RangeError is raised, nothing is
    built and the counter is unchanged. *)
Theorem setSpeed_frame (pitchSpeed yawSpeed rollSpeed seq : Z) :
  0 <= seq <= 0xFFFF ->
  (-0x8000 <= pitchSpeed * 10 <= 0x7FFF ->
   -0x8000 <= rollSpeed * 10 <= 0x7FFF ->
   -0x8000 <= yawSpeed * 10 <= 0x7FFF ->
   exists frame f,
     setSpeed crc8Calc crc16Calc pitchSpeed yawSpeed rollSpeed seq
       = (Ok frame, seq + 1)
     /\ parseMessage frame = Some f
     /\ Frame.cmdSet f = CMD_SET.GIMBAL
     /\ Frame.cmdId f = GIMBAL_CMD.SPEED_CTRL
     /\ blen (Frame.payload f) = 7
     /\ readInt16LE (Frame.payload f) 0 = pitchSpeed * 10
     /\ readInt16LE (Frame.payload f) 2 = rollSpeed * 10
     /\ readInt16LE (Frame.payload f) 4 = yawSpeed * 10
     /\ load8 (Frame.payload f) 6 = 1)
  /\ (~ (-0x8000 <= pitchSpeed * 10 <= 0x7FFF)
      \/ ~ (-0x8000 <= rollSpeed * 10 <= 0x7FFF)
      \/ ~ (-0x8000 <= yawSpeed * 10 <= 0x7FFF) ->
      setSpeed crc8Calc crc16Calc pitchSpeed yawSpeed rollSpeed seq
        = (Throw RangeError, seq)).
Proof.
  intros Hs. split.
  - intros Hp Hr Hy. unfold setSpeed, bind, lift.
    change (alloc 7) with [0; 0; 0; 0; 0; 0; 0].
    rewrite writeInt16LE_ok by (try lia; vm_compute; discriminate).
    step_stores.
    rewrite writeInt16LE_ok
      by (try lia; rewrite ?blen_cons; vm_compute; discriminate).
    step_stores.
    rewrite writeInt16LE_ok
      by (try lia; rewrite ?blen_cons; vm_compute; discriminate).
    step_stores. change (1 mod 256) with 1.
    match goal with |- context [Some ?p] => set (payload := p) end.
    destruct (gimbal_command_frame GIMBAL_CMD.SPEED_CTRL seq payload Hs)
      as (frame & f & Hb & Hf & _ & _ & _ & Hcs & Hci & _ & Hpay);
      [vm_compute; discriminate|unfold is_byte; vm_compute; easy|].
    exists frame, f. rewrite Hpay.
    repeat split; try assumption; try reflexivity.
    + unfold payload. rewrite readInt16LE_0. apply (int16_bytes _ Hp).
    + unfold payload. rewrite readInt16LE_2. apply (int16_bytes _ Hr).
    + unfold payload. do 2 (rewrite readInt16LE_cons by lia).
      change (4 - 1 - 1) with 2. rewrite readInt16LE_2.
      apply (int16_bytes _ Hy).
  - intros Hbad. unfold setSpeed, bind, lift.
    change (alloc 7) with [0; 0; 0; 0; 0; 0; 0].
    destruct (Z_le_dec (-0x8000) (pitchSpeed * 10));
      [destruct (Z_le_dec (pitchSpeed * 10) 0x7FFF)|];
      try (rewrite writeInt16LE_out_of_range by lia; reflexivity).
    rewrite writeInt16LE_ok by (try lia; vm_compute; discriminate).
    step_stores.
    destruct (Z_le_dec (-0x8000) (rollSpeed * 10));
      [destruct (Z_le_dec (rollSpeed * 10) 0x7FFF)|];
      try (rewrite writeInt16LE_out_of_range by lia; reflexivity).
    rewrite writeInt16LE_ok
      by (try lia; rewrite ?blen_cons; vm_compute; discriminate).
    step_stores.
    rewrite writeInt16LE_out_of_range by lia. reflexivity.
Qed.

Lemma uint16_le_bytes (v : Z) :
  0 <= v <= 0xFFFF ->
  load8 [v mod 256; Z.shiftr v 8 mod 256] 0
  + 256 * load8 [v mod 256; Z.shiftr v 8 mod 256] 1 = v.
Proof.
  intros Hv.
  change (load8 [v mod 256; Z.shiftr v 8 mod 256] 0) with (v mod 256).
  change (load8 [v mod 256; Z.shiftr v 8 mod 256] 1)
    with (Z.shiftr v 8 mod 256).
  pose proof (uint16_bytes v Hv). lia.
Qed.

(** X19: [setPwm] cannot fail on its arguments.  Whatever the three whole
    numbers, with a 16-bit counter value the message is built: gimbal
    command 0x01 with three little-endian uint16, each the argument clamped
    to 363..1685. *)
Theorem setPwm_clamps (pitch roll yaw seq : Z) :
  0 <= seq <= 0xFFFF ->
  let clamp := fun v => Z.max 363 (Z.min 1685 v) in
  exists frame f,
    setPwm crc8Calc crc16Calc pitch roll yaw seq = (Ok frame, seq + 1)
    /\ parseMessage frame = Some f
    /\ Frame.cmdSet f = CMD_SET.GIMBAL
    /\ Frame.cmdId f = GIMBAL_CMD.CONTROL_PWM
    /\ blen (Frame.payload f) = 6
    /\ load8 (Frame.payload f) 0 + 256 * load8 (Frame.payload f) 1
       = clamp pitch
    /\ load8 (Frame.payload f) 2 + 256 * load8 (Frame.payload f) 3
       = clamp roll
    /\ load8 (Frame.payload f) 4 + 256 * load8 (Frame.payload f) 5
       = clamp yaw.
Proof.
  intros Hs clamp. unfold setPwm, bind, lift. fold clamp.
  assert (Hc : forall v, 0 <= clamp v <= 0xFFFF) by (intros v; unfold clamp; lia).
  change (alloc 6) with [0; 0; 0; 0; 0; 0].
  unfold writeUInt16LE at 1.
  rewrite uint16_ok_true by (try apply Hc; try lia; vm_compute; discriminate).
  step_stores. unfold writeUInt16LE at 1.
  rewrite uint16_ok_true
    by (try apply Hc; try lia; rewrite ?blen_cons; vm_compute; discriminate).
  step_stores. unfold writeUInt16LE at 1.
  rewrite uint16_ok_true
    by (try apply Hc; try lia; rewrite ?blen_cons; vm_compute; discriminate).
  step_stores.
  match goal with |- context [Some ?p] => set (payload := p) end.
  destruct (gimbal_command_frame GIMBAL_CMD.CONTROL_PWM seq payload Hs)
    as (frame & f & Hb & Hf & _ & _ & _ & Hcs & Hci & _ & Hpay);
    [vm_compute; discriminate|unfold is_byte; vm_compute; easy|].
  exists frame, f. rewrite Hpay.
  repeat split; try assumption; try reflexivity.
  - apply (uint16_le_bytes _ (Hc pitch)).
  - apply (uint16_le_bytes _ (Hc roll)).
  - apply (uint16_le_bytes _ (Hc yaw)).
Qed.

Lemma writeInt8_ok (buf : Buffer) (v off : Z) :
  -0x80 <= v <= 0x7F -> 0 <= off -> off + 1 <= blen buf ->
  writeInt8 buf v off = Ok (store8 buf off v).
Proof.
  intros Hv Ho Hl. unfold writeInt8.
  destruct (Z.leb_spec (-0x80) v); [|lia].
  destruct (Z.leb_spec v 0x7F); [|lia].
  destruct (Z.leb_spec 0 off); [|lia].
  destruct (Z.leb_spec (off + 1) (blen buf)); [|lia]. reflexivity.
Qed.

(** X20: [move] cannot fail on its arguments.  Whatever the three whole
    numbers, with a 16-bit counter value the message is built: gimbal
    command 0x15 with a 20-byte payload whose first three bytes are the
    deltas clamped to -127..127 (two's complement), whose bytes 6 and 7 are
    50, and which is zero elsewhere. *)
Theorem move_clamps (pitchDelta rollDelta yawDelta seq : Z) :
  0 <= seq <= 0xFFFF ->
  let clamp := fun v => Z.max (-127) (Z.min 127 v) in
  exists frame f,
    move crc8Calc crc16Calc pitchDelta rollDelta yawDelta seq
      = (Ok frame, seq + 1)
    /\ parseMessage frame = Some f
    /\ Frame.cmdSet f = CMD_SET.GIMBAL
    /\ Frame.cmdId f = GIMBAL_CMD.MOVEMENT
    /\ Frame.payload f
       = [clamp pitchDelta mod 256; clamp rollDelta mod 256;
          clamp yawDelta mod 256; 0; 0; 0; 50; 50]
         ++ replicate 12 0.
Proof.
  intros Hs clamp. unfold move, bind, lift. fold clamp.
  assert (Hc : forall v, -0x80 <= clamp v <= 0x7F) by (intros v; unfold clamp; lia).
  change (alloc 20)
    with [0; 0; 0; 0; 0; 0; 0; 0; 0; 0; 0; 0; 0; 0; 0; 0; 0; 0; 0; 0].
  rewrite writeInt8_ok by (try apply Hc; try lia; vm_compute; discriminate).
  step_stores.
  rewrite writeInt8_ok
    by (try apply Hc; try lia; rewrite ?blen_cons; vm_compute; discriminate).
  step_stores.
  rewrite writeInt8_ok
    by (try apply Hc; try lia; rewrite ?blen_cons; vm_compute; discriminate).
  step_stores. change (50 mod 256) with 50.
  match goal with |- context [Some ?p] => set (payload := p) end.
  destruct (gimbal_command_frame GIMBAL_CMD.MOVEMENT seq payload Hs)
    as (frame & f & Hb & Hf & _ & _ & _ & Hcs & Hci & _ & Hpay);
    [vm_compute; discriminate|unfold is_byte; vm_compute; easy|].
  exists frame, f. rewrite Hpay.
  repeat split; try assumption; reflexivity.
Qed.

(** X21: the duration byte of [setAbsAngle] saturates.  For whole-degree
    angles whose tenfold fits 16 bits, a duration that is not negative and
    a 16-bit counter value, the message is gimbal command 0x14 with the
    three angles times ten as int16 at offsets 0, 2 and 4, the axes byte 7,
    and as last byte the duration times ten capped at 255; [recenter] sends
    zero angles with that byte at 255. *)
Theorem setAbsAngle_duration_saturates (pitch roll yaw seq : Z)
    (duration : option Z) :
  0 <= seq <= 0xFFFF ->
  -0x8000 <= pitch * 10 <= 0x7FFF ->
  -0x8000 <= roll * 10 <= 0x7FFF ->
  -0x8000 <= yaw * 10 <= 0x7FFF ->
  0 <= default 20 duration ->
  (exists frame f,
     setAbsAngle crc8Calc crc16Calc pitch roll yaw duration seq
       = (Ok frame, seq + 1)
     /\ parseMessage frame = Some f
     /\ Frame.cmdSet f = CMD_SET.GIMBAL
     /\ Frame.cmdId f = GIMBAL_CMD.ABS_ANGLE
     /\ blen (Frame.payload f) = 8
     /\ readInt16LE (Frame.payload f) 0 = pitch * 10
     /\ readInt16LE (Frame.payload f) 2 = roll * 10
     /\ readInt16LE (Frame.payload f) 4 = yaw * 10
     /\ load8 (Frame.payload f) 6 = 7
     /\ load8 (Frame.payload f) 7 = Z.min 255 (default 20 duration * 10))
  /\ (exists frame f,
        recenter crc8Calc crc16Calc seq = (Ok frame, seq + 1)
        /\ parseMessage frame = Some f
        /\ Frame.payload f = [0; 0; 0; 0; 0; 0; 7; 255]).
Proof.
  intros Hs Hp Hr Hy Hd.
  assert (Hgen : forall p r y d,
            -0x8000 <= p * 10 <= 0x7FFF -> -0x8000 <= r * 10 <= 0x7FFF ->
            -0x8000 <= y * 10 <= 0x7FFF -> 0 <= default 20 d ->
            exists frame f,
              setAbsAngle crc8Calc crc16Calc p r y d seq = (Ok frame, seq + 1)
              /\ parseMessage frame = Some f
              /\ Frame.cmdSet f = CMD_SET.GIMBAL
              /\ Frame.cmdId f = GIMBAL_CMD.ABS_ANGLE
              /\ Frame.payload f
                 = [(p * 10) mod 256; Z.shiftr (p * 10) 8 mod 256;
                    (r * 10) mod 256; Z.shiftr (r * 10) 8 mod 256;
                    (y * 10) mod 256; Z.shiftr (y * 10) 8 mod 256;
                    7; Z.min 255 (default 20 d * 10)]).
  { intros p r y d Hp' Hr' Hy' Hd'. unfold setAbsAngle, bind, lift.
    change (alloc 8) with [0; 0; 0; 0; 0; 0; 0; 0].
    rewrite writeInt16LE_ok by (try lia; vm_compute; discriminate).
    step_stores.
    rewrite writeInt16LE_ok
      by (try lia; rewrite ?blen_cons; vm_compute; discriminate).
    step_stores.
    rewrite writeInt16LE_ok
      by (try lia; rewrite ?blen_cons; vm_compute; discriminate).
    step_stores. change (7 mod 256) with 7.
    rewrite (Z.mod_small (Z.min 255 (default 20 d * 10))) by lia.
    match goal with |- context [Some ?q] => set (payload := q) end.
    destruct (gimbal_command_frame GIMBAL_CMD.ABS_ANGLE seq payload Hs)
      as (frame & f & Hb & Hf & _ & _ & _ & Hcs & Hci & _ & Hpay);
      [vm_compute; discriminate|unfold is_byte; vm_compute; easy|].
    exists frame, f. repeat split; assumption. }
  split.
  - destruct (Hgen pitch roll yaw duration Hp Hr Hy Hd)
      as (frame & f & Hb & Hf & Hcs & Hci & Hpay).
    exists frame, f. rewrite Hpay.
    repeat split; try assumption; try reflexivity.
    + rewrite readInt16LE_0. apply (int16_bytes _ Hp).
    + rewrite readInt16LE_2. apply (int16_bytes _ Hr).
    + do 2 (rewrite readInt16LE_cons by lia). change (4 - 1 - 1) with 2.
      rewrite readInt16LE_2. apply (int16_bytes _ Hy).
  - destruct (Hgen 0 0 0 (Some 30)) as (frame & f & Hb & Hf & _ & _ & Hpay);
      try (cbn; lia).
    exists frame, f. repeat split; assumption.
Qed.

(** X22: the speed byte of [setAngle] wraps.  For whole-degree angles
    whose tenfold fits 16 bits, a whole speed from 0 to 327 (30 when
    omitted) and a 16-bit counter value, the message is gimbal command 0x0A
    with speed times 100 as int16 at offset 6 and, as last payload byte,
    speed times 20 modulo 256: from speed 13 on that byte is no longer
    speed times 20. *)
Theorem setAngle_speed_byte_wraps (pitch roll yaw seq : Z)
    (speed : option Z) :
  0 <= seq <= 0xFFFF ->
  -0x8000 <= pitch * 10 <= 0x7FFF ->
  -0x8000 <= roll * 10 <= 0x7FFF ->
  -0x8000 <= yaw * 10 <= 0x7FFF ->
  0 <= default 30 speed <= 327 ->
  exists frame f,
    setAngle crc8Calc crc16Calc pitch roll yaw speed seq = (Ok frame, seq + 1)
    /\ parseMessage frame = Some f
    /\ Frame.cmdSet f = CMD_SET.GIMBAL
    /\ Frame.cmdId f = GIMBAL_CMD.ANGLE_SET
    /\ blen (Frame.payload f) = 10
    /\ readInt16LE (Frame.payload f) 0 = pitch * 10
    /\ readInt16LE (Frame.payload f) 6 = default 30 speed * 100
    /\ load8 (Frame.payload f) 8 = 1
    /\ load8 (Frame.payload f) 9 = (default 30 speed * 20) mod 256
    /\ (13 <= default 30 speed ->
        load8 (Frame.payload f) 9 <> default 30 speed * 20).
Proof.
  intros Hs Hp Hr Hy Hsp. unfold setAngle, bind, lift.
  set (s := default 30 speed) in *.
  assert (Hdiv : s * 2000 / 100 = s * 20).
  { replace (s * 2000) with (s * 20 * 100) by lia. apply Z.div_mul. lia. }
  rewrite Hdiv.
  change (alloc 10) with [0; 0; 0; 0; 0; 0; 0; 0; 0; 0].
  rewrite writeInt16LE_ok by (try lia; vm_compute; discriminate).
  step_stores.
  rewrite writeInt16LE_ok
    by (try lia; rewrite ?blen_cons; vm_compute; discriminate).
  step_stores.
  rewrite writeInt16LE_ok
    by (try lia; rewrite ?blen_cons; vm_compute; discriminate).
  step_stores.
  rewrite writeInt16LE_ok
    by (try lia; rewrite ?blen_cons; vm_compute; discriminate).
  step_stores. change (1 mod 256) with 1.
  match goal with |- context [Some ?q] => set (payload := q) end.
  destruct (gimbal_command_frame GIMBAL_CMD.ANGLE_SET seq payload Hs)
    as (frame & f & Hb & Hf & _ & _ & _ & Hcs & Hci & _ & Hpay);
    [vm_compute; discriminate|unfold is_byte; vm_compute; easy|].
  exists frame, f. rewrite Hpay.
  repeat split; try assumption; try reflexivity.
  - unfold payload. rewrite readInt16LE_0. apply (int16_bytes _ Hp).
  - unfold payload. do 4 (rewrite readInt16LE_cons by lia).
    change (6 - 1 - 1 - 1 - 1) with 2. rewrite readInt16LE_2.
    apply int16_bytes. lia.
  - intros Hbig. unfold payload.
    change (load8 (?a :: ?b :: ?c :: ?d :: ?e :: ?g :: ?h :: ?i :: ?j :: ?k :: ?l) 9)
      with k.
    pose proof (Z.mod_pos_bound (s * 20) 256 ltac:(lia)). lia.
Qed.

(** *** The tool's builders against the controller's commands *)

Lemma setAngle_eq (pitch roll yaw seq : Z) (speed : option Z) :
  -0x8000 <= pitch * 10 <= 0x7FFF ->
  -0x8000 <= roll * 10 <= 0x7FFF ->
  -0x8000 <= yaw * 10 <= 0x7FFF ->
  -0x8000 <= default 30 speed * 100 <= 0x7FFF ->
  setAngle crc8Calc crc16Calc pitch roll yaw speed seq
  = buildMessage crc8Calc crc16Calc TARGET.APP_TO_GIMBAL FLAG.REQUEST
      CMD_SET.GIMBAL GIMBAL_CMD.ANGLE_SET
      (Some [(pitch * 10) mod 256; Z.shiftr (pitch * 10) 8 mod 256;
             (roll * 10) mod 256; Z.shiftr (roll * 10) 8 mod 256;
             (yaw * 10) mod 256; Z.shiftr (yaw * 10) 8 mod 256;
             (default 30 speed * 100) mod 256;
             Z.shiftr (default 30 speed * 100) 8 mod 256;
             1; (default 30 speed * 2000 / 100) mod 256]) seq.
Proof.
  intros Hp Hr Hy Hsp. unfold setAngle, bind, lift.
  set (s := default 30 speed) in *.
  change (alloc 10) with [0; 0; 0; 0; 0; 0; 0; 0; 0; 0].
  rewrite writeInt16LE_ok by (try lia; vm_compute; discriminate).
  step_stores.
  rewrite writeInt16LE_ok
    by (try lia; rewrite ?blen_cons; vm_compute; discriminate).
  step_stores.
  rewrite writeInt16LE_ok
    by (try lia; rewrite ?blen_cons; vm_compute; discriminate).
  step_stores.
  rewrite writeInt16LE_ok
    by (try lia; rewrite ?blen_cons; vm_compute; discriminate).
  step_stores. reflexivity.
Qed.

(** Frames built at the same counter value from different payloads
    differ. *)
Lemma gimbal_command_payload_inj (cmdId seq : Z) (p q : Buffer) :
  0 <= seq <= 0xFFFF -> blen p <= 1011 -> blen q <= 1011 -> is_byte cmdId ->
  buildMessage crc8Calc crc16Calc TARGET.APP_TO_GIMBAL FLAG.REQUEST
    CMD_SET.GIMBAL cmdId (Some p) seq
  = buildMessage crc8Calc crc16Calc TARGET.APP_TO_GIMBAL FLAG.REQUEST
      CMD_SET.GIMBAL cmdId (Some q) seq ->
  p = q.
Proof.
  intros Hs Hp Hq Hc E.
  destruct (gimbal_command_frame cmdId seq p Hs Hp Hc)
    as (fp & f & Hb & Hf & _ & _ & _ & _ & _ & _ & Hpay).
  destruct (gimbal_command_frame cmdId seq q Hs Hq Hc)
    as (fq & g & Hb' & Hg & _ & _ & _ & _ & _ & _ & Hpay').
  rewrite E, Hb' in Hb. assert (fq = fp) by congruence. subst fq.
  rewrite Hf in Hg. congruence.
Qed.

(** X26: the tool's speed, PWM and step builders produce the controller's
    frames.  At equal counter values the tool's builder for a speed
    command returns what [setSpeed] sends once the roll and yaw arguments
    are exchanged (the tool takes pitch, roll, yaw; [setSpeed] takes
    pitch, yaw, roll); the PWM builders agree as they stand; and the
    tool's three further zero writes and its store at offset 8 for a step
    command change nothing: its frame is the one [move] sends, for every
    argument. *)
Theorem tool_builders_match_controller (pitch roll yaw seq : Z) :
  buildGimbalSpeedCmd crc8Calc crc16Calc pitch roll yaw seq
  = setSpeed crc8Calc crc16Calc pitch yaw roll seq
  /\ buildGimbalPwmCmd crc8Calc crc16Calc pitch roll yaw seq
     = setPwm crc8Calc crc16Calc pitch roll yaw seq
  /\ buildGimbalMoveCmd crc8Calc crc16Calc pitch roll yaw seq
     = move crc8Calc crc16Calc pitch roll yaw seq.
Proof.
  split; [reflexivity|]. split; [reflexivity|].
  unfold buildGimbalMoveCmd, move, bind, lift.
  set (clamp := fun v => Z.max (-127) (Z.min 127 v)).
  change (Z.max (-127) (Z.min 127 pitch)) with (clamp pitch).
  change (Z.max (-127) (Z.min 127 roll)) with (clamp roll).
  change (Z.max (-127) (Z.min 127 yaw)) with (clamp yaw).
  assert (Hc : forall v, -0x80 <= clamp v <= 0x7F)
    by (intros v; unfold clamp; lia).
  change (alloc 20)
    with [0; 0; 0; 0; 0; 0; 0; 0; 0; 0; 0; 0; 0; 0; 0; 0; 0; 0; 0; 0].
  do 3 (rewrite writeInt8_ok
          by (try apply Hc; try lia; rewrite ?blen_cons; vm_compute;
              discriminate);
        step_stores).
  do 3 (rewrite writeInt8_ok
          by (try lia; rewrite ?blen_cons; vm_compute; discriminate);
        step_stores).
  reflexivity.
Qed.

(** X27: the tool's fallback also replaces zero.  For the angle and the
    timed-angle command the tool reads a missing speed or duration with
    [||], the controller with a default parameter.  The two build the
    same frame unless the value given is 0; for 0 the tool builds the
    frame the controller builds when the value is left out; for the
    angle command, with angles and a counter value in range, that frame
    is not the one the controller builds for 0. *)
Theorem tool_fallback_replaces_zero (pitch roll yaw seq : Z)
    (speed duration : option Z) :
  (speed <> Some 0 ->
   buildGimbalAngleCmd crc8Calc crc16Calc pitch roll yaw speed seq
   = setAngle crc8Calc crc16Calc pitch roll yaw speed seq)
  /\ buildGimbalAngleCmd crc8Calc crc16Calc pitch roll yaw (Some 0) seq
     = setAngle crc8Calc crc16Calc pitch roll yaw None seq
  /\ (duration <> Some 0 ->
      buildGimbalAbsAngleCmd crc8Calc crc16Calc pitch roll yaw duration seq
      = setAbsAngle crc8Calc crc16Calc pitch roll yaw duration seq)
  /\ buildGimbalAbsAngleCmd crc8Calc crc16Calc pitch roll yaw (Some 0) seq
     = setAbsAngle crc8Calc crc16Calc pitch roll yaw None seq
  /\ (0 <= seq <= 0xFFFF ->
      -0x8000 <= pitch * 10 <= 0x7FFF ->
      -0x8000 <= roll * 10 <= 0x7FFF ->
      -0x8000 <= yaw * 10 <= 0x7FFF ->
      buildGimbalAngleCmd crc8Calc crc16Calc pitch roll yaw (Some 0) seq
      <> setAngle crc8Calc crc16Calc pitch roll yaw (Some 0) seq).
Proof.
  assert (Hor : forall (v : option Z) d, v <> Some 0 -> orElse v d = default d v).
  { intros [v|] d Hv; [|reflexivity]. cbn.
    destruct (Z.eqb_spec v 0); [congruence|reflexivity]. }
  split; [|split; [|split; [|split]]].
  - intros Hv. unfold buildGimbalAngleCmd, setAngle.
    rewrite (Hor speed 30 Hv). reflexivity.
  - reflexivity.
  - intros Hv. unfold buildGimbalAbsAngleCmd, setAbsAngle.
    rewrite (Hor duration 20 Hv). reflexivity.
  - reflexivity.
  - intros Hs Hp Hr Hy E.
    change (buildGimbalAngleCmd crc8Calc crc16Calc pitch roll yaw (Some 0) seq)
      with (setAngle crc8Calc crc16Calc pitch roll yaw None seq) in E.
    rewrite !setAngle_eq in E by (try assumption; cbn; lia).
    apply gimbal_command_payload_inj in E;
      [|exact Hs|vm_compute; discriminate|vm_compute; discriminate
       |unfold is_byte; vm_compute; easy].
    cbn [default] in E. vm_compute in E. discriminate E.
Qed.

End GimbalFacts.

(** ** Telemetry and unhandled messages *)

(** X23: gimbal telemetry is decoded as signed tenths.  A gimbal message
    with command 0x05 whose payload starts with three little-endian int16
    sets pitch, roll and yaw to those three signed values and reports a
    state change; the mode becomes the seventh payload byte when there is
    one and is kept otherwise. *)
Theorem telemetry_decodes (g : gimbal_state) (msg : Frame.t)
    (p r y : Z) (rest : Buffer) :
  -0x8000 <= p <= 0x7FFF -> -0x8000 <= r <= 0x7FFF ->
  -0x8000 <= y <= 0x7FFF ->
  Frame.cmdSet msg = CMD_SET.GIMBAL ->
  Frame.cmdId msg = GIMBAL_CMD.PARAMS_GET ->
  Frame.payload msg
  = [p mod 256; Z.shiftr p 8 mod 256; r mod 256; Z.shiftr r 8 mod 256;
     y mod 256; Z.shiftr y 8 mod 256] ++ rest ->
  gimbal_handleMessage g msg
  = (mkGimbal p r y (match rest with [] => mode g | b :: _ => Some b end),
     true).
Proof.
  intros Hp Hr Hy Hcs Hci Hpay. unfold gimbal_handleMessage.
  rewrite Hcs, Hci, Hpay. rewrite !Z.eqb_refl. cbn [negb andb app].
  rewrite !blen_cons. pose proof (blen_nonneg rest) as Hn.
  destruct (Z.leb_spec 6 (1 + (1 + (1 + (1 + (1 + (1 + blen rest)))))));
    [|lia].
  rewrite (readInt16LE_cons _ _ 4) by lia.
  rewrite (readInt16LE_cons _ _ (4 - 1)) by lia. change (4 - 1 - 1) with 2.
  rewrite readInt16LE_0, !readInt16LE_2. rewrite !int16_bytes by assumption.
  destruct rest as [|b rest'].
  - reflexivity.
  - rewrite blen_cons. pose proof (blen_nonneg rest').
    destruct (Z.leb_spec 7 (1 + (1 + (1 + (1 + (1 + (1 + (1 + blen rest'))))))));
      [reflexivity|lia].
Qed.

(** X24: which messages reach the rawMessage listeners.  A message whose
    command set is neither gimbal nor WiFi, and which is not a battery
    message with a payload, is emitted as rawMessage and changes nothing
    else; a gimbal or WiFi message is never emitted as rawMessage, whatever
    it holds. *)
Theorem unhandled_messages_surface (c : OsmoConnection) (msg : Frame.t) :
  (Frame.cmdSet msg <> CMD_SET.GIMBAL ->
   Frame.cmdSet msg <> CMD_SET.WIFI ->
   (Frame.cmdSet msg = CMD_SET.BATTERY -> Frame.payload msg = []) ->
   _handleMessage c (Some msg) = emit (Ev_rawMessage msg) c)
  /\ (Frame.cmdSet msg = CMD_SET.GIMBAL \/ Frame.cmdSet msg = CMD_SET.WIFI ->
      exists evs,
        effects (_handleMessage c (Some msg)) = effects c ++ evs
        /\ forall m, ~ In (Emit (Ev_rawMessage m)) evs).
Proof.
  split.
  - intros Hg Hw Hb. unfold _handleMessage.
    destruct (Z.eqb_spec (Frame.cmdSet msg) CMD_SET.GIMBAL); [contradiction|].
    destruct (Z.eqb_spec (Frame.cmdSet msg) CMD_SET.WIFI); [contradiction|].
    destruct (Z.eqb_spec (Frame.cmdSet msg) CMD_SET.BATTERY) as [E|E];
      [|reflexivity].
    rewrite (Hb E). reflexivity.
  - intros Hset. unfold _handleMessage.
    destruct (Z.eqb_spec (Frame.cmdSet msg) CMD_SET.GIMBAL) as [Eg|Eg].
    + destruct (gimbal_handleMessage (gimbal c) msg) as [g changed].
      destruct changed; cbn [emit set_gimbal effects].
      * eexists [_]. split; [reflexivity|].
        intros m [H|[]]. discriminate H.
      * exists []. rewrite app_nil_r. split; [reflexivity|]. intros m [].
    + destruct Hset as [E|E]; [contradiction|]. rewrite E.
      rewrite Z.eqb_refl.
      repeat match goal with
             | |- context [if ?b then _ else _] =>
                 lazymatch b with
                 | context [if _ then _ else _] => fail
                 | _ => destruct b eqn:?
                 end
             end;
        cbn [emit set_paired effects];
        first [ exists []; rewrite app_nil_r; split;
                [reflexivity | intros m []]
              | eexists [_]; split;
                [reflexivity | intros m [H|[]]; discriminate H] ].
Qed.
(** * The properties at sample inputs *)

Lemma sampleFrame_built :
  buildMessageDuml 0x0402 0x40 0x04 0x05 (Some samplePayload) 0x0100
  = (Ok sampleFrame, 0x0101).
Proof. vm_compute. reflexivity. Qed.

Lemma sampleFrame_valid : valid_frame computeCrc8 computeCrc16 sampleFrame.
Proof.
  split; [split; [|split]|split]; vm_compute; try reflexivity;
    split; discriminate.
Qed.

Lemma roundtrip_witness :
  exists buf seq' f,
    buildMessage computeCrc8 computeCrc16 0x0402 0x40 0x04 0x05
      (Some samplePayload) 0x0100 = (Ok buf, seq')
    /\ parseMessage buf = Some f
    /\ Frame.sender f = Z.land 0x0402 0xFF
    /\ Frame.receiver f = Z.shiftr 0x0402 8
    /\ Frame.flags f = 0x40
    /\ Frame.cmdSet f = 0x04
    /\ Frame.cmdId f = 0x05
    /\ Frame.payload f = samplePayload
    /\ Frame.msgId f = 0x0100.
Proof.
  apply (roundtrip computeCrc8 computeCrc16 computeCrc16_range
           0x0402 0x40 0x04 0x05 0x0100 samplePayload).
  - lia.
  - left. reflexivity.
  - unfold is_byte. lia.
  - unfold is_byte. lia.
  - vm_compute. discriminate.
  - lia.
Defined.

(** C1, as stated for any value of the generator, fails at the value
    0x10000, which the counter reaches by itself after the call that
    carried id 0xFFFF: buildMessage raises a RangeError there and returns
    no message to decode. *)
Lemma roundtrip_counterexample :
  let build := buildMessageDuml 0x0402 0x40 0x04 0x05 (Some samplePayload) in
  0 <= 0x0402 < 0x10000 /\ blen samplePayload <= 1011
  /\ snd (build 0xFFFF) = 0x10000
  /\ build 0x10000 = (Throw RangeError, 0x10001)
  /\ ~ (exists buf seq' f,
          build 0x10000 = (Ok buf, seq') /\ parseMessage buf = Some f
          /\ Frame.msgId f = 0x10000).
Proof.
  cbv zeta. split; [lia|]. split; [vm_compute; discriminate|].
  split; [vm_compute; reflexivity|].
  assert (E : buildMessageDuml 0x0402 0x40 0x04 0x05 (Some samplePayload)
                0x10000 = (Throw RangeError, 0x10001))
    by (vm_compute; reflexivity).
  split; [exact E|].
  intros (buf & seq' & f & Hb & _). rewrite E in Hb. discriminate Hb.
Qed.

Lemma sequence_counter_overflow_witness :
  let build := buildMessage computeCrc8 computeCrc16 0x0402 0x40 0x04 0x05
                 (Some samplePayload) in
  0 <= 0x0402 <= 0xFFFF
  /\ (exists bufs s,
        (_ <- resetSequence (Some 0x0100) ;; buildMessages build 3) initialSeq
          = (Ok bufs, s)
        /\ map carriedId bufs = [0x0100; 0x0101; 0x0102])
  /\ (exists buf,
        build 0xFFFF = (Ok buf, 0x10000) /\ carriedId buf = 0xFFFF
        /\ build 0x10000 = (Throw RangeError, 0x10001)).
Proof.
  split; [lia|].
  apply (sequence_counter_overflow computeCrc8 computeCrc16 computeCrc16_range
           0x0402 0x40 0x04 0x05 (Some samplePayload)).
  lia.
Defined.

Lemma encode_length_exact_witness :
  blen samplePayload <= 1010
  /\ (exists buf seq',
        buildMessage computeCrc8 computeCrc16 0x0402 0x40 0x04 0x05
          (Some samplePayload) 0x0100 = (Ok buf, seq')
        /\ blen buf = 13 + blen samplePayload
        /\ load8 buf 0 = 0x55
        /\ lengthField buf = 13 + blen samplePayload)
  /\ (exists buf seq' f,
        buildMessage computeCrc8 computeCrc16 0x0402 0x40 0x04 0x05
          (Some []) 0x0100 = (Ok buf, seq')
        /\ blen buf = 13
        /\ load8 buf 0 = 0x55
        /\ parseMessage buf = Some f
        /\ Frame.length f = 13).
Proof.
  assert (Hp : blen samplePayload <= 1010) by (vm_compute; discriminate).
  split; [exact Hp|].
  destruct (encode_length_exact computeCrc8 computeCrc16 computeCrc16_range)
    as [Hany Hzero].
  split.
  - apply Hany; [lia|lia|exact Hp].
  - apply Hzero. lia.
Defined.

(** C3, as stated, fails for a payload of 1011 bytes: the frame has 1024
    bytes, which the 10-bit length field cannot hold; it reads 0. *)
Lemma encode_length_exact_counterexample :
  let payload := replicate 1011 0 in
  blen payload <= 1011
  /\ exists buf,
       buildMessageDuml 0x0402 0x40 0x04 0x05 (Some payload) 0x0100
         = (Ok buf, 0x0101)
       /\ blen buf = 1024
       /\ lengthField buf = 0
       /\ lengthField buf <> 13 + blen payload.
Proof.
  cbv zeta. split; [vm_compute; discriminate|].
  eexists. split; [vm_compute; reflexivity|].
  split; [vm_compute; reflexivity|].
  split; [vm_compute; reflexivity|].
  vm_compute. discriminate.
Qed.


Lemma partial_delivery_witness :
  blen sampleFrame = 20
  /\ parseStream (take 5 sampleFrame) = ([], take 5 sampleFrame)
  /\ exists f,
       parseStream (snd (parseStream (take 5 sampleFrame))
                    ++ drop 5 sampleFrame) = ([f], [])
       /\ parseMessage sampleFrame = Some f
       /\ Frame.raw f = sampleFrame.
Proof.
  split; [reflexivity|].
  apply (partial_delivery computeCrc8 computeCrc16 sampleFrame).
  - exact sampleFrame_valid.
  - reflexivity.
Defined.

Lemma resynchronization_witness :
  exists f,
    parseStream ([0xAA; 0xBB] ++ sampleFrame) = ([f], [])
    /\ Frame.raw f = sampleFrame
    /\ parseMessage sampleFrame = Some f.
Proof.
  apply (resynchronization computeCrc8 computeCrc16 sampleFrame).
  exact sampleFrame_valid.
Defined.

Lemma permissive_decode_witness :
  exists f f',
    parseMessage sampleFrame = Some f
    /\ parseMessage (withChecksums sampleFrame 0 0 0) = Some f'
    /\ Frame.length f' = Frame.length f
    /\ Frame.sender f' = Frame.sender f
    /\ Frame.receiver f' = Frame.receiver f
    /\ Frame.msgId f' = Frame.msgId f
    /\ Frame.flags f' = Frame.flags f
    /\ Frame.cmdSet f' = Frame.cmdSet f
    /\ Frame.cmdId f' = Frame.cmdId f
    /\ Frame.payload f' = Frame.payload f.
Proof.
  apply (permissive_decode sampleFrame 0 0 0).
  - reflexivity.
  - vm_compute. split; discriminate.
Defined.

Lemma parseStream_terminates_witness :
  parseStream_loop 25 sampleStream []
    = Some ([] ++ fst (parseStream sampleStream),
            snd (parseStream sampleStream))
  /\ forall b' messages',
       parseStream_body sampleStream []
         = Continue b' messages' ->
       (length b' < length sampleStream)%nat
       /\ ((exists pre,
              noMagic pre
              /\ sampleStream = pre ++ 0x55 :: b'
              /\ (lengthField (0x55 :: b') < 13
                  \/ 1024 < lengthField (0x55 :: b')))
           \/ (exists pre raw,
                 noMagic pre
                 /\ sampleStream = pre ++ raw ++ b'
                 /\ 13 <= blen raw)).
Proof.
  apply (parseStream_terminates sampleStream 25 []).
  vm_compute. lia.
Defined.

Lemma pairing_timeout_advisory_witness :
  exists c1,
    _pair_send sampleEnvironment freshConnection = (Ok tt, c1)
    /\ _paired c1 = false
    /\ exists c2 new,
         _pair sampleEnvironment freshConnection = (Ok false, c2)
         /\ _paired c2 = false
         /\ effects c2 = effects c1 ++ new
         /\ countSleeps 500 new = 30%nat
         /\ list.last new = Some (Emit Ev_pairingTimeout)
         /\ forallb (fun e => negb (isPairedEvent e)) new = true.
Proof.
  eexists. split; [vm_compute; reflexivity|]. split; [reflexivity|].
  apply (pairing_timeout_advisory sampleEnvironment freshConnection).
  - vm_compute. reflexivity.
  - reflexivity.
  - intros k m c' _ Hin Hc'. unfold sampleEnvironment, arrivals in Hin.
    destruct (Nat.eqb k 4); [|destruct Hin].
    destruct Hin as [<-|[]]. destruct c'. cbn in Hc'. subst. reflexivity.
Defined.

(** * The further properties at sample inputs *)

Lemma unpackString_packString_witness :
  blen (bufferFromString "love") <= 255
  /\ unpackString ([0xFF] ++ packString "love" ++ [1; 2]) (length [0xFF])
     = mkUnpacked "love" (1 + blen (bufferFromString "love")).
Proof.
  assert (H : blen (bufferFromString "love") <= 255) by (vm_compute; discriminate).
  split; [exact H|]. apply (unpackString_packString [0xFF] [1; 2] "love" H).
Defined.

Lemma packString_length_wraps_witness :
  isAscii (bufferFromString longString) = true
  /\ 256 <= blen (bufferFromString longString)
  /\ load8 (packString longString) 0 = 44
  /\ bytesRead (unpackString (packString longString) 0) = 45
  /\ bytesRead (unpackString (packString longString) 0)
     < blen (packString longString)
  /\ value (unpackString (packString longString) 0)
     = substring 0 44 longString
  /\ value (unpackString (packString longString) 0) <> longString.
Proof.
  assert (Ha : isAscii (bufferFromString longString) = true)
    by (vm_compute; reflexivity).
  assert (H : 256 <= blen (bufferFromString longString))
    by (vm_compute; discriminate).
  destruct (packString_length_wraps longString) as (Hp & Hr & Hlt & Hv).
  destruct (Hv Ha) as [Hval Hne].
  split; [exact Ha|]. split; [exact H|].
  split; [rewrite Hp; reflexivity|]. split; [rewrite Hr; reflexivity|].
  split; [exact (Hlt H)|]. split; [exact Hval|exact (Hne H)].
Defined.

Lemma unpackString_bounds_witness :
  is_bytes [5; 0x61; 0x62]
  /\ isAscii (drop 1 [5; 0x61; 0x62]) = true
  /\ bytesRead (unpackString [5; 0x61; 0x62] 0) = 6
  /\ Z.of_nat (String.length (value (unpackString [5; 0x61; 0x62] 0))) = 2
  /\ unpackString [5; 0x61; 0x62] 3 = mkUnpacked "" 0.
Proof.
  assert (Hb : is_bytes [5; 0x61; 0x62])
    by (repeat constructor; unfold is_byte; lia).
  split; [exact Hb|]. split; [reflexivity|].
  destruct (unpackString_bounds [5; 0x61; 0x62] 0 Hb) as [_ Hin].
  destruct (unpackString_bounds [5; 0x61; 0x62] 3 Hb) as [Hout _].
  destruct (Hin ltac:(vm_compute; reflexivity)) as [Hr Hv].
  split; [exact Hr|]. split; [exact (Hv eq_refl)|].
  apply Hout. vm_compute. discriminate.
Defined.

Lemma sampleFrame_wellFramed : wellFramed sampleFrame.
Proof. exact (proj1 sampleFrame_valid). Qed.

Lemma parseStream_noise_and_frames_witness :
  exists fs,
    parseStream (flattenStream [([0xAA; 0xBB], sampleFrame); ([], sampleFrame)])
      = (fs, [])
    /\ Forall2 (fun d f => parseMessage d = Some f /\ Frame.raw f = d)
               [sampleFrame; sampleFrame] fs.
Proof.
  apply (parseStream_noise_and_frames
           [([0xAA; 0xBB], sampleFrame); ([], sampleFrame)]).
  constructor; [split|constructor; [split|constructor]].
  - unfold noMagic. repeat constructor; cbn; lia.
  - exact sampleFrame_wellFramed.
  - constructor.
  - exact sampleFrame_wellFramed.
Defined.

Lemma clean_stream_any_chunking_witness :
  exists fs,
    feedChunks [] [take 5 sampleFrame;
                   drop 5 sampleFrame ++ take 17 sampleFrame;
                   drop 17 sampleFrame] = ([], fs)
    /\ Forall2 (fun d f => parseMessage d = Some f /\ Frame.raw f = d)
               [sampleFrame; sampleFrame] fs.
Proof.
  apply clean_stream_any_chunking.
  - constructor; [exact sampleFrame_wellFramed|].
    constructor; [exact sampleFrame_wellFramed|constructor].
  - reflexivity.
Defined.

Lemma parseMessage_trailing_bytes_witness :
  parseMessage (sampleFrame ++ [1; 2; 3]) = parseMessage sampleFrame.
Proof.
  apply parseMessage_trailing_bytes. exact sampleFrame_wellFramed.
Defined.

Lemma oversized_frame_not_delivered_witness :
  exists frame,
    buildMessage computeCrc8 computeCrc16 0x0402 0x40 0x04 0x05
      (Some (replicate 1011 0)) 0x0100 = (Ok frame, 0x0101)
    /\ forall f, In f (fst (parseStream frame)) -> Frame.raw f <> frame.
Proof.
  eexists. split; [vm_compute; reflexivity|].
  apply (oversized_frame_not_delivered computeCrc8 computeCrc16
           computeCrc16_range 0x0402 0x40 0x04 0x05 (replicate 1011 0)
           _ 0x0100 0x0101).
  - lia.
  - lia.
  - vm_compute. discriminate.
  - vm_compute. reflexivity.
Defined.

Lemma buildMessage_target_out_of_range_witness :
  buildMessage computeCrc8 computeCrc16 0x10000 0x40 0x04 0x05
    (Some samplePayload) 0x0100 = (Throw RangeError, 0x0100).
Proof.
  apply buildMessage_target_out_of_range. right. lia.
Defined.

Lemma encoder_dead_after_overflow_witness :
  let build := buildMessage computeCrc8 computeCrc16 0x0402 0x40 0x04 0x05
                 (Some samplePayload) in
  counterAfter build 3 0x10000 = 0x10000 + Z.of_nat 3
  /\ build (counterAfter build 3 0x10000)
     = (Throw RangeError, 0x10000 + Z.of_nat 3 + 1).
Proof.
  apply (encoder_dead_after_overflow computeCrc8 computeCrc16
           0x0402 0x40 0x04 0x05 (Some samplePayload) 0x10000 3); lia.
Defined.

Lemma encoder_output_checks_witness :
  load8 sampleFrame 0 = 0x55
  /\ lengthField sampleFrame = blen sampleFrame
  /\ blen sampleFrame = 13 + blen (default [] (Some samplePayload))
  /\ load8 sampleFrame 3 = computeCrc8 (slice sampleFrame 0 3) mod 256
  /\ load8 sampleFrame (blen sampleFrame - 2)
     + 256 * load8 sampleFrame (blen sampleFrame - 1)
     = computeCrc16 (slice sampleFrame 0 (blen sampleFrame - 2)).
Proof.
  apply (encoder_output_checks computeCrc8 computeCrc16 computeCrc16_range
           0x0402 0x40 0x04 0x05 (Some samplePayload) sampleFrame
           0x0100 0x0101).
  - lia.
  - lia.
  - vm_compute. discriminate.
  - exact sampleFrame_built.
Defined.

Lemma handlers_agree_witness :
  let c' := _handleMessage freshConnection (Some sampleTelemetry) in
  let st' := tool_handleMessage freshTool (Some sampleTelemetry) in
  _paired c' = tool_paired st'
  /\ (pitch (gimbal c'), roll (gimbal c'), yaw (gimbal c'))
     = tool_gimbalState st'.
Proof.
  apply (handlers_agree freshConnection freshTool (Some sampleTelemetry));
    reflexivity.
Defined.

Lemma routing_invariants_witness :
  let c := set_paired freshConnection in
  let c' := routeAll c [approvalRequested; sampleTelemetry; sampleGeneral] in
  _paired c' = true
  /\ msgSeq c' = msgSeq c
  /\ exists evs, effects c' = effects c ++ evs
                 /\ (length evs <= 3)%nat
                 /\ forallb isRoutingEvent evs = true.
Proof.
  destruct (routing_invariants (set_paired freshConnection)
              [approvalRequested; sampleTelemetry; sampleGeneral])
    as (Hp & Hs & _ & _ & Hev).
  split; [apply Hp; reflexivity|]. split; [exact Hs|exact Hev].
Defined.

Lemma pairing_succeeds_early_witness :
  exists c1 c2 new,
    _pair_send approvingEnvironment freshConnection = (Ok tt, c1)
    /\ _pair approvingEnvironment freshConnection = (Ok true, c2)
    /\ _paired c2 = true
    /\ effects c2 = effects c1 ++ new
    /\ countSleeps 500 new = 3%nat
    /\ ~ In (Emit Ev_pairingTimeout) new.
Proof.
  pose (c1 := snd (_pair_send approvingEnvironment freshConnection)).
  assert (Hs : _pair_send approvingEnvironment freshConnection = (Ok tt, c1))
    by (vm_compute; reflexivity).
  destruct (pairing_succeeds_early approvingEnvironment freshConnection c1 2 Hs)
    as (c2 & new & H).
  - reflexivity.
  - lia.
  - intros i m c' Hi Hin Hc'. unfold approvingEnvironment, arrivals in Hin.
    destruct (Nat.eqb i 4).
    + destruct Hin as [<-|[]]. destruct c'. cbn in Hc'. subst. reflexivity.
    + destruct (Nat.eqb i 5) eqn:E5; [apply Nat.eqb_eq in E5; lia|].
      destruct Hin.
  - exists approvalGranted. split; [left; reflexivity|].
    intros c'. destruct c'. reflexivity.
  - exists c1, c2, new. split; [exact Hs|exact H].
Defined.

Lemma pairing_credentials_frame_witness :
  exists c1 msg f,
    _pair_send sampleEnvironment freshConnection = (Ok tt, c1)
    /\ In (WriteFff5 msg) (effects c1)
    /\ msgSeq c1 = msgSeq freshConnection + 1
    /\ parseMessage msg = Some f
    /\ Frame.sender f = ADDR.APP /\ Frame.receiver f = ADDR.WIFI
    /\ Frame.msgId f = msgSeq freshConnection
    /\ Frame.flags f = FLAG.REQUEST /\ Frame.cmdSet f = CMD_SET.WIFI
    /\ Frame.cmdId f = WIFI_CMD.SET_PAIRING_PIN
    /\ unpackString (Frame.payload f) 0
       = mkUnpacked (_identifier freshConnection)
           (1 + blen (bufferFromString (_identifier freshConnection)))
    /\ unpackString (Frame.payload f)
         (S (length (bufferFromString (_identifier freshConnection))))
       = mkUnpacked (_pin freshConnection)
           (1 + blen (bufferFromString (_pin freshConnection))).
Proof.
  apply (pairing_credentials_frame sampleEnvironment freshConnection).
  - reflexivity.
  - reflexivity.
  - vm_compute. split; discriminate.
  - vm_compute. discriminate.
  - vm_compute. discriminate.
Defined.

Lemma pairing_after_overflow_witness :
  exists c' new,
    _pair sampleEnvironment overflowedConnection = (Throw RangeError, c')
    /\ msgSeq c' = msgSeq overflowedConnection + 1
    /\ effects c' = effects overflowedConnection ++ new
    /\ In (WriteFff4 [0x01; 0x00]) new
    /\ forall msg, ~ In (WriteFff5 msg) new.
Proof.
  apply (pairing_after_overflow sampleEnvironment overflowedConnection).
  - reflexivity.
  - vm_compute. reflexivity.
Defined.

Lemma setSpeed_frame_witness :
  (exists frame f,
     setSpeed computeCrc8 computeCrc16 10 (-20) 0 0x0100
       = (Ok frame, 0x0100 + 1)
     /\ parseMessage frame = Some f
     /\ Frame.cmdSet f = CMD_SET.GIMBAL
     /\ Frame.cmdId f = GIMBAL_CMD.SPEED_CTRL
     /\ blen (Frame.payload f) = 7
     /\ readInt16LE (Frame.payload f) 0 = 10 * 10
     /\ readInt16LE (Frame.payload f) 2 = 0 * 10
     /\ readInt16LE (Frame.payload f) 4 = -20 * 10
     /\ load8 (Frame.payload f) 6 = 1)
  /\ setSpeed computeCrc8 computeCrc16 4000 0 0 0x0100
     = (Throw RangeError, 0x0100).
Proof.
  split.
  - apply (setSpeed_frame computeCrc8 computeCrc16 computeCrc16_range
             10 (-20) 0 0x0100); lia.
  - apply (setSpeed_frame computeCrc8 computeCrc16 computeCrc16_range
             4000 0 0 0x0100); lia.
Defined.

Lemma setPwm_clamps_witness :
  exists frame f,
    setPwm computeCrc8 computeCrc16 2000 0 1024 0x0100
      = (Ok frame, 0x0100 + 1)
    /\ parseMessage frame = Some f
    /\ Frame.cmdSet f = CMD_SET.GIMBAL
    /\ Frame.cmdId f = GIMBAL_CMD.CONTROL_PWM
    /\ blen (Frame.payload f) = 6
    /\ load8 (Frame.payload f) 0 + 256 * load8 (Frame.payload f) 1 = 1685
    /\ load8 (Frame.payload f) 2 + 256 * load8 (Frame.payload f) 3 = 363
    /\ load8 (Frame.payload f) 4 + 256 * load8 (Frame.payload f) 5 = 1024.
Proof.
  apply (setPwm_clamps computeCrc8 computeCrc16 computeCrc16_range
           2000 0 1024 0x0100). lia.
Defined.

Lemma move_clamps_witness :
  exists frame f,
    move computeCrc8 computeCrc16 200 (-300) 5 0x0100
      = (Ok frame, 0x0100 + 1)
    /\ parseMessage frame = Some f
    /\ Frame.cmdSet f = CMD_SET.GIMBAL
    /\ Frame.cmdId f = GIMBAL_CMD.MOVEMENT
    /\ Frame.payload f = [127; 129; 5; 0; 0; 0; 50; 50] ++ replicate 12 0.
Proof.
  apply (move_clamps computeCrc8 computeCrc16 computeCrc16_range
           200 (-300) 5 0x0100). lia.
Defined.

Lemma setAbsAngle_duration_saturates_witness :
  exists frame f,
    setAbsAngle computeCrc8 computeCrc16 10 0 (-45) (Some 30) 0x0100
      = (Ok frame, 0x0100 + 1)
    /\ parseMessage frame = Some f
    /\ Frame.cmdSet f = CMD_SET.GIMBAL
    /\ Frame.cmdId f = GIMBAL_CMD.ABS_ANGLE
    /\ blen (Frame.payload f) = 8
    /\ readInt16LE (Frame.payload f) 0 = 10 * 10
    /\ readInt16LE (Frame.payload f) 2 = 0 * 10
    /\ readInt16LE (Frame.payload f) 4 = -45 * 10
    /\ load8 (Frame.payload f) 6 = 7
    /\ load8 (Frame.payload f) 7 = 255.
Proof.
  apply (setAbsAngle_duration_saturates computeCrc8 computeCrc16
           computeCrc16_range 10 0 (-45) 0x0100 (Some 30)); cbn; lia.
Defined.

Lemma setAngle_speed_byte_wraps_witness :
  exists frame f,
    setAngle computeCrc8 computeCrc16 10 0 0 None 0x0100
      = (Ok frame, 0x0100 + 1)
    /\ parseMessage frame = Some f
    /\ load8 (Frame.payload f) 9 = 88
    /\ load8 (Frame.payload f) 9 <> 30 * 20.
Proof.
  destruct (setAngle_speed_byte_wraps computeCrc8 computeCrc16
              computeCrc16_range 10 0 0 0x0100 None)
    as (frame & f & Hb & Hp & _ & _ & _ & _ & _ & _ & H9 & Hne);
    try (cbn; lia).
  exists frame, f. split; [exact Hb|]. split; [exact Hp|].
  split; [exact H9|]. apply Hne. cbn. lia.
Defined.

Lemma telemetry_decodes_witness :
  gimbal_handleMessage (mkGimbal 0 0 0 None) sampleTelemetry
  = (mkGimbal (-125) 3 900 (Some 1), true).
Proof.
  apply (telemetry_decodes (mkGimbal 0 0 0 None) sampleTelemetry
           (-125) 3 900 [1]); try lia; reflexivity.
Defined.

Lemma unhandled_messages_surface_witness :
  _handleMessage freshConnection (Some sampleGeneral)
  = emit (Ev_rawMessage sampleGeneral) freshConnection
  /\ exists evs,
       effects (_handleMessage freshConnection (Some sampleTelemetry))
       = effects freshConnection ++ evs
       /\ forall m, ~ In (Emit (Ev_rawMessage m)) evs.
Proof.
  split.
  - apply (unhandled_messages_surface freshConnection sampleGeneral);
      vm_compute; congruence.
  - apply (unhandled_messages_surface freshConnection sampleTelemetry).
    left. reflexivity.
Defined.

Lemma tool_fallback_replaces_zero_witness :
  buildGimbalAngleCmd computeCrc8 computeCrc16 10 0 (-45) (Some 30) 0x0100
  = setAngle computeCrc8 computeCrc16 10 0 (-45) (Some 30) 0x0100
  /\ buildGimbalAbsAngleCmd computeCrc8 computeCrc16 10 0 (-45) None 0x0100
     = setAbsAngle computeCrc8 computeCrc16 10 0 (-45) None 0x0100
  /\ buildGimbalAngleCmd computeCrc8 computeCrc16 10 0 (-45) (Some 0) 0x0100
     <> setAngle computeCrc8 computeCrc16 10 0 (-45) (Some 0) 0x0100.
Proof.
  destruct (tool_fallback_replaces_zero computeCrc8 computeCrc16
              computeCrc16_range 10 0 (-45) 0x0100 (Some 30) None)
    as (Ha & _ & Hd & _ & Hne).
  split; [apply Ha; discriminate|]. split; [apply Hd; discriminate|].
  apply Hne; lia.
Defined.
